(** * Adaptive simulated annealing (morph::Anneal): a shallow embedding

    The development follows [src/morph/Anneal.h] (the full annealer) and
    [src/morph/AdaptiveAnneal.h] (the older, simpler annealer).

    - [Scalar] is the template parameter [T] of [template <typename T> class
      Anneal] together with the arithmetic the class uses on it, [<cmath>]
      included.
    - [vVector] models the operations of [morph::vVector<T>] that the class
      calls.
    - [Anneal] is the class: one record field per data member, one function
      per method.
    - [AdaptiveAnneal] is the acceptance function of the older class, on
      the members it uses, and [Adaptive] is that class as a whole.
    - [Double] instantiates [T] with IEEE binary64, so that the methods can be
      run on concrete inputs. *)

From Stdlib Require Import String.
From Stdlib Require Import ZArith List Bool Lia.
From Stdlib Require Import Floats Zpower.
Import ListNotations.

Set Implicit Arguments.

(** ** The numeric type [T] *)

(** The operations [Anneal<T>] needs from [T].  Comparisons are boolean, as in
    C++, and nothing is assumed about them: for a floating point [T] every
    comparison with a NaN is [false].  [exp], [log] and [pow] are [std::exp],
    [std::log] and [std::pow]; they live in the C library, not in this
    repository, and are taken as part of the parameter. *)
Class Scalar (T : Type) : Type := {
  of_uint : Z -> T;          (* static_cast<T>(unsigned int) *)
  to_uint : T -> Z;          (* static_cast<unsigned int>(T) *)
  add : T -> T -> T;
  sub : T -> T -> T;
  mul : T -> T -> T;
  div : T -> T -> T;
  opp : T -> T;
  fabs : T -> T;             (* std::abs *)
  ltb : T -> T -> bool;      (* a < b *)
  leb : T -> T -> bool;      (* a <= b *)
  eqb : T -> T -> bool;      (* a == b *)
  isnan : T -> bool;         (* std::isnan *)
  isinf : T -> bool;         (* std::isinf *)
  epsilon : T;               (* std::numeric_limits<T>::epsilon() *)
  max_value : T;             (* std::numeric_limits<T>::max() *)
  lowest : T;                (* std::numeric_limits<T>::lowest() *)
  exp : T -> T;
  log : T -> T;
  pow : T -> T -> T
}.

Declare Scope scalar_scope.
Delimit Scope scalar_scope with sc.
Infix "+" := add : scalar_scope.
Infix "-" := sub : scalar_scope.
Infix "*" := mul : scalar_scope.
Infix "/" := div : scalar_scope.
Notation "- x" := (opp x) : scalar_scope.
Infix "<?" := ltb : scalar_scope.
Infix "<=?" := leb : scalar_scope.
Infix "=?" := eqb : scalar_scope.
Notation "a >? b" := (ltb b a) (at level 70, only parsing) : scalar_scope.
Notation "a >=? b" := (leb b a) (at level 70, only parsing) : scalar_scope.

Section ScalarConstants.
Context {T : Type} `{Scalar T}.

Definition zero : T := of_uint 0.          (* T{0} *)
Definition one : T := of_uint 1.           (* T{1} *)
Definition two : T := of_uint 2.           (* T{2} *)
Definition minus_one : T := opp one.       (* T{-1} *)
Definition half : T := div one two.        (* T{0.5} *)

(** [std::min (a, b)] is [(b < a) ? b : a]; [std::max (a, b)] is
    [(a < b) ? b : a]. *)
Definition std_min (a b : T) : T := if ltb b a then b else a.
Definition std_max (a b : T) : T := if ltb a b then b else a.
End ScalarConstants.

(** Unsigned 32-bit counters: [++n] wraps around. *)
Definition uint_max : Z := 4294967296.
Definition uincr (n : Z) : Z := (n + 1) mod uint_max.

(** ** morph::vVector<T> *)

Module vVector.
Section Ops.
Context {T : Type} `{Scalar T}.
Local Open Scope scalar_scope.

(** Modelled from the spec: [morph/vVector.h] is not among the sources.  A
    [vVector<T>] is a [std::vector<T>] whose arithmetic operators act
    element by element (the spec's per-dimension formulas), whose
    comparisons hold when they hold for every coordinate (the spec: a
    point is accepted only if every coordinate lies within the bounds) and
    whose [mean], [max], [has_zero] and [has_nan_or_inf] are what their
    names say.  The two operands of an element-wise operator have the same
    length wherever [Anneal] uses one (all vectors have [D] elements). *)
Fixpoint zip_with (f : T -> T -> T) (a b : list T) : list T :=
  match a, b with
  | x :: a', y :: b' => f x y :: zip_with f a' b'
  | _, _ => []
  end.

Definition vadd := zip_with add.                       (* a + b *)
Definition vsub := zip_with sub.                       (* a - b *)
Definition vmul := zip_with mul.                       (* a * b *)
Definition vdiv := zip_with div.                       (* a / b *)
Definition vadd_s (a : list T) (s : T) := map (fun x => x + s) a.  (* a + s *)
Definition vsub_s (a : list T) (s : T) := map (fun x => x - s) a.  (* a - s *)
Definition vmul_s (a : list T) (s : T) := map (fun x => x * s) a.  (* a * s *)
Definition vdiv_s (a : list T) (s : T) := map (fun x => x / s) a.  (* a / s *)
Definition sadd_v (s : T) (a : list T) := map (fun x => s + x) a.  (* s + a *)
Definition sdiv_v (s : T) (a : list T) := map (fun x => s / x) a.  (* s / a *)
Definition vopp (a : list T) := map opp a.             (* -a *)
Definition vexp (a : list T) := map exp a.             (* a.exp() *)
Definition vlog (a : list T) := map log a.             (* a.log() *)
Definition vabs (a : list T) := map fabs a.            (* a.abs() *)
Definition vpow := zip_with pow.                       (* a.pow (vVector) *)
Definition vpow_s (a : list T) (p : T) := map (fun x => pow x p) a. (* a.pow (p) *)

Definition signum (x : T) : T :=
  if x >? zero then one else if x =? zero then zero else minus_one.
Definition vsignum (a : list T) := map signum a.       (* a.signum() *)

Definition sum (a : list T) : T := fold_left add a zero.
Definition mean (a : list T) : T := sum a / of_uint (Z.of_nat (length a)).

(** [std::max_element]: the first of the largest elements. *)
Definition vmax (a : list T) : T :=
  match a with
  | [] => zero
  | x :: a' => fold_left (fun best y => if best <? y then y else best) a' x
  end.
Definition vmin (a : list T) : T :=
  match a with
  | [] => zero
  | x :: a' => fold_left (fun best y => if y <? best then y else best) a' x
  end.

Definition max_elementwise_inplace (a : list T) (val : T) := map (fun x => std_max x val) a.
Definition min_elementwise_inplace (a : list T) (val : T) := map (fun x => std_min x val) a.

Definition set_from (a : list T) (v : T) := map (fun _ => v) a.

Definition has_nan_or_inf (a : list T) : bool := existsb (fun x => isnan x || isinf x) a.
Definition has_zero (a : list T) : bool := existsb (fun x => x =? zero) a.

Fixpoint all2 (r : T -> T -> bool) (a b : list T) : bool :=
  match a, b with
  | x :: a', y :: b' => r x y && all2 r a' b'
  | _, _ => true
  end.
Definition vle := all2 leb.                            (* a <= b *)
Definition vge := all2 (fun x y => x >=? y).           (* a >= b *)
Definition vlt := all2 ltb.                            (* a < b *)
Definition vgt_s (a : list T) (s : T) : bool := forallb (fun x => x >? s) a. (* a > s *)

(** [std::vector::resize (n, v)]: keeps the first [n] elements and pads
    with copies of [v]. *)
Definition resize (n : nat) (v : T) (a : list T) : list T :=
  firstn n a ++ repeat v (n - length a).

(** [a[i]] for reading; an index past the end is undefined behaviour in
    C++ and reads [zero] here. *)
Definition at_ (a : list T) (i : nat) : T := nth i a zero.
End Ops.
End vVector.

(** ** morph::Anneal<T> *)

Module Anneal.

(** What state is an instance of the Anneal class in? *)
Inductive Anneal_State : Set :=
| Unknown | NeedToInit | NeedToStep | NeedToCompute | NeedToComputeSet | ReadyToStop.

(** Which stopping condition caused exit? *)
Inductive Anneal_StopCondition : Set :=
| Unknown_condition
| T_k_less_than_T_f
| T_k_less_than_epsilon
| T_cost_less_than_epsilon
| f_x_best_repeated.

Section State.
Context {T : Type}.

(** The data members of the class, in the order of the header.  The flags
    that only switch text output on ([display_temperatures],
    [display_reanneal], [debug]) and [param_names] are left out.
    [rng_u] and [randomized] stand for the random generators: the class
    owns one generator, [rng_u], and [vVector::randomize] makes one per
    call; what is kept of them is how often each has been used. *)
Record t : Type := mk {
  downhill : bool;   (* descend to the minimum (true) or ascend to the maximum *)
  temperature_ratio_scale : T;
  temperature_anneal_scale : T;
  cost_parameter_scale_ratio : T;
  acc_gen_reanneal_ratio : T;   (* if accepted_vs_generated is less than this, reanneal *)
  delta_param : T;
  objective_repeat_precision : T;
  f_x_best_repeat_max : Z;
  enable_reanneal : bool;
  reanneal_after_steps : Z;
  exit_at_T_f : bool;
  x_cand : list T;   (* candidate parameter values *)
  f_x_cand : T;   (* objective of the candidate (written by the client) *)
  x : list T;   (* the currently accepted parameters *)
  f_x : T;
  x_best : list T;   (* the best parameters so far *)
  f_x_best : T;
  f_x_best_repeats : Z;
  x_plusdelta : list T;   (* the probe point of a reanneal *)
  f_x_plusdelta : T;   (* its objective (written by the client) *)
  num_generated : Z;
  num_generated_best : Z;
  num_generated_recently : Z;
  num_improved : Z;
  num_worse : Z;
  num_worse_accepted : Z;
  num_accepted : Z;
  num_accepted_best : Z;
  num_accepted_recently : Z;
  steps : Z;
  param_hist_accepted : list (list T);
  f_param_hist_accepted : list T;
  param_hist_rejected : list (list T);
  f_param_hist_rejected : list T;
  state : Anneal_State;
  reason_for_exit : Anneal_StopCondition;
  D : nat;   (* number of dimensions *)
  k : Z;   (* the step count of the temperature schedule *)
  k_f : Z;
  k_r : Z;   (* steps since the last reanneal *)
  T_k : list T;   (* the temperatures T_i(k) *)
  T_0 : list T;
  T_f : list T;
  m : list T;
  n : list T;
  c : list T;
  c_cost : list T;
  T_cost_0 : list T;
  T_cost : list T;   (* the acceptance temperature *)
  k_cost : Z;   (* number of accepted parameter sets *)
  range_min : list T;
  range_max : list T;
  rdelta : list T;
  rmeans : list T;
  tangents : list T;
  rng_u : nat;   (* numbers drawn so far from the member generator rng_u *)
  randomized : nat   (* calls made so far to vVector::randomize *)
}.

(** Field update.  [eta s] rebuilds [s] from its projections; the setter of
    a field is [eta s] with that one projection replaced. *)
Definition eta (s : t) : t :=
  mk (s.(downhill)) (s.(temperature_ratio_scale)) (s.(temperature_anneal_scale))
    (s.(cost_parameter_scale_ratio)) (s.(acc_gen_reanneal_ratio)) (s.(delta_param))
    (s.(objective_repeat_precision)) (s.(f_x_best_repeat_max)) (s.(enable_reanneal))
    (s.(reanneal_after_steps)) (s.(exit_at_T_f)) (s.(x_cand)) (s.(f_x_cand)) (s.(x))
    (s.(f_x)) (s.(x_best)) (s.(f_x_best)) (s.(f_x_best_repeats)) (s.(x_plusdelta))
    (s.(f_x_plusdelta)) (s.(num_generated)) (s.(num_generated_best))
    (s.(num_generated_recently)) (s.(num_improved)) (s.(num_worse))
    (s.(num_worse_accepted)) (s.(num_accepted)) (s.(num_accepted_best))
    (s.(num_accepted_recently)) (s.(steps)) (s.(param_hist_accepted))
    (s.(f_param_hist_accepted)) (s.(param_hist_rejected)) (s.(f_param_hist_rejected))
    (s.(state)) (s.(reason_for_exit)) (s.(D)) (s.(k)) (s.(k_f)) (s.(k_r)) (s.(T_k))
    (s.(T_0)) (s.(T_f)) (s.(m)) (s.(n)) (s.(c)) (s.(c_cost)) (s.(T_cost_0))
    (s.(T_cost)) (s.(k_cost)) (s.(range_min)) (s.(range_max)) (s.(rdelta))
    (s.(rmeans)) (s.(tangents)) (s.(rng_u)) (s.(randomized)).

Class Setter {A : Type} (proj : t -> A) : Type := set : A -> t -> t.

Ltac setter proj :=
  let v := fresh "v" in
  let s := fresh "s" in
  intros v s;
  let e := eval cbv beta delta [eta] in (eta s) in
  lazymatch e with
  | context C [proj s] => let r := context C [v] in exact r
  end.

#[global] Instance set_downhill : Setter downhill.
Proof. setter downhill. Defined.
#[global] Instance set_temperature_ratio_scale : Setter temperature_ratio_scale.
Proof. setter temperature_ratio_scale. Defined.
#[global] Instance set_temperature_anneal_scale : Setter temperature_anneal_scale.
Proof. setter temperature_anneal_scale. Defined.
#[global] Instance set_cost_parameter_scale_ratio : Setter cost_parameter_scale_ratio.
Proof. setter cost_parameter_scale_ratio. Defined.
#[global] Instance set_acc_gen_reanneal_ratio : Setter acc_gen_reanneal_ratio.
Proof. setter acc_gen_reanneal_ratio. Defined.
#[global] Instance set_delta_param : Setter delta_param.
Proof. setter delta_param. Defined.
#[global] Instance set_objective_repeat_precision : Setter objective_repeat_precision.
Proof. setter objective_repeat_precision. Defined.
#[global] Instance set_f_x_best_repeat_max : Setter f_x_best_repeat_max.
Proof. setter f_x_best_repeat_max. Defined.
#[global] Instance set_enable_reanneal : Setter enable_reanneal.
Proof. setter enable_reanneal. Defined.
#[global] Instance set_reanneal_after_steps : Setter reanneal_after_steps.
Proof. setter reanneal_after_steps. Defined.
#[global] Instance set_exit_at_T_f : Setter exit_at_T_f.
Proof. setter exit_at_T_f. Defined.
#[global] Instance set_x_cand : Setter x_cand.
Proof. setter x_cand. Defined.
#[global] Instance set_f_x_cand : Setter f_x_cand.
Proof. setter f_x_cand. Defined.
#[global] Instance set_x : Setter x.
Proof. setter x. Defined.
#[global] Instance set_f_x : Setter f_x.
Proof. setter f_x. Defined.
#[global] Instance set_x_best : Setter x_best.
Proof. setter x_best. Defined.
#[global] Instance set_f_x_best : Setter f_x_best.
Proof. setter f_x_best. Defined.
#[global] Instance set_f_x_best_repeats : Setter f_x_best_repeats.
Proof. setter f_x_best_repeats. Defined.
#[global] Instance set_x_plusdelta : Setter x_plusdelta.
Proof. setter x_plusdelta. Defined.
#[global] Instance set_f_x_plusdelta : Setter f_x_plusdelta.
Proof. setter f_x_plusdelta. Defined.
#[global] Instance set_num_generated : Setter num_generated.
Proof. setter num_generated. Defined.
#[global] Instance set_num_generated_best : Setter num_generated_best.
Proof. setter num_generated_best. Defined.
#[global] Instance set_num_generated_recently : Setter num_generated_recently.
Proof. setter num_generated_recently. Defined.
#[global] Instance set_num_improved : Setter num_improved.
Proof. setter num_improved. Defined.
#[global] Instance set_num_worse : Setter num_worse.
Proof. setter num_worse. Defined.
#[global] Instance set_num_worse_accepted : Setter num_worse_accepted.
Proof. setter num_worse_accepted. Defined.
#[global] Instance set_num_accepted : Setter num_accepted.
Proof. setter num_accepted. Defined.
#[global] Instance set_num_accepted_best : Setter num_accepted_best.
Proof. setter num_accepted_best. Defined.
#[global] Instance set_num_accepted_recently : Setter num_accepted_recently.
Proof. setter num_accepted_recently. Defined.
#[global] Instance set_steps : Setter steps.
Proof. setter steps. Defined.
#[global] Instance set_param_hist_accepted : Setter param_hist_accepted.
Proof. setter param_hist_accepted. Defined.
#[global] Instance set_f_param_hist_accepted : Setter f_param_hist_accepted.
Proof. setter f_param_hist_accepted. Defined.
#[global] Instance set_param_hist_rejected : Setter param_hist_rejected.
Proof. setter param_hist_rejected. Defined.
#[global] Instance set_f_param_hist_rejected : Setter f_param_hist_rejected.
Proof. setter f_param_hist_rejected. Defined.
#[global] Instance set_state : Setter state.
Proof. setter state. Defined.
#[global] Instance set_reason_for_exit : Setter reason_for_exit.
Proof. setter reason_for_exit. Defined.
#[global] Instance set_D : Setter D.
Proof. setter D. Defined.
#[global] Instance set_k : Setter k.
Proof. setter k. Defined.
#[global] Instance set_k_f : Setter k_f.
Proof. setter k_f. Defined.
#[global] Instance set_k_r : Setter k_r.
Proof. setter k_r. Defined.
#[global] Instance set_T_k : Setter T_k.
Proof. setter T_k. Defined.
#[global] Instance set_T_0 : Setter T_0.
Proof. setter T_0. Defined.
#[global] Instance set_T_f : Setter T_f.
Proof. setter T_f. Defined.
#[global] Instance set_m : Setter m.
Proof. setter m. Defined.
#[global] Instance set_n : Setter n.
Proof. setter n. Defined.
#[global] Instance set_c : Setter c.
Proof. setter c. Defined.
#[global] Instance set_c_cost : Setter c_cost.
Proof. setter c_cost. Defined.
#[global] Instance set_T_cost_0 : Setter T_cost_0.
Proof. setter T_cost_0. Defined.
#[global] Instance set_T_cost : Setter T_cost.
Proof. setter T_cost. Defined.
#[global] Instance set_k_cost : Setter k_cost.
Proof. setter k_cost. Defined.
#[global] Instance set_range_min : Setter range_min.
Proof. setter range_min. Defined.
#[global] Instance set_range_max : Setter range_max.
Proof. setter range_max. Defined.
#[global] Instance set_rdelta : Setter rdelta.
Proof. setter rdelta. Defined.
#[global] Instance set_rmeans : Setter rmeans.
Proof. setter rmeans. Defined.
#[global] Instance set_tangents : Setter tangents.
Proof. setter tangents. Defined.
#[global] Instance set_rng_u : Setter rng_u.
Proof. setter rng_u. Defined.
#[global] Instance set_randomized : Setter randomized.
Proof. setter randomized. Defined.
End State.

Arguments t : clear implicits.
Arguments set {T A} proj {Setter} _ _.
#[warnings="-postfix-notation-not-level-1"]
Notation "s <| f := v |>" := (set f v s) (at level 12, left associativity, f at level 0).

Section Methods.
Context {T : Type} `{Scalar T}.
Local Open Scope scalar_scope.
Import vVector.

(** The numbers the random generators hand out.  The generators are seeded
    from [std::random_device] ([morph/Random.h]); the class takes no seed.
    [rng_u_get i] is the [i]-th number drawn from the member [rng_u], and
    [randomize j i] is coordinate [i] of the [j]-th [vVector::randomize]. *)
Record Entropy : Type := {
  rng_u_get : nat -> T;
  randomize : nat -> nat -> T
}.

(** What a call of a method does: it returns, it throws
    [std::runtime_error], or (the loop of [generate_next]) it is still
    running when the fuel is used up. *)
Inductive result : Type :=
| Returned (s : t T)
| Threw (what : string) (s : t T)
| Looping.

(** [min_steps_to_reanneal]: a reanneal won't occur within 10 steps of the
    last reanneal. *)
Definition min_steps_to_reanneal : Z := 10.

(** The constructor, with the default member initialisers.  The loop over
    [param_ranges] writes [range_min[i]] and [range_max[i]]; writing past
    [D] elements is undefined behaviour, and the ranges past [D] are dropped
    here. *)
Definition construct (initial_params : list T) (param_ranges : list (T * T)) : t T :=
  let D_ := length initial_params in
  let range_min_ := resize D_ zero (map fst param_ranges) in
  let range_max_ := resize D_ zero (map snd param_ranges) in
  {| downhill := true;
     temperature_ratio_scale := one / of_uint 100000;
     temperature_anneal_scale := of_uint 100;
     cost_parameter_scale_ratio := one;
     acc_gen_reanneal_ratio := one / of_uint 1000000;
     delta_param := one / of_uint 100;
     objective_repeat_precision := epsilon;
     f_x_best_repeat_max := 10;
     enable_reanneal := true;
     reanneal_after_steps := 100;
     exit_at_T_f := false;
     x_cand := initial_params;
     f_x_cand := zero;
     x := initial_params;
     f_x := zero;
     x_best := initial_params;
     f_x_best := zero;
     f_x_best_repeats := 0;
     x_plusdelta := [];
     f_x_plusdelta := zero;
     num_generated := 0;
     num_generated_best := 0;
     num_generated_recently := 0;
     num_improved := 0;
     num_worse := 0;
     num_worse_accepted := 0;
     num_accepted := 0;
     num_accepted_best := 0;
     num_accepted_recently := 0;
     steps := 0;
     param_hist_accepted := [];
     f_param_hist_accepted := [];
     param_hist_rejected := [];
     f_param_hist_rejected := [];
     state := NeedToInit;
     reason_for_exit := Unknown_condition;
     D := D_;
     k := 1;
     k_f := 0;
     k_r := 0;
     T_k := [];
     T_0 := [];
     T_f := [];
     m := [];
     n := [];
     c := [];
     c_cost := [];
     T_cost_0 := [];
     T_cost := [];
     k_cost := 0;
     range_min := range_min_;
     range_max := range_max_;
     rdelta := vsub range_max_ range_min_;
     rmeans := vdiv_s (vadd range_max_ range_min_) two;
     tangents := [];
     rng_u := 0%nat;
     randomized := 0%nat |}.

(** After constructing, then setting parameters, the user must call init. *)
Definition init (s : t T) : t T :=
  let s := s <| f_x_best := if downhill s then max_value else lowest |> in
  let s := s <| f_x := f_x_best s |> in
  let s := s <| f_x_cand := f_x_best s |> in
  let s := s <| x := resize (D s) zero (x s) |> in
  let s := s <| x_cand := resize (D s) zero (x_cand s) |> in
  let s := s <| x_best := resize (D s) zero (x_best s) |> in
  let s := s <| T_0 := resize (D s) one (T_0 s) |> in
  let s := s <| T_k := resize (D s) one (T_k s) |> in
  let s := s <| m := resize (D s) zero (m s) |> in
  let s := s <| m := set_from (m s) (- log (temperature_ratio_scale s)) |> in
  let s := s <| n := resize (D s) zero (n s) |> in
  let s := s <| n := set_from (n s) (log (temperature_anneal_scale s)) |> in
  let s := s <| c := resize (D s) one (c s) |> in
  let s := s <| c := vmul (m s) (vexp (vdiv_s (vopp (n s)) (of_uint (Z.of_nat (D s))))) |> in
  let s := s <| T_f := vmul (T_0 s) (vexp (vopp (m s))) |> in
  let s := s <| k_f := to_uint (mean (vexp (n s))) |> in
  let s := s <| tangents := resize (D s) one (tangents s) |> in
  let s := s <| c_cost := vmul_s (c s) (cost_parameter_scale_ratio s) |> in
  let s := s <| T_cost_0 := c_cost s |> in
  let s := s <| T_cost := c_cost s |> in
  s <| state := NeedToCompute |>.

(** Generate delta parameter near to x_start, for cost tangent estimation:
    [x_start*(1 + delta_param)], or [x_start*(1 - delta_param)] in the
    coordinates where the former is out of the bounds. *)
Definition generate_delta_parameter (s : t T) (x_start : list T) : list T :=
  let plusminus := repeat one (D s) in
  let x_new := vmul x_start (sadd_v one (vmul_s plusminus (delta_param s))) in
  let plusminus :=
    map (fun '(xi, (hi, lo)) => if (xi >? hi) || (xi <? lo) then minus_one else one)
        (combine x_new (combine (range_max s) (range_min s))) in
  vmul x_start (sadd_v one (vmul_s plusminus (delta_param s))).

(** One pass of the [while (!generated)] loop of [generate_next]: the point
    it draws, and whether it is within the bounds. *)
Definition draw_next (ent : Entropy) (s : t T) : list T :=
  let u := map (randomize ent (randomized s)) (seq 0 (D s)) in
  let u2 := vabs (vsub_s (vmul_s u two) one) in
  let sigu := vsignum (vsub_s u half) in
  let y := vmul (vmul sigu (T_k s))
                (vsub_s (vpow (vadd_s (sdiv_v one (T_k s)) one) u2) one) in
  vadd (x s) y.

Definition within_bounds (s : t T) (x_new : list T) : bool :=
  vle x_new (range_max s) && vge x_new (range_min s).

(** A function to generate a new set of parameters for x_cand. *)
Fixpoint generate_next (ent : Entropy) (fuel : nat) (s : t T) : option (t T) :=
  match fuel with
  | O => None
  | S fuel' =>
      let x_new := draw_next ent s in
      let s := s <| randomized := S (randomized s) |> in
      if within_bounds s x_new then
        let s := s <| num_generated := uincr (num_generated s) |> in
        let s := s <| num_generated_recently := uincr (num_generated_recently s) |> in
        Some (s <| x_cand := x_new |>)
      else generate_next ent fuel' s
  end.

(** The temperature of the schedule at step count [kk]:
    [T0 * (-cc * std::pow(kk, T{1}/D)).exp()], floored at [eps]. *)
Definition schedule (dim : nat) (T0 cc : list T) (kk : Z) : list T :=
  max_elementwise_inplace
    (vmul T0 (vexp (vmul_s (vopp cc) (pow (of_uint kk) (one / of_uint (Z.of_nat dim))))))
    epsilon.

(** The cooling schedule function updates temperatures on each step. *)
Definition cooling_schedule (s : t T) : t T :=
  let s := s <| T_k := schedule (D s) (T_0 s) (c s) (k s) |> in
  s <| T_cost := schedule (D s) (T_cost_0 s) (c_cost s) (k_cost s) |>.

(** The acceptance probability of [acceptance_check] and its verdict on the
    number [u] drawn from [rng_u]. *)
Definition acceptance_probability (s : t T) : T :=
  let p := exp (- (f_x_cand s - f_x s) / (epsilon + mean (T_cost s))) in
  std_min one p.

Definition candidate_is_better (s : t T) : bool :=
  (downhill s && (f_x_cand s <? f_x s)) || (negb (downhill s) && (f_x_cand s >? f_x s)).

(** The test that makes the candidate the new best: its objective [cand] is
    more than [precision] better than the best one, [best]. *)
Definition improves (dh : bool) (precision cand best : T) : bool :=
  (dh && ((cand - best + precision) <? zero))
  || (negb dh && ((cand - best - precision) >? zero)).

Definition improves_on_best (s : t T) : bool :=
  improves (downhill s) (objective_repeat_precision s) (f_x_cand s) (f_x_best s).

(** The body of [acceptance_check]; [u] is the number that [rng_u.get()]
    returns in it. *)
Definition acceptance_check_on (u : T) (s : t T) : t T :=
  let better := candidate_is_better s in
  let s := if better then s <| num_improved := uincr (num_improved s) |>
           else s <| num_worse := uincr (num_worse s) |> in
  let p := acceptance_probability s in
  let s := s <| rng_u := S (rng_u s) |> in
  let accepted := p >=? u in
  let s := if negb better && accepted
           then s <| num_worse_accepted := uincr (num_worse_accepted s) |> else s in
  if accepted then
    let s := s <| k_cost := uincr (k_cost s) |> in
    let s := s <| num_accepted := uincr (num_accepted s) |> in
    let s := s <| num_accepted_recently := uincr (num_accepted_recently s) |> in
    let repeated := fabs (f_x_cand s - f_x_best s) <=? objective_repeat_precision s in
    let s := s <| f_x_best_repeats :=
                    ((f_x_best_repeats s + (if repeated then 1 else 0)) mod uint_max)%Z |> in
    let s := if improves_on_best s then
               let s := s <| f_x_best_repeats := 0%Z |> in
               let s := s <| x_best := x_cand s |> in
               let s := s <| num_accepted_best := num_accepted s |> in
               let s := s <| num_generated_best := num_generated s |> in
               let s := s <| num_accepted_recently := 0%Z |> in
               let s := s <| num_generated_recently := 0%Z |> in
               s <| f_x_best := f_x_cand s |>
             else s in
    let s := s <| x := x_cand s |> in
    let s := s <| f_x := f_x_cand s |> in
    let s := s <| param_hist_accepted := param_hist_accepted s ++ [x s] |> in
    s <| f_param_hist_accepted := f_param_hist_accepted s ++ [f_x s] |>
  else
    let s := s <| param_hist_rejected := param_hist_rejected s ++ [x s] |> in
    s <| f_param_hist_rejected := f_param_hist_rejected s ++ [f_x s] |>.

(** The acceptance function determines if x_cand is accepted, copies x_cand
    to x and x_best as necessary, and updates statistical variables.  It
    draws one number from [rng_u]: the next one of the generator. *)
Definition acceptance_check (ent : Entropy) (s : t T) : t T :=
  acceptance_check_on (rng_u_get ent (rng_u s)) s.

(** Compute & return number accepted vs. number generated based on
    currently stored stats.  As written in the header:
    [static_cast<T>(num_accepted_recently) + T{1} / (num_generated_recently + T{1})],
    where the division binds tighter than the sum. *)
Definition accepted_vs_generated (s : t T) : T :=
  of_uint (num_accepted_recently s) + one / (of_uint (num_generated_recently s) + one).

(** Test for a reannealing.  If reannealing is required, sample some
    parameters that will need to be computed by the client's objective
    function. *)
Definition reanneal_test (s : t T) : bool * t T :=
  if (k_r s <? min_steps_to_reanneal)%Z then (false, s)
  else if (k_r s <? reanneal_after_steps s)%Z
          && (accepted_vs_generated s >=? acc_gen_reanneal_ratio s) then (false, s)
  else
    let s := if accepted_vs_generated s <? acc_gen_reanneal_ratio s then
               let s := s <| num_accepted_recently := 0%Z |> in
               s <| num_generated_recently := 0%Z |>
             else s in
    let s := s <| x := x_best s |> in
    let s := s <| f_x := f_x_best s |> in
    let s := s <| x_plusdelta := generate_delta_parameter s (x s) |> in
    (true, s).

(** The line feed that ends the message of the second exception of
    [complete_reanneal]. *)
Definition line_feed : string := String (Ascii.ascii_of_nat 10) EmptyString.

(** dCost/dx, as [complete_reanneal] computes it:
    [(f_x_plusdelta - f_x) / (x_plusdelta - x + eps)]. *)
Definition tangent_estimate (s : t T) : list T :=
  sdiv_v (f_x_plusdelta s - f_x s) (vadd_s (vsub (x_plusdelta s) (x s)) epsilon).

(** Complete the reannealing process.  Based on the objectives in f_x and
    f_x_plusdelta, compute tangents and modify k and temp.  (The loop that
    overwrites the small entries of [abs_tangents] has no effect on what
    follows it and is left out.) *)
Definition complete_reanneal (s : t T) : result :=
  let s := s <| tangents := tangent_estimate s |> in
  if has_nan_or_inf (tangents s) then Threw "NaN or inf in tangents" s
  else if has_zero (tangents s) then
    Returned (s <| delta_param := delta_param s * two |>)
  else
    let abs_tangents := vabs (tangents s) in
    let max_tangent := vmax abs_tangents in
    let T_re := vabs (vmul (T_k s) (sdiv_v max_tangent (tangents s))) in
    if vgt_s T_re zero then
      let k_re :=
        to_uint (mean (vpow_s (vdiv (vlog (vdiv (T_0 s) T_re)) (c s)) (of_uint (Z.of_nat (D s))))) in
      let s := s <| k := k_re |> in
      let s := s <| T_k := T_re |> in
      let T_cost_0_candidates := vabs [f_x s; f_x_best s; f_x_best s - f_x s; epsilon] in
      let s := s <| T_cost_0 := min_elementwise_inplace (T_cost_0 s) (vmax T_cost_0_candidates) |> in
      let T_cost_candidates := [fabs (f_x_best s - f_x s); vmax (T_cost s); epsilon] in
      let tmp_dbl1 := min_elementwise_inplace (T_cost_0 s) (vmax T_cost_candidates) in
      let tvdb3 := vabs (vlog (vdiv (vadd_s (T_cost_0 s) epsilon) tmp_dbl1)) in
      let s := s <| k_cost :=
                      to_uint (epsilon + mean (vpow_s (vdiv tvdb3 (c_cost s)) (of_uint (Z.of_nat (D s))))) |> in
      let s := s <| T_cost := schedule (D s) (T_cost_0 s) (c_cost s) (k_cost s) |> in
      Returned (s <| k_r := 0%Z |>)
    else Threw ("Can't update k based on new temp, as it is <=0" ++ line_feed) s.

(** The algorithm's stopping conditions, in the order they are tested. *)
Definition stop_condition (s : t T) : option Anneal_StopCondition :=
  if exit_at_T_f s && vlt (T_k s) (T_f s) then Some T_k_less_than_T_f
  else if at_ (T_k s) 0 <=? epsilon then Some T_k_less_than_epsilon
  else if at_ (T_cost s) 0 <=? epsilon then Some T_cost_less_than_epsilon
  else if (f_x_best_repeats s >=? f_x_best_repeat_max s)%Z then Some f_x_best_repeated
  else None.

Definition stop_check (s : t T) : bool * t T :=
  match stop_condition s with
  | Some why => (true, s <| reason_for_exit := why |>)
  | None => (false, s)
  end.

(** The part of [step] from the cooling schedule on. *)
Definition advance (ent : Entropy) (fuel : nat) (s : t T) : result :=
  let s := cooling_schedule s in
  let s := acceptance_check ent s in
  match generate_next ent fuel s with
  | None => Looping
  | Some s =>
      let s := s <| k := uincr (k s) |> in
      let s := s <| k_r := uincr (k_r s) |> in
      if enable_reanneal s then
        let '(again, s) := reanneal_test s in
        Returned (s <| state := if again then NeedToComputeSet else NeedToCompute |>)
      else Returned (s <| state := NeedToCompute |>)
  end.

(** Advance the simulated annealing algorithm by one step. *)
Definition step (ent : Entropy) (fuel : nat) (s : t T) : result :=
  let s := s <| steps := uincr (steps s) |> in
  let '(stop, s) := stop_check s in
  if stop then Returned (s <| state := ReadyToStop |>)
  else
    match state s with
    | NeedToComputeSet =>
        match complete_reanneal s with
        | Returned s => advance ent fuel (s <| state := NeedToStep |>)
        | r => r
        end
    | _ => advance ent fuel s
    end.

(** *** The client *)

(** Modelled from the spec: the client loop is not among the sources.  As the
    class comment and the spec's protocol say, the client looks at [state],
    computes the objective of [x_cand] into [f_x_cand] ([NeedToCompute]) or
    the objective of [x_plusdelta] into [f_x_plusdelta]
    ([NeedToComputeSet]), and calls [step], until [state] is
    [ReadyToStop]. *)
Definition client (objective : list T -> T) (s : t T) : t T :=
  match state s with
  | NeedToCompute => s <| f_x_cand := objective (x_cand s) |>
  | NeedToComputeSet => s <| f_x_plusdelta := objective (x_plusdelta s) |>
  | _ => s
  end.

Definition stopped (s : t T) : bool :=
  match state s with ReadyToStop => true | _ => false end.

(** The outcomes of the calls of [step] the client makes, at most [calls]
    of them, from [s] on. *)
Fixpoint trajectory (objective : list T -> T) (ent : Entropy) (fuel calls : nat)
    (s : t T) : list result :=
  match calls with
  | O => []
  | S calls' =>
      if stopped s then []
      else
        let r := step ent fuel (client objective s) in
        r :: match r with
             | Returned s' => trajectory objective ent fuel calls' s'
             | _ => []
             end
  end.

(** Where the client is after at most [calls] calls of [step]. *)
Fixpoint run (objective : list T -> T) (ent : Entropy) (fuel calls : nat)
    (s : t T) : result :=
  match calls with
  | O => Returned s
  | S calls' =>
      if stopped s then Returned s
      else
        match step ent fuel (client objective s) with
        | Returned s' => run objective ent fuel calls' s'
        | r => r
        end
  end.

(** What the client may do to a new [Anneal (p, r)] before [init]: set the
    parameters of the first [public] block of the class. *)
Inductive configured (p : list T) (r : list (T * T)) : t T -> Prop :=
| conf_new : configured p r (construct p r)
| conf_downhill s v : configured p r s -> configured p r (s <| downhill := v |>)
| conf_temperature_ratio_scale s v :
    configured p r s -> configured p r (s <| temperature_ratio_scale := v |>)
| conf_temperature_anneal_scale s v :
    configured p r s -> configured p r (s <| temperature_anneal_scale := v |>)
| conf_cost_parameter_scale_ratio s v :
    configured p r s -> configured p r (s <| cost_parameter_scale_ratio := v |>)
| conf_acc_gen_reanneal_ratio s v :
    configured p r s -> configured p r (s <| acc_gen_reanneal_ratio := v |>)
| conf_delta_param s v : configured p r s -> configured p r (s <| delta_param := v |>)
| conf_objective_repeat_precision s v :
    configured p r s -> configured p r (s <| objective_repeat_precision := v |>)
| conf_f_x_best_repeat_max s v :
    configured p r s -> configured p r (s <| f_x_best_repeat_max := v |>)
| conf_enable_reanneal s v : configured p r s -> configured p r (s <| enable_reanneal := v |>)
| conf_reanneal_after_steps s v :
    configured p r s -> configured p r (s <| reanneal_after_steps := v |>)
| conf_exit_at_T_f s v : configured p r s -> configured p r (s <| exit_at_T_f := v |>).

(** The states of a run: [init] of a configured object, the client's
    writes of objective values, and calls of [step] (those that throw
    included, with whatever entropy and however long [generate_next]
    loops). *)
Inductive reachable : t T -> Prop :=
| reach_init p r s : configured p r s -> reachable (init s)
| reach_f_x_cand s v : reachable s -> reachable (s <| f_x_cand := v |>)
| reach_f_x_plusdelta s v : reachable s -> reachable (s <| f_x_plusdelta := v |>)
| reach_step s ent fuel s' :
    reachable s -> step ent fuel s = Returned s' -> reachable s'
| reach_throw s ent fuel what s' :
    reachable s -> step ent fuel s = Threw what s' -> reachable s'.

(** One move of a run: a write of the client, a call of [step], or one of
    the methods [step] is made of. *)
Inductive transition : t T -> t T -> Prop :=
| tr_f_x_cand s v : transition s (s <| f_x_cand := v |>)
| tr_f_x_plusdelta s v : transition s (s <| f_x_plusdelta := v |>)
| tr_step s ent fuel s' : step ent fuel s = Returned s' -> transition s s'
| tr_step_threw s ent fuel what s' : step ent fuel s = Threw what s' -> transition s s'
| tr_stop_check s : transition s (snd (stop_check s))
| tr_complete_reanneal s s' : complete_reanneal s = Returned s' -> transition s s'
| tr_complete_reanneal_threw s what s' :
    complete_reanneal s = Threw what s' -> transition s s'
| tr_cooling_schedule s : transition s (cooling_schedule s)
| tr_acceptance_check s ent : transition s (acceptance_check ent s)
| tr_generate_next s ent fuel s' : generate_next ent fuel s = Some s' -> transition s s'
| tr_reanneal_test s : transition s (snd (reanneal_test s)).

(** [later s s']: [s'] comes after [s], any number of moves on. *)
Inductive later : t T -> t T -> Prop :=
| later_now s : later s s
| later_on s s' s'' : later s s' -> transition s' s'' -> later s s''.

(** The facts about the order of [T] that the statement on [f_x_best]
    rests on.  They hold for IEEE arithmetic ([Double] proves them for
    binary64): [<] is transitive, and a difference [a - b] that stays
    negative after a non-negative [p] is added (positive after it is
    subtracted) comes from [a < b] ([a > b]). *)
Record OrderLaws : Prop := {
  ltb_trans : forall a b c : T,
      (a <? b) = true -> (b <? c) = true -> (a <? c) = true;
  below : forall a b p : T,
      (zero <=? p) = true -> (a - b + p <? zero) = true -> (a <? b) = true;
  above : forall a b p : T,
      (zero <=? p) = true -> (a - b - p >? zero) = true -> (a >? b) = true
}.


(** *** Vocabulary of the properties *)

(** [new] is no worse than [old]: equal, or lower (downhill) or higher
    (uphill). *)
Definition not_worse (dh : bool) (old new : T) : Prop :=
  new = old \/ (if dh then new <? old else old <? new) = true.

(** The moves that leave [f_x_best] and the two parameters it is judged by
    alone. *)
Definition keeps_best (s s' : t T) : Prop :=
  downhill s' = downhill s /\
  objective_repeat_precision s' = objective_repeat_precision s /\
  f_x_best s' = f_x_best s.

Definition no_regress (s s' : t T) : Prop :=
  downhill s' = downhill s /\
  objective_repeat_precision s' = objective_repeat_precision s /\
  not_worse (downhill s) (f_x_best s) (f_x_best s').

(** The vectors of the cooling schedule have the same entry in every
    dimension: [T_0] is all ones, and [c] and [T_k] are constant vectors. *)
Definition schedule_is_uniform (s : t T) : Prop :=
  T_0 s = repeat one (D s) /\
  (exists cv : T, c s = repeat cv (D s)) /\
  (exists tv : T, T_k s = repeat tv (D s)).

(** The moves that leave the schedule alone. *)
Definition keeps_constants (s s' : t T) : Prop :=
  D s' = D s /\ T_0 s' = T_0 s /\ c s' = c s.
Definition keeps_schedule (s s' : t T) : Prop :=
  keeps_constants s s' /\ T_k s' = T_k s.

(** The moves that leave the best objective and its repeat count alone. *)
Definition keeps_tally (s s' : t T) : Prop :=
  num_accepted s' = num_accepted s /\
  f_x_best_repeats s' = f_x_best_repeats s /\
  f_x_best s' = f_x_best s /\
  downhill s' = downhill s /\
  objective_repeat_precision s' = objective_repeat_precision s /\
  f_x_best_repeat_max s' = f_x_best_repeat_max s /\
  k_r s' = k_r s.


(** From [s] to [s'] no candidate has been accepted yet: if the accepted
    history of [s'] is empty, so is that of [s], and the best objective and
    the two parameters it is judged by are those of [s]. *)
Definition none_accepted (s s' : t T) : Prop :=
  param_hist_accepted s' = [] -> param_hist_accepted s = [] /\ keeps_best s s'.

End Methods.

Arguments Entropy : clear implicits.
Arguments result : clear implicits.
Arguments OrderLaws T {_}.

(** *** Vocabulary of the further properties *)

Section MoreVocabulary.
Context {T : Type} `{Scalar T}.
Local Open Scope scalar_scope.
Import vVector.

(** The moves that leave the protocol members alone: the count of calls of
    [step], the switch for reannealing and the reason for the exit. *)
Definition keeps_protocol (s s' : t T) : Prop :=
  steps s' = steps s /\
  enable_reanneal s' = enable_reanneal s /\
  reason_for_exit s' = reason_for_exit s.

(** The point that pass [i] (from 0) of the loop of [generate_next] draws,
    when the loop is entered in [s]. *)
Definition nth_draw (ent : Entropy T) (s : t T) (i : nat) : list T :=
  draw_next ent (s <| randomized := (randomized s + i)%nat |>).

(** The three points the object keeps are within the bounds. *)
Definition in_bounds (s : t T) : Prop :=
  within_bounds s (x s) = true /\
  within_bounds s (x_cand s) = true /\
  within_bounds s (x_best s) = true.

(** The moves that leave the bounds alone, and take each of the points they
    keep from the points that were there. *)
Definition moves_points (s s' : t T) : Prop :=
  range_min s' = range_min s /\ range_max s' = range_max s /\
  (x s' = x s \/ x s' = x_cand s \/ x s' = x_best s) /\
  x_cand s' = x_cand s /\
  (x_best s' = x_best s \/ x_best s' = x_cand s).

(** The vectors of the object have [D] elements. *)
Definition dimensioned (s : t T) : Prop :=
  length (x s) = D s /\ length (x_cand s) = D s /\ length (x_best s) = D s /\
  length (range_min s) = D s /\ length (range_max s) = D s /\
  length (T_0 s) = D s /\ length (T_k s) = D s /\ length (c s) = D s /\
  length (c_cost s) = D s /\ length (T_cost_0 s) = D s /\ length (T_cost s) = D s.

(** ... and so has the probe point, when the client is asked for its
    objective. *)
Definition well_dimensioned (s : t T) : Prop :=
  dimensioned s /\ (state s = NeedToComputeSet -> length (x_plusdelta s) = D s).

(** The histories and the counters tell the same story: one entry and one
    number drawn from [rng_u] for every acceptance check, one candidate
    generated after each, the counters modulo 2^32. *)
Definition tallies_agree (s : t T) : Prop :=
  length (f_param_hist_accepted s) = length (param_hist_accepted s) /\
  length (f_param_hist_rejected s) = length (param_hist_rejected s) /\
  rng_u s = (length (param_hist_accepted s) + length (param_hist_rejected s))%nat /\
  num_accepted s = (Z.of_nat (length (param_hist_accepted s)) mod uint_max)%Z /\
  ((num_improved s + num_worse s) mod uint_max = Z.of_nat (rng_u s) mod uint_max)%Z /\
  num_generated s = (Z.of_nat (rng_u s) mod uint_max)%Z.

(** No element of [v] is below [eps]. *)
Definition floored (v : list T) : Prop := Forall (fun t => (t <? epsilon) = false) v.

(** The vectors of the acceptance temperature have the same entry in every
    dimension. *)
Definition cost_schedule_is_uniform (s : t T) : Prop :=
  (exists cv : T, c_cost s = repeat cv (D s)) /\
  (exists tv : T, T_cost_0 s = repeat tv (D s)) /\
  (exists tv : T, T_cost s = repeat tv (D s)).
End MoreVocabulary.

End Anneal.

(** ** morph::AdaptiveAnneal<T>: the acceptance function *)

Module AdaptiveAnneal.
Section Methods.
Context {T : Type} `{Scalar T}.
Local Open Scope scalar_scope.
Import vVector.

(** The members [acceptance_check] reads or writes. *)
Record t : Type := mk {
  downhill : bool;
  x_cand : list T;
  f_x_cand : T;
  x : list T;
  f_x : T;
  x_best : list T;
  f_x_best : T;
  f_x_best_repeats : Z;
  num_improved : Z;
  num_worse : Z;
  num_worse_accepted : Z;
  num_accepted : Z;
  param_hist : list (list T);
  f_param_hist : list T;
  temp_cost : list T;
  rng_u : nat
}.

(** [std::exp(-(f_x_cand - f_x)/(epsilon + temp_cost.mean()))], as it is:
    no [std::min]. *)
Definition acceptance_probability (s : t) : T :=
  exp (- (f_x_cand s - f_x s) / (epsilon + mean (temp_cost s))).

(** The acceptance function; it returns [accepted].  [u] is the number
    [rng_u.get()] returns. *)
Definition acceptance_check (u : T) (s : t) : bool * t :=
  let better :=
    (downhill s && (f_x_cand s <? f_x s)) || (negb (downhill s) && (f_x_cand s >? f_x s)) in
  let p := acceptance_probability s in
  let accepted := p >? u in
  let improved := if better then uincr (num_improved s) else num_improved s in
  let worse := if better then num_worse s else uincr (num_worse s) in
  let worse_accepted :=
    if negb better && accepted then uincr (num_worse_accepted s) else num_worse_accepted s in
  if accepted then
    let repeated := f_x_cand s =? f_x_best s in
    let repeats := ((f_x_best_repeats s + (if repeated then 1 else 0)) mod uint_max)%Z in
    let is_best := f_x_cand s <? f_x_best s in
    (true,
     {| downhill := downhill s;
        x_cand := x_cand s;
        f_x_cand := f_x_cand s;
        x := x_cand s;
        f_x := f_x_cand s;
        x_best := if is_best then x_cand s else x_best s;
        f_x_best := if is_best then f_x_cand s else f_x_best s;
        f_x_best_repeats := if is_best then 0%Z else repeats;
        num_improved := improved;
        num_worse := worse;
        num_worse_accepted := worse_accepted;
        num_accepted := uincr (num_accepted s);
        param_hist := param_hist s ++ [x_cand s];
        f_param_hist := f_param_hist s ++ [f_x_cand s];
        temp_cost := temp_cost s;
        rng_u := S (rng_u s) |})
  else
    (false,
     {| downhill := downhill s;
        x_cand := x_cand s;
        f_x_cand := f_x_cand s;
        x := x s;
        f_x := f_x s;
        x_best := x_best s;
        f_x_best := f_x_best s;
        f_x_best_repeats := f_x_best_repeats s;
        num_improved := improved;
        num_worse := worse;
        num_worse_accepted := worse_accepted;
        num_accepted := num_accepted s;
        param_hist := param_hist s;
        f_param_hist := f_param_hist s;
        temp_cost := temp_cost s;
        rng_u := S (rng_u s) |}).
End Methods.

Arguments t : clear implicits.

End AdaptiveAnneal.

(** ** morph::AdaptiveAnneal<T>, the whole class *)

(** [AdaptiveAnneal.t] has the members [acceptance_check] needs; here are
    all the data members of the class and its other methods, with
    [AdaptiveAnneal.acceptance_check] for the acceptance check. *)
Module Adaptive.

Section State.
Context {T : Type}.

(** The data members of the class, in the order of the header ([debug],
    which only switches text output on, is left out).  [rng_u] and
    [randomized] stand for the random generators, as in [Anneal.t]. *)
Record t : Type := mk {
  downhill : bool;   (* descend to the minimum (true) or ascend to the maximum *)
  temperature_ratio_scale : T;
  temperature_anneal_scale : T;
  cost_parameter_scale_ratio : T;
  acc_gen_reanneal_ratio : T;   (* if accepted_vs_generated is less than this, reanneal *)
  partials_samples : Z;   (* number of samples used to estimate the partials *)
  f_x_best_repeat_max : Z;
  reanneal_after_steps : Z;
  x_cand : list T;   (* candidate parameter values *)
  f_x_cand : T;   (* objective of the candidate (written by the client) *)
  x : list T;   (* the currently accepted parameters *)
  f_x : T;
  x_best : list T;   (* the best parameters so far *)
  f_x_best : T;
  f_x_best_repeats : Z;
  x_set : list (list T);   (* the parameter sets of a reanneal *)
  f_x_set : list T;   (* their objectives (written by the client) *)
  num_improved : Z;
  num_worse : Z;
  num_worse_accepted : Z;
  num_accepted : Z;
  steps : Z;
  param_hist : list (list T);
  f_param_hist : list T;
  state : Anneal.Anneal_State;
  D : nat;   (* number of dimensions *)
  k : Z;   (* the step count of the temperature schedule *)
  k_r : Z;   (* steps since the last reanneal *)
  k_f : Z;
  temp : list T;   (* the temperatures *)
  temp_0 : list T;
  temp_f : list T;
  m : list T;
  n : list T;
  c : list T;
  c_cost : list T;
  temp_cost_0 : list T;
  temp_cost : list T;   (* the acceptance temperature *)
  range_min : list T;
  range_max : list T;
  rdelta : list T;
  rmeans : list T;
  s : list T;   (* reannealing sensitivities *)
  s_max : list T;
  partials : list T;
  rng_u : nat;   (* numbers drawn so far from the member generator rng_u *)
  randomized : nat   (* calls made so far to vVector::randomize *)
}.

(** Field update, as for [Anneal.t]. *)
Definition eta (o : t) : t :=
  mk
    (o.(downhill)) (o.(temperature_ratio_scale)) (o.(temperature_anneal_scale))
    (o.(cost_parameter_scale_ratio)) (o.(acc_gen_reanneal_ratio))
    (o.(partials_samples)) (o.(f_x_best_repeat_max)) (o.(reanneal_after_steps))
    (o.(x_cand)) (o.(f_x_cand)) (o.(x)) (o.(f_x)) (o.(x_best)) (o.(f_x_best))
    (o.(f_x_best_repeats)) (o.(x_set)) (o.(f_x_set)) (o.(num_improved))
    (o.(num_worse)) (o.(num_worse_accepted)) (o.(num_accepted)) (o.(steps))
    (o.(param_hist)) (o.(f_param_hist)) (o.(state)) (o.(D)) (o.(k)) (o.(k_r))
    (o.(k_f)) (o.(temp)) (o.(temp_0)) (o.(temp_f)) (o.(m)) (o.(n)) (o.(c))
    (o.(c_cost)) (o.(temp_cost_0)) (o.(temp_cost)) (o.(range_min)) (o.(range_max))
    (o.(rdelta)) (o.(rmeans)) (o.(s)) (o.(s_max)) (o.(partials)) (o.(rng_u))
    (o.(randomized)).

Class Setter {A : Type} (proj : t -> A) : Type := set : A -> t -> t.

Ltac setter proj :=
  let v := fresh "v" in
  let o := fresh "o" in
  intros v o;
  let e := eval cbv beta delta [eta] in (eta o) in
  lazymatch e with
  | context C [proj o] => let r := context C [v] in exact r
  end.

#[global] Instance set_downhill : Setter downhill.
Proof. setter downhill. Defined.
#[global] Instance set_temperature_ratio_scale : Setter temperature_ratio_scale.
Proof. setter temperature_ratio_scale. Defined.
#[global] Instance set_temperature_anneal_scale : Setter temperature_anneal_scale.
Proof. setter temperature_anneal_scale. Defined.
#[global] Instance set_cost_parameter_scale_ratio : Setter cost_parameter_scale_ratio.
Proof. setter cost_parameter_scale_ratio. Defined.
#[global] Instance set_acc_gen_reanneal_ratio : Setter acc_gen_reanneal_ratio.
Proof. setter acc_gen_reanneal_ratio. Defined.
#[global] Instance set_partials_samples : Setter partials_samples.
Proof. setter partials_samples. Defined.
#[global] Instance set_f_x_best_repeat_max : Setter f_x_best_repeat_max.
Proof. setter f_x_best_repeat_max. Defined.
#[global] Instance set_reanneal_after_steps : Setter reanneal_after_steps.
Proof. setter reanneal_after_steps. Defined.
#[global] Instance set_x_cand : Setter x_cand.
Proof. setter x_cand. Defined.
#[global] Instance set_f_x_cand : Setter f_x_cand.
Proof. setter f_x_cand. Defined.
#[global] Instance set_x : Setter x.
Proof. setter x. Defined.
#[global] Instance set_f_x : Setter f_x.
Proof. setter f_x. Defined.
#[global] Instance set_x_best : Setter x_best.
Proof. setter x_best. Defined.
#[global] Instance set_f_x_best : Setter f_x_best.
Proof. setter f_x_best. Defined.
#[global] Instance set_f_x_best_repeats : Setter f_x_best_repeats.
Proof. setter f_x_best_repeats. Defined.
#[global] Instance set_x_set : Setter x_set.
Proof. setter x_set. Defined.
#[global] Instance set_f_x_set : Setter f_x_set.
Proof. setter f_x_set. Defined.
#[global] Instance set_num_improved : Setter num_improved.
Proof. setter num_improved. Defined.
#[global] Instance set_num_worse : Setter num_worse.
Proof. setter num_worse. Defined.
#[global] Instance set_num_worse_accepted : Setter num_worse_accepted.
Proof. setter num_worse_accepted. Defined.
#[global] Instance set_num_accepted : Setter num_accepted.
Proof. setter num_accepted. Defined.
#[global] Instance set_steps : Setter steps.
Proof. setter steps. Defined.
#[global] Instance set_param_hist : Setter param_hist.
Proof. setter param_hist. Defined.
#[global] Instance set_f_param_hist : Setter f_param_hist.
Proof. setter f_param_hist. Defined.
#[global] Instance set_state : Setter state.
Proof. setter state. Defined.
#[global] Instance set_D : Setter D.
Proof. setter D. Defined.
#[global] Instance set_k : Setter k.
Proof. setter k. Defined.
#[global] Instance set_k_r : Setter k_r.
Proof. setter k_r. Defined.
#[global] Instance set_k_f : Setter k_f.
Proof. setter k_f. Defined.
#[global] Instance set_temp : Setter temp.
Proof. setter temp. Defined.
#[global] Instance set_temp_0 : Setter temp_0.
Proof. setter temp_0. Defined.
#[global] Instance set_temp_f : Setter temp_f.
Proof. setter temp_f. Defined.
#[global] Instance set_m : Setter m.
Proof. setter m. Defined.
#[global] Instance set_n : Setter n.
Proof. setter n. Defined.
#[global] Instance set_c : Setter c.
Proof. setter c. Defined.
#[global] Instance set_c_cost : Setter c_cost.
Proof. setter c_cost. Defined.
#[global] Instance set_temp_cost_0 : Setter temp_cost_0.
Proof. setter temp_cost_0. Defined.
#[global] Instance set_temp_cost : Setter temp_cost.
Proof. setter temp_cost. Defined.
#[global] Instance set_range_min : Setter range_min.
Proof. setter range_min. Defined.
#[global] Instance set_range_max : Setter range_max.
Proof. setter range_max. Defined.
#[global] Instance set_rdelta : Setter rdelta.
Proof. setter rdelta. Defined.
#[global] Instance set_rmeans : Setter rmeans.
Proof. setter rmeans. Defined.
#[global] Instance set_s : Setter s.
Proof. setter s. Defined.
#[global] Instance set_s_max : Setter s_max.
Proof. setter s_max. Defined.
#[global] Instance set_partials : Setter partials.
Proof. setter partials. Defined.
#[global] Instance set_rng_u : Setter rng_u.
Proof. setter rng_u. Defined.
#[global] Instance set_randomized : Setter randomized.
Proof. setter randomized. Defined.
End State.

Arguments t : clear implicits.
Arguments set {T A} proj {Setter} _ _.
Declare Scope adaptive_scope.
Delimit Scope adaptive_scope with adaptive.
#[warnings="-postfix-notation-not-level-1"]
Notation "o <| f := v |>" := (set f v o)
  (at level 12, left associativity, f at level 0) : adaptive_scope.

Section Methods.
Context {T : Type} `{Scalar T}.
Local Open Scope scalar_scope.
Local Open Scope adaptive_scope.
Import vVector.

(** What a call of a method does: it returns, it throws
    [std::runtime_error], or (the loop of [generate_parameter]) it is still
    running when the fuel is used up. *)
Inductive result : Type :=
| Returned (o : t T)
| Threw (what : string) (o : t T)
| Looping.

(** General constructor for n dimensions with initial params, with the
    default member initialisers.  The ranges past [D] are dropped, as in
    [Anneal.construct]. *)
Definition construct (initial_params : list T) (param_ranges : list (T * T)) : t T :=
  let D_ := length initial_params in
  let range_min_ := resize D_ zero (map fst param_ranges) in
  let range_max_ := resize D_ zero (map snd param_ranges) in
  {| downhill := true;
     temperature_ratio_scale := one / of_uint 100000;
     temperature_anneal_scale := of_uint 100;
     cost_parameter_scale_ratio := one;
     acc_gen_reanneal_ratio := of_uint 7 / of_uint 10;
     partials_samples := 2;
     f_x_best_repeat_max := 10;
     reanneal_after_steps := 100;
     x_cand := initial_params;
     f_x_cand := zero;
     x := initial_params;
     f_x := zero;
     x_best := initial_params;
     f_x_best := zero;
     f_x_best_repeats := 0;
     x_set := [];
     f_x_set := [];
     num_improved := 0;
     num_worse := 0;
     num_worse_accepted := 0;
     num_accepted := 0;
     steps := 0;
     param_hist := [];
     f_param_hist := [];
     state := Anneal.NeedToInit;
     D := D_;
     k := 1;
     k_r := 0;
     k_f := 1;
     temp := [];
     temp_0 := [];
     temp_f := [];
     m := [];
     n := [];
     c := [];
     c_cost := [];
     temp_cost_0 := [];
     temp_cost := [];
     range_min := range_min_;
     range_max := range_max_;
     rdelta := vsub range_max_ range_min_;
     rmeans := vdiv_s (vadd range_max_ range_min_) two;
     s := [];
     s_max := [];
     partials := [];
     rng_u := 0%nat;
     randomized := 0%nat |}.

(** After constructing, then setting parameters, the user must call init. *)
Definition init (o : t T) : t T :=
  let o := o <| f_x_best := if downhill o then max_value else lowest |> in
  let o := o <| f_x := f_x_best o |> in
  let o := o <| f_x_cand := f_x_best o |> in
  let o := o <| x := resize (D o) zero (x o) |> in
  let o := o <| x_cand := resize (D o) zero (x_cand o) |> in
  let o := o <| x_best := resize (D o) zero (x_best o) |> in
  let o := o <| temp_0 := resize (D o) one (temp_0 o) |> in
  let o := o <| temp := resize (D o) one (temp o) |> in
  let o := o <| s := resize (D o) one (s o) |> in
  let o := o <| s_max := resize (D o) one (s_max o) |> in
  let o := o <| partials := resize (D o) one (partials o) |> in
  let o := o <| m := resize (D o) zero (m o) |> in
  let o := o <| m := set_from (m o) (- log (temperature_ratio_scale o)) |> in
  let o := o <| n := resize (D o) zero (n o) |> in
  let o := o <| n := set_from (n o) (log (temperature_anneal_scale o)) |> in
  let o := o <| temp_f := vmul (temp_0 o) (vexp (vopp (m o))) |> in
  let o := o <| k_f := to_uint (exp (mean (n o))) |> in
  let o := o <| c := resize (D o) one (c o) |> in
  let o := o <| c := vmul (m o) (vexp (vdiv_s (vopp (n o)) (of_uint (Z.of_nat (D o))))) |> in
  let o := o <| c_cost := vmul_s (c o) (cost_parameter_scale_ratio o) |> in
  let o := o <| temp_cost_0 := c_cost o |> in
  let o := o <| temp_cost := c_cost o |> in
  o <| state := Anneal.NeedToCompute |>.

(** One pass of the [while (!generated)] loop of [generate_parameter]: the
    point it draws from [x_start], and whether it is within the bounds. *)
Definition draw_parameter (ent : Anneal.Entropy T) (o : t T) (x_start : list T) : list T :=
  let u := map (Anneal.randomize ent (randomized o)) (seq 0 (D o)) in
  let u2 := vabs (vsub_s (vmul_s u two) one) in
  let sigu := vsignum (vsub_s u half) in
  let y := vmul (vmul sigu (temp o))
                (vsub_s (vpow (vadd_s (sdiv_v one (temp o)) one) u2) one) in
  vadd x_start y.

Definition within_bounds (o : t T) (p : list T) : bool :=
  vle p (range_max o) && vge p (range_min o).

(** Generate a parameter set starting from x_start.  The method is [const];
    what it leaves behind is the use it made of the random generator. *)
Fixpoint generate_parameter (ent : Anneal.Entropy T) (fuel : nat) (o : t T)
    (x_start : list T) : option (list T * t T) :=
  match fuel with
  | O => None
  | S fuel' =>
      let p := draw_parameter ent o x_start in
      let o := o <| randomized := S (randomized o) |> in
      if within_bounds o p then Some (p, o)
      else generate_parameter ent fuel' o x_start
  end.

(** A function to generate a new set of parameters. *)
Definition generate_next (ent : Anneal.Entropy T) (fuel : nat) (o : t T) : option (t T) :=
  match generate_parameter ent fuel o (x o) with
  | Some (p, o) => Some (o <| x_cand := p |>)
  | None => None
  end.

(** The cooling schedule function. *)
Definition cooling_schedule (o : t T) : t T :=
  let o := o <| temp :=
             vmul (temp_0 o)
                  (vexp (vmul_s (vopp (c o))
                                (pow (of_uint (k o)) (one / of_uint (Z.of_nat (D o)))))) |> in
  o <| temp_cost :=
    vmul (temp_cost_0 o)
         (vexp (vmul_s (vopp (c_cost o))
                       (pow (of_uint (num_accepted o)) (one / of_uint (Z.of_nat (D o)))))) |>.

(** The members [acceptance_check] works on, and its results written
    back. *)
Definition members (o : t T) : AdaptiveAnneal.t T :=
  {| AdaptiveAnneal.downhill := downhill o;
     AdaptiveAnneal.x_cand := x_cand o;
     AdaptiveAnneal.f_x_cand := f_x_cand o;
     AdaptiveAnneal.x := x o;
     AdaptiveAnneal.f_x := f_x o;
     AdaptiveAnneal.x_best := x_best o;
     AdaptiveAnneal.f_x_best := f_x_best o;
     AdaptiveAnneal.f_x_best_repeats := f_x_best_repeats o;
     AdaptiveAnneal.num_improved := num_improved o;
     AdaptiveAnneal.num_worse := num_worse o;
     AdaptiveAnneal.num_worse_accepted := num_worse_accepted o;
     AdaptiveAnneal.num_accepted := num_accepted o;
     AdaptiveAnneal.param_hist := param_hist o;
     AdaptiveAnneal.f_param_hist := f_param_hist o;
     AdaptiveAnneal.temp_cost := temp_cost o;
     AdaptiveAnneal.rng_u := rng_u o |}.

Definition put (a : AdaptiveAnneal.t T) (o : t T) : t T :=
  o <| x := AdaptiveAnneal.x a |>
    <| f_x := AdaptiveAnneal.f_x a |>
    <| x_best := AdaptiveAnneal.x_best a |>
    <| f_x_best := AdaptiveAnneal.f_x_best a |>
    <| f_x_best_repeats := AdaptiveAnneal.f_x_best_repeats a |>
    <| num_improved := AdaptiveAnneal.num_improved a |>
    <| num_worse := AdaptiveAnneal.num_worse a |>
    <| num_worse_accepted := AdaptiveAnneal.num_worse_accepted a |>
    <| num_accepted := AdaptiveAnneal.num_accepted a |>
    <| param_hist := AdaptiveAnneal.param_hist a |>
    <| f_param_hist := AdaptiveAnneal.f_param_hist a |>
    <| rng_u := AdaptiveAnneal.rng_u a |>.

(** The acceptance function; it returns [accepted], and draws the next
    number of [rng_u]. *)
Definition acceptance_check (ent : Anneal.Entropy T) (o : t T) : bool * t T :=
  let '(accepted, a) :=
    AdaptiveAnneal.acceptance_check (Anneal.rng_u_get ent (rng_u o)) (members o) in
  (accepted, put a o).

(** Compute number accepted vs. number generated based on currently stored
    stats. *)
Definition accepted_vs_generated (o : t T) : T :=
  of_uint (num_accepted o) / of_uint ((num_improved o + num_worse o) mod uint_max).

(** [x_set.resize (n)]: keeps the first [n] parameter sets and pads with
    empty ones; [x_set[ps] = p] for [ps] below the size. *)
Definition resize_sets (len : nat) (a : list (list T)) : list (list T) :=
  firstn len a ++ repeat [] (len - length a).
Definition assign (ps : nat) (p : list T) (a : list (list T)) : list (list T) :=
  firstn ps a ++ p :: skipn (S ps) a.

(** The loop of [reanneal_test] from [ps] on, [todo] passes of it. *)
Fixpoint sample_sets (ent : Anneal.Entropy T) (fuel todo ps : nat) (o : t T) : option (t T) :=
  match todo with
  | O => Some o
  | S todo' =>
      match generate_parameter ent fuel o (x o) with
      | None => None
      | Some (p, o) =>
          sample_sets ent fuel todo' (S ps) (o <| x_set := assign ps p (x_set o) |>)
      end
  end.

(** Test for a reannealing.  If reannealing is required, sample some
    parameters that will need to be computed by the client's objective
    function. *)
Definition reanneal_test (ent : Anneal.Entropy T) (fuel : nat) (o : t T)
    : option (bool * t T) :=
  if (k_r o <? reanneal_after_steps o)%Z
     && (accepted_vs_generated o >=? acc_gen_reanneal_ratio o)
  then Some (false, o)
  else
    let o := o <| x_set := resize_sets (Z.to_nat (partials_samples o)) (x_set o) |> in
    let o := o <| f_x_set := resize (Z.to_nat (partials_samples o)) zero (f_x_set o) |> in
    match sample_sets ent fuel (Z.to_nat (partials_samples o)) 0 o with
    | None => None
    | Some o => Some (true, o)
    end.

(** Reset the statistics on the number of objective functions accepted
    etc. *)
Definition reset_stats (o : t T) : t T :=
  o <| num_improved := 0%Z |> <| num_worse := 0%Z |> <| num_worse_accepted := 0%Z |>
    <| num_accepted := 0%Z |> <| k_r := 0%Z |>.

(** The average dL/dx over the samples, as [reanneal_complete] computes
    it.  ([f_x_set[i]] and [x_set[i]] past the end are undefined behaviour
    in C++ and read [zero] and an empty vector here.) *)
Definition partials_estimate (o : t T) : list T :=
  vdiv_s
    (fold_left
       (fun acc i =>
          vadd acc (sdiv_v (at_ (f_x_set o) i - f_x o) (vsub (nth i (x_set o) []) (x o))))
       (seq 0 (Z.to_nat (partials_samples o)))
       (map (fun _ => zero) (partials o)))
    (of_uint (partials_samples o)).

(** Complete the reannealing process.  Based on the objectives in f_x_set,
    compute partials and modify k and temp. *)
Definition reanneal_complete (o : t T) : result :=
  let o := o <| partials := partials_estimate o |> in
  if has_nan_or_inf (partials o) then Threw "NaN or inf in partials" o
  else if has_zero (partials o) then Returned (reset_stats o)
  else
    let o := o <| s := vmul (vopp (rdelta o)) (partials o) |> in
    let temp_re := vmul (temp o) (sdiv_v (vmax (s o)) (s o)) in
    let o :=
      if vgt_s temp_re zero then
        let k_re :=
          to_uint (mean (vpow_s (vdiv (vlog (vdiv (temp_0 o) temp_re)) (c o))
                                (of_uint (Z.of_nat (D o))))) in
        let o := o <| k := k_re |> in
        o <| temp := temp_re |>
      else o in
    Returned (reset_stats o).

(** The algorithm's stopping condition. *)
Definition stop_check (o : t T) : bool :=
  (f_x_best_repeats o >=? f_x_best_repeat_max o)%Z.

(** The part of [step] from the cooling schedule on. *)
Definition advance (ent : Anneal.Entropy T) (fuel : nat) (o : t T) : result :=
  let o := cooling_schedule o in
  let '(_, o) := acceptance_check ent o in
  match generate_next ent fuel o with
  | None => Looping
  | Some o =>
      let o := o <| k := uincr (k o) |> in
      let o := o <| k_r := uincr (k_r o) |> in
      match reanneal_test ent fuel o with
      | None => Looping
      | Some (again, o) =>
          Returned (o <| state := if again then Anneal.NeedToComputeSet
                                   else Anneal.NeedToCompute |>)
      end
  end.

(** Advance the simulated annealing algorithm by one step. *)
Definition step (ent : Anneal.Entropy T) (fuel : nat) (o : t T) : result :=
  let o := o <| steps := uincr (steps o) |> in
  let continued :=
    match state o with
    | Anneal.NeedToComputeSet =>
        match reanneal_complete o with
        | Returned o => Returned (o <| state := Anneal.NeedToStep |>)
        | r => r
        end
    | _ => Returned o
    end in
  match continued with
  | Returned o =>
      if stop_check o then Returned (o <| state := Anneal.ReadyToStop |>)
      else advance ent fuel o
  | r => r
  end.

End Methods.

Arguments result : clear implicits.

End Adaptive.

(** ** [T = double] *)

Module Double.
Local Open Scope float_scope.

(** [static_cast<double>(unsigned int)] is exact. *)
Definition of_uint (z : Z) : float := PrimFloat.of_uint63 (Uint63.of_Z z).

(** The integer a float stands for, rounded toward zero; [None] for NaN and
    the infinities. *)
Definition truncate (x : float) : option Z :=
  match Prim2SF x with
  | S754_zero _ => Some 0%Z
  | S754_finite sg mant e =>
      let a := Z.shiftl (Zpos mant) e in Some (if sg then (- a)%Z else a)
  | _ => None
  end.

(** [static_cast<unsigned int>(double)] truncates.  A value that does not fit
    is undefined behaviour in C++; it is reduced modulo 2^32 here, and NaN
    and the infinities give 0. *)
Definition to_uint (x : float) : Z :=
  match truncate x with
  | Some z => (z mod uint_max)%Z
  | None => 0%Z
  end.

(** The C library is not part of the repository.  To run the methods on
    concrete doubles, [exp], [log] and [pow] are computed here by series;
    they agree with the C library at the exact cases ([exp 0 = 1],
    [log 1 = 0], [pow x 0 = 1], [pow x 1 = x]) and to about twelve digits
    elsewhere: the last digits of a temperature differ, and a truncation
    such as [k_f = exp (log 100)] can come out one lower than with the C
    library.  The runs of the examples are computed with them; no theorem
    about [Anneal] depends on them: the theorems hold for every [Scalar],
    whatever its [exp], [log] and [pow], or (those on the first candidates,
    on doubles) rest on the IEEE arithmetic of [+], [-] and the comparisons
    only. *)
Fixpoint exp_series (terms : nat) (i x : float) : float :=
  match terms with
  | O => 1
  | S terms' => 1 + x / i * exp_series terms' (i + 1) x
  end.

Fixpoint square_times (j : nat) (y : float) : float :=
  match j with
  | O => y
  | S j' => square_times j' (y * y)
  end.

Definition exp (x : float) : float :=
  if PrimFloat.is_nan x then x
  else if 710 <? x then infinity
  else if x <? -746 then 0
  else square_times 10 (exp_series 20 1 (x / 1024)).

Fixpoint atanh_series (terms : nat) (i z2 : float) : float :=
  match terms with
  | O => 1 / i
  | S terms' => 1 / i + z2 * atanh_series terms' (i + 2) z2
  end.

Definition ln2 : float := 0x1.62e42fefa39efp-1.

Definition log (x : float) : float :=
  if PrimFloat.is_nan x then x
  else if x <? 0 then nan
  else if x =? 0 then neg_infinity
  else if x =? infinity then infinity
  else
    let '(mant, e) := Z.frexp x in
    let '(mant, e) := if mant <? 0x1.6a09e667f3bcdp-1 then (mant * 2, (e - 1)%Z) else (mant, e) in
    let z := (mant - 1) / (mant + 1) in
    let e_ := if (e <? 0)%Z then - of_uint (- e) else of_uint e in
    e_ * ln2 + 2 * z * atanh_series 20 1 (z * z).

Fixpoint pow_pos (x : float) (p : positive) : float :=
  match p with
  | xH => x
  | xO p' => let y := pow_pos x p' in y * y
  | xI p' => let y := pow_pos x p' in x * (y * y)
  end.

Definition pow (x y : float) : float :=
  if y =? 0 then 1
  else if x =? 1 then 1
  else if PrimFloat.is_nan x || PrimFloat.is_nan y then nan
  else
    match truncate y with
    | Some (Zpos p) => if of_uint (Zpos p) =? y then pow_pos x p else exp (y * log x)
    | Some (Zneg p) => if of_uint (Zpos p) =? - y then 1 / pow_pos x p else exp (y * log x)
    | _ => exp (y * log x)
    end.

#[global] Instance double : Scalar float := {
  of_uint := of_uint;
  to_uint := to_uint;
  add := PrimFloat.add;
  sub := PrimFloat.sub;
  mul := PrimFloat.mul;
  div := PrimFloat.div;
  opp := PrimFloat.opp;
  fabs := PrimFloat.abs;
  ltb := PrimFloat.ltb;
  leb := PrimFloat.leb;
  eqb := PrimFloat.eqb;
  isnan := PrimFloat.is_nan;
  isinf := PrimFloat.is_infinity;
  epsilon := 0x1p-52;
  max_value := 0x1.fffffffffffffp+1023;
  lowest := -0x1.fffffffffffffp+1023;
  exp := exp;
  log := log;
  pow := pow
}.

(** *** The order of binary64 numbers *)

Local Open Scope Z_scope.

(** A finite binary64 number [(s, m, e)] stands for [(-1)^s * m * 2^e] with
    [e >= emin = -1074]; so [m * 2^(e - emin)] is an integer, and the
    numbers that are not NaN are ordered as these integers are. *)
Definition emin64 : Z := -1074.
Definition magnitude (m : positive) (e : Z) : Z := Zpos m * 2 ^ (e - emin64).
Definition huge : Z := 2 ^ 2098.
Definition zval (x : spec_float) : Z :=
  match x with
  | S754_zero _ => 0
  | S754_nan => 0
  | S754_infinity s => cond_Zopp s huge
  | S754_finite s m e => cond_Zopp s (magnitude m e)
  end.

Definition sf_is_nan (x : spec_float) : bool :=
  match x with S754_nan => true | _ => false end.

(** Not negative, or NaN. *)
Definition nonneg (x : spec_float) : Prop :=
  match x with
  | S754_infinity s | S754_finite s _ _ => s = false
  | _ => True
  end.
Definition nonpos (x : spec_float) : Prop :=
  match x with
  | S754_infinity s | S754_finite s _ _ => s = true
  | _ => True
  end.

End Double.

(** ** Runs on doubles *)

(** The objects, objective functions and random numbers of the examples. *)
Module Scenario.
Import Anneal Double.
Local Open Scope float_scope.

Definition last_state (r : result float) (otherwise : t float) : t float :=
  match r with Returned s => s | _ => otherwise end.

(** Objective functions of one parameter. *)
Definition quadratic (p : list float) : float := let d := nth 0 p 0 - 3 in d * d.
Definition offset (p : list float) : float :=
  let d := nth 0 p 0 - 0x1.f42p+9 in d * d.
Definition climb (p : list float) : float := nth 0 p 0.
Definition seven (p : list float) : float := 7.

(** Random numbers: [steady] accepts at [p >= 0.5] and steps up and down in
    turn; [steady_for_a_while] hands out the same numbers for 12 draws of
    [rng_u] and 1200 vectors, and others from there on; [downward] steps
    down first; [greedy] accepts everything; [picky] accepts anything on the
    second draw and next to nothing otherwise. *)
Definition steady : Entropy float :=
  {| rng_u_get := fun _ => 0.5;
     randomize := fun j _ => if Nat.even j then 0.75 else 0.25 |}.
Definition downward : Entropy float :=
  {| rng_u_get := fun _ => 0.5;
     randomize := fun j _ => if Nat.even j then 0.25 else 0.75 |}.
Definition greedy : Entropy float :=
  {| rng_u_get := fun _ => 0; randomize := fun _ _ => 0.75 |}.
Definition picky : Entropy float :=
  {| rng_u_get := fun i => if Nat.eqb i 1 then 0 else 0x1.ffp-1;
     randomize := fun _ _ => 0.75 |}.

(** One parameter in [0, 10], starting at 5; a reanneal every 10 steps. *)
Definition start : t float :=
  init (construct [5] [(0, 10)] <| reanneal_after_steps := 10%Z |>).
(** ... after ten steps: a reanneal is asked for. *)
Definition probing : t float := last_state (run quadratic steady 100 10 start) start.

(** One parameter in [1000, 1001], starting at 1000.5. *)
Definition narrow : t float :=
  init (construct [0x1.f44p+9] [(1000, 1001)] <| reanneal_after_steps := 10%Z |>).

(** ... and the client finds the objective at [x_plusdelta] to be that at
    [x]. *)
Definition flat : t float := probing <| f_x_plusdelta := f_x probing |>.

(** A negative [objective_repeat_precision]. *)
Definition sloppy : t float :=
  init (construct [5] [(0, 10)] <| objective_repeat_precision := -1 |>).

(** [acc_gen_reanneal_ratio = 0.5]. *)
Definition eager : t float :=
  init (construct [5] [(0, 10)] <| acc_gen_reanneal_ratio := 0.5 |>).

(** [temperature_ratio_scale = 2^-1000]: [T_k] is down at [eps] after a few
    steps. *)
Definition cold : t float :=
  init (construct [5] [(0, 10)] <| temperature_ratio_scale := 0x1p-1000 |>).
Definition frozen : t float := last_state (run quadratic steady 100 6 cold) cold.

(** [f_x_best_repeat_max = 1], and an objective that is 7 everywhere: the
    states after the first and the second call of [step]. *)
Definition once : t float := construct [5] [(0, 10)] <| f_x_best_repeat_max := 1%Z |>.
Definition first_call : t float :=
  last_state (step steady 100 ((init once) <| f_x_cand := 7 |>)) (init once).
Definition second_call : t float :=
  last_state (step steady 100 (first_call <| f_x_cand := 7 |>)) first_call.

(** An [AdaptiveAnneal] with a candidate far worse than [x]. *)
Definition adaptive : AdaptiveAnneal.t float :=
  {| AdaptiveAnneal.downhill := true;
     AdaptiveAnneal.x_cand := [6];
     AdaptiveAnneal.f_x_cand := 1000;
     AdaptiveAnneal.x := [5];
     AdaptiveAnneal.f_x := 0;
     AdaptiveAnneal.x_best := [5];
     AdaptiveAnneal.f_x_best := 0;
     AdaptiveAnneal.f_x_best_repeats := 0%Z;
     AdaptiveAnneal.num_improved := 1%Z;
     AdaptiveAnneal.num_worse := 0%Z;
     AdaptiveAnneal.num_worse_accepted := 0%Z;
     AdaptiveAnneal.num_accepted := 1%Z;
     AdaptiveAnneal.param_hist := [[5]];
     AdaptiveAnneal.f_param_hist := [0];
     AdaptiveAnneal.temp_cost := [0.125];
     AdaptiveAnneal.rng_u := 1%nat |}.

(** An objective that is [max()] everywhere, and the object of [once] with
    a negative and with the largest [objective_repeat_precision]. *)
Definition topmost (p : list float) : float := max_value.
Definition once_negative : t float := once <| objective_repeat_precision := -1 |>.
Definition once_wide : t float := once <| objective_repeat_precision := max_value |>.

(** The object the constructor makes, with the objective of its initial
    point, and what the first call of [step] leaves. *)
Definition first_asked : t float := client quadratic (init (construct [5] [(0, 10)])).
Definition first_stepped : t float := last_state (step steady 100 first_asked) first_asked.

(** The object of [start] with the objective of its first candidate, as the
    client hands it to [step], and what that call leaves. *)
Definition asked : t float := client quadratic start.
Definition stepped : t float := last_state (step steady 100 asked) asked.

(** The object of [probing] with the objective of the probe point, what
    [complete_reanneal] makes of it, and what the call of [step] leaves. *)
Definition answered : t float := client quadratic probing.
Definition reannealed : t float :=
  last_state (complete_reanneal (answered <| steps := uincr (steps answered) |>)) answered.
Definition resumed : t float := last_state (step steady 100 answered) answered.

(** ... with NaN for the objective of the probe point. *)
Definition poisoned : t float := probing <| f_x_plusdelta := nan |>.

(** What the call of [step] on [frozen] leaves. *)
Definition halted : t float := last_state (step steady 100 frozen) frozen.

(** Random numbers whose first two draws step far up. *)
Definition overshoot : Entropy float :=
  {| rng_u_get := fun _ => 0.5;
     randomize := fun j _ => if Nat.ltb j 2 then 0x1.fp-1 else 0.75 |}.

(** What [generate_next] makes of [start]. *)
Definition proposed : t float :=
  match generate_next steady 100 start with Some s => s | None => start end.
End Scenario.

(** The objects of the examples for [AdaptiveAnneal]. *)
Module AdaptiveScenario.
Import Adaptive Double.
Local Open Scope float_scope.
Local Open Scope adaptive_scope.

Definition last_state (r : result float) (otherwise : t float) : t float :=
  match r with Returned o => o | _ => otherwise end.

(** One parameter in [0, 10], starting at 5, with the objective of the
    initial point, [(5 - 3)^2]. *)
Definition first : t float := (init (construct [5] [(0, 10)])) <| f_x_cand := 4 |>.
(** ... after a call of [step], with the objective of the candidate ... *)
Definition second : t float :=
  let o := last_state (step Scenario.steady 100 first) first in
  o <| f_x_cand := Scenario.quadratic (x_cand o) |>.
(** ... and after another: a reanneal is asked for. *)
Definition asking : t float := last_state (step Scenario.steady 100 second) second.
(** The objectives of the parameter sets, as the client computes them, and
    NaN in their place. *)
Definition answered : t float := asking <| f_x_set := map Scenario.quadratic (x_set asking) |>.
Definition poisoned : t float := asking <| f_x_set := [nan; nan] |>.

(** [f_x_best_repeat_max = 0]: the first call of [step] stops. *)
Definition done : t float :=
  last_state (step Scenario.steady 100
                   (init (construct [5] [(0, 10)] <| f_x_best_repeat_max := 0%Z |>)))
             first.
End AdaptiveScenario.

Import Anneal.
Unset Implicit Arguments.

(** * Properties *)

(** ** Running a method symbolically *)

(** The methods are sequences of [let]s over the object.  [exec_let] names
    the value of the outermost [let] (so that later statements share it) and
    splits on the condition of an [if] it meets; [exec_if] splits on the
    conditions that are left. *)
Ltac bool_value b :=
  let b' := eval cbv beta iota delta [negb andb orb] in b in
  lazymatch b' with
  | true => constr:(true)
  | false => constr:(false)
  end.

Ltac split_on b :=
  first [ let b' := bool_value b in change b with b'
        | let E := fresh "E" in destruct b eqn:E ].

Ltac exec_let :=
  lazymatch goal with
  | |- context C [let x := ?v in @?body x] =>
      let continue_with a :=
        (let b := eval cbv beta in (body a) in
         let g := context C [b] in change g) in
      lazymatch v with
      | true => continue_with v
      | false => continue_with v
      | if true then ?a else _ =>
          let g := context C [let x := a in body x] in change g
      | if false then _ else ?a =>
          let g := context C [let x := a in body x] in change g
      | if ?b then _ else _ => split_on b
      | _ =>
          lazymatch type of v with
          | bool => split_on v
          | _ => let y := fresh "s" in pose (y := v); continue_with y
          end
      end
  end.

Ltac exec_if :=
  lazymatch goal with
  | |- context [if ?b then _ else _] => split_on b; cbv iota
  end.

Ltac exec := repeat exec_let; repeat exec_if.

(** A field a method does not write keeps its value. *)

(** [on_result m]: state the goal as a property of the one object [m]. *)
Ltac on_result m h :=
  pattern m;
  lazymatch goal with
  | |- ?P ?x => let x' := eval cbv beta delta [h] in x in change (id P x')
  end.
Ltac off_result := unfold id; cbv beta.

(** Two verdicts on the same condition that disagree. *)
Ltac clash :=
  match goal with
  | E : _ && _ = _ |- _ => discriminate E
  | E1 : ?a = true, E2 : ?b = false |- _ =>
      exfalso; exact (diff_true_false (eq_trans (eq_sym E1) E2))
  end.

Section Frames.
Context {T : Type} `{Scalar T}.
Local Open Scope scalar_scope.
Import vVector.

(** What [generate_next] returns: the object with a point within the
    bounds in [x_cand] and the counters of generated points advanced. *)
Lemma generate_next_inv (ent : Entropy T) (fuel : nat) (s s' : t T) :
  generate_next ent fuel s = Some s' ->
  exists (j : nat) (x_new : list T),
    within_bounds s x_new = true /\
    s' = s <| randomized := j |>
           <| num_generated := uincr (num_generated s) |>
           <| num_generated_recently := uincr (num_generated_recently s) |>
           <| x_cand := x_new |>.
Proof.
  revert s; induction fuel as [|fuel IH]; intros s; simpl; [discriminate|].
  destruct (within_bounds _ _) eqn:B.
  - intros [= <-]. exists (S (randomized s)), (draw_next ent s). split; [exact B | reflexivity].
  - intros G. destruct (IH _ G) as (j & x_new & B' & ->).
    exists j, x_new. split; [exact B' | reflexivity].
Qed.


(** [acceptance_check] writes [f_x_best] only when the candidate passes the
    test [improves_on_best], and then with [f_x_cand]. *)
Lemma acceptance_check_on_best (u : T) (s : t T) :
  downhill (acceptance_check_on u s) = downhill s /\
  objective_repeat_precision (acceptance_check_on u s) = objective_repeat_precision s /\
  (f_x_best (acceptance_check_on u s) = f_x_best s \/
   improves_on_best s = true /\ f_x_best (acceptance_check_on u s) = f_x_cand s).
Proof.
  on_result (acceptance_check_on u s) (@acceptance_check_on).
  exec; off_result; (split; [reflexivity|split; [reflexivity|]]);
    first [left; reflexivity | right; split; [assumption|reflexivity]].
Qed.

Lemma stop_check_keeps_best (s : t T) : keeps_best s (snd (stop_check s)).
Proof.
  unfold stop_check. destruct (stop_condition s); repeat split.
Qed.

Lemma cooling_schedule_keeps_best (s : t T) : keeps_best s (cooling_schedule s).
Proof. repeat split. Qed.

Lemma generate_next_keeps_best (ent : Entropy T) (fuel : nat) (s s' : t T) :
  generate_next ent fuel s = Some s' -> keeps_best s s'.
Proof.
  intros G. destruct (generate_next_inv _ _ _ _ G) as (j & x_new & _ & ->). repeat split.
Qed.

Lemma reanneal_test_keeps_best (s : t T) : keeps_best s (snd (reanneal_test s)).
Proof.
  on_result (reanneal_test s) (@reanneal_test).
  exec; off_result; repeat split.
Qed.

Lemma complete_reanneal_keeps_best (s : t T) :
  match complete_reanneal s with
  | Returned s' | Threw _ s' => keeps_best s s'
  | Looping => True
  end.
Proof.
  on_result (complete_reanneal s) (@complete_reanneal).
  exec; off_result; repeat split.
Qed.

Lemma keeps_no_regress (s s' : t T) : keeps_best s s' -> no_regress s s'.
Proof. intros (Hd & Hp & Hb). repeat split; try assumption. left; assumption. Qed.

Lemma no_regress_refl (s : t T) : no_regress s s.
Proof. repeat split. left; reflexivity. Qed.

Lemma no_regress_trans (laws : OrderLaws T) (s1 s2 s3 : t T) :
  no_regress s1 s2 -> no_regress s2 s3 -> no_regress s1 s3.
Proof.
  intros (Hd & Hp & Hb) (Hd' & Hp' & Hb').
  split; [congruence|split; [congruence|]].
  rewrite Hd in Hb'. unfold not_worse in *.
  destruct Hb as [Hb|Hb], Hb' as [Hb'|Hb'].
  - left; congruence.
  - right. rewrite <- Hb. exact Hb'.
  - right. rewrite Hb'. exact Hb.
  - right. destruct (downhill s1); eapply (ltb_trans laws); eassumption.
Qed.

Lemma acceptance_check_no_regress (laws : OrderLaws T) (ent : Entropy T) (s : t T) :
  (zero <=? objective_repeat_precision s) = true ->
  no_regress s (acceptance_check ent s).
Proof.
  intros P. unfold acceptance_check.
  destruct (acceptance_check_on_best (rng_u_get ent (rng_u s)) s) as (Hd & Hp & Hb).
  split; [exact Hd|split; [exact Hp|]].
  destruct Hb as [Hb|[I Hb]]; [left; exact Hb|right].
  rewrite Hb. unfold improves_on_best, improves in I.
  destruct (downhill s); simpl in I.
  - rewrite orb_false_r in I. exact (below laws _ _ _ P I).
  - exact (above laws _ _ _ P I).
Qed.

Lemma advance_no_regress (laws : OrderLaws T) (ent : Entropy T) (fuel : nat) (s s' : t T) :
  (zero <=? objective_repeat_precision s) = true ->
  advance ent fuel s = Returned s' -> no_regress s s'.
Proof.
  intros P A. unfold advance in A.
  destruct (generate_next _ _ _) as [s3|] eqn:G; [|discriminate].
  assert (R2 : no_regress s (acceptance_check ent (cooling_schedule s))).
  { eapply (no_regress_trans laws).
    - apply keeps_no_regress, cooling_schedule_keeps_best.
    - apply (acceptance_check_no_regress laws). exact P. }
  assert (R3 : no_regress s s3).
  { eapply (no_regress_trans laws); [exact R2|].
    apply keeps_no_regress. exact (generate_next_keeps_best _ _ _ _ G). }
  eapply (no_regress_trans laws); [exact R3|]. apply keeps_no_regress.
  destruct (enable_reanneal _).
  - pose proof (reanneal_test_keeps_best (s3 <| k := uincr (k s3) |> <| k_r := uincr (k_r (s3 <| k := uincr (k s3) |>)) |>)) as K.
    destruct (reanneal_test _) as [again s5]. injection A as <-.
    destruct K as (Kd & Kp & Kb). repeat split; assumption.
  - injection A as <-. repeat split.
Qed.

Lemma advance_returns (ent : Entropy T) (fuel : nat) (s : t T) (what : string) (s' : t T) :
  advance ent fuel s <> Threw what s'.
Proof.
  unfold advance. destruct (generate_next _ _ _); [|discriminate].
  destruct (enable_reanneal _); [|discriminate].
  destruct (reanneal_test _). discriminate.
Qed.

(** [stop_check] does not look at [steps]; so [step] stops exactly when a
    stopping condition holds on entry. *)
Lemma step_stops (ent : Entropy T) (fuel : nat) (s : t T) (why : Anneal_StopCondition) :
  stop_condition s = Some why ->
  step ent fuel s =
  Returned (s <| steps := uincr (steps s) |> <| reason_for_exit := why |>
              <| state := ReadyToStop |>).
Proof.
  intros E. cbv beta delta [step stop_check]. cbv zeta.
  change (stop_condition (s <| steps := uincr (steps s) |>)) with (stop_condition s).
  rewrite E. reflexivity.
Qed.

Lemma step_goes_on (ent : Entropy T) (fuel : nat) (s : t T) :
  stop_condition s = None ->
  step ent fuel s =
  let s := s <| steps := uincr (steps s) |> in
  match state s with
  | NeedToComputeSet =>
      match complete_reanneal s with
      | Returned s => advance ent fuel (s <| state := NeedToStep |>)
      | r => r
      end
  | _ => advance ent fuel s
  end.
Proof.
  intros E. cbv beta delta [step stop_check]. cbv zeta.
  change (stop_condition (s <| steps := uincr (steps s) |>)) with (stop_condition s).
  rewrite E. reflexivity.
Qed.

Lemma advance_after (laws : OrderLaws T) (ent : Entropy T) (fuel : nat) (s0 s1 : t T) :
  (zero <=? objective_repeat_precision s0) = true ->
  no_regress s0 s1 ->
  match advance ent fuel s1 with
  | Returned s' | Threw _ s' => no_regress s0 s'
  | Looping => True
  end.
Proof.
  intros P R. destruct (advance ent fuel s1) as [s'|what s'|] eqn:A; [| |exact I].
  - eapply (no_regress_trans laws); [exact R|].
    apply (advance_no_regress laws ent fuel); [|exact A].
    destruct R as (_ & -> & _). exact P.
  - destruct (advance_returns _ _ _ _ _ A).
Qed.

Lemma step_no_regress (laws : OrderLaws T) (ent : Entropy T) (fuel : nat) (s : t T) :
  (zero <=? objective_repeat_precision s) = true ->
  match step ent fuel s with
  | Returned s' | Threw _ s' => no_regress s s'
  | Looping => True
  end.
Proof.
  intros P. destruct (stop_condition s) as [why|] eqn:E.
  - rewrite (step_stops ent fuel s _ E). apply keeps_no_regress. repeat split.
  - rewrite (step_goes_on ent fuel s E). cbv zeta.
    set (s1 := s <| steps := uincr (steps s) |>).
    assert (R1 : no_regress s s1) by (apply keeps_no_regress; repeat split).
    destruct (state s1); try exact (advance_after laws ent fuel _ _ P R1).
    pose proof (complete_reanneal_keeps_best s1) as K.
    destruct (complete_reanneal s1) as [s2|what s2|]; [| |exact I].
    + apply (advance_after laws ent fuel _ _ P).
      eapply (no_regress_trans laws); [exact R1|].
      apply keeps_no_regress. destruct K as (Kd & Kp & Kb). repeat split; assumption.
    + eapply (no_regress_trans laws); [exact R1|]. apply keeps_no_regress, K.
Qed.

Lemma transition_no_regress (laws : OrderLaws T) (s s' : t T) :
  (zero <=? objective_repeat_precision s) = true ->
  transition s s' -> no_regress s s'.
Proof.
  intros P Tr. destruct Tr as
    [s v|s v|s ent fuel s' St|s ent fuel what s' St|s|s s' Cr|s what s' Cr|s|s ent
    |s ent fuel s' G|s].
  - apply keeps_no_regress. repeat split.
  - apply keeps_no_regress. repeat split.
  - pose proof (step_no_regress laws ent fuel s P) as R. rewrite St in R. exact R.
  - pose proof (step_no_regress laws ent fuel s P) as R. rewrite St in R. exact R.
  - apply keeps_no_regress, stop_check_keeps_best.
  - pose proof (complete_reanneal_keeps_best s) as K. rewrite Cr in K.
    apply keeps_no_regress, K.
  - pose proof (complete_reanneal_keeps_best s) as K. rewrite Cr in K.
    apply keeps_no_regress, K.
  - apply keeps_no_regress, cooling_schedule_keeps_best.
  - apply (acceptance_check_no_regress laws). exact P.
  - apply keeps_no_regress. exact (generate_next_keeps_best _ _ _ _ G).
  - apply keeps_no_regress, reanneal_test_keeps_best.
Qed.

(** C3, as amended.  When [objective_repeat_precision] is not negative,
    [f_x_best] never regresses, whatever the moves of the run (the client's
    writes, [step], and each of [stop_check], [complete_reanneal],
    [cooling_schedule], [acceptance_check], [generate_next],
    [reanneal_test]): downhill, a later [f_x_best] is the earlier one or
    lower; uphill, the earlier one or higher. *)
Theorem f_x_best_never_regresses (laws : OrderLaws T) (s s' : t T) :
  (zero <=? objective_repeat_precision s) = true ->
  later s s' ->
  (downhill s = true ->
   f_x_best s' = f_x_best s \/ (f_x_best s' <? f_x_best s) = true) /\
  (downhill s = false ->
   f_x_best s' = f_x_best s \/ (f_x_best s' >? f_x_best s) = true).
Proof.
  intros P L.
  assert (R : no_regress s s').
  { induction L as [s|s s' s'' L IH Tr]; [apply no_regress_refl|].
    specialize (IH P). eapply (no_regress_trans laws); [exact IH|].
    apply (transition_no_regress laws); [|exact Tr].
    destruct IH as (_ & -> & _). exact P. }
  destruct R as (_ & _ & N). unfold not_worse in N.
  split; intros Dh; rewrite Dh in N; exact N.
Qed.

End Frames.

(** ** What the methods leave alone *)

(** [of_value m h]: prove a property of what the method [h] returns, [m],
    from the equation that defines it; [at_value] is for the end of the
    method. *)
Ltac of_value m h :=
  let v := fresh "v" in
  let Ev := fresh "Ev" in
  remember m as v eqn:Ev;
  revert Ev;
  cbv beta delta [h].
Ltac at_value := intros ->.

Section Members.
Context {T : Type} `{Scalar T}.
Local Open Scope scalar_scope.
Import vVector.

(** The members [acceptance_check] does not write. *)
Lemma acceptance_check_frame (ent : Entropy T) (s : t T) :
  let s' := acceptance_check ent s in
  (D s' = D s /\ range_min s' = range_min s /\ range_max s' = range_max s) /\
  (T_0 s' = T_0 s /\ T_k s' = T_k s /\ T_f s' = T_f s /\ c s' = c s) /\
  (c_cost s' = c_cost s /\ T_cost_0 s' = T_cost_0 s /\ T_cost s' = T_cost s) /\
  (k s' = k s /\ k_r s' = k_r s /\ k_f s' = k_f s /\ steps s' = steps s) /\
  (x_cand s' = x_cand s /\ f_x_cand s' = f_x_cand s) /\
  (x_plusdelta s' = x_plusdelta s /\ f_x_plusdelta s' = f_x_plusdelta s
   /\ tangents s' = tangents s /\ delta_param s' = delta_param s) /\
  (state s' = state s /\ reason_for_exit s' = reason_for_exit s) /\
  (num_generated s' = num_generated s /\ randomized s' = randomized s) /\
  (downhill s' = downhill s /\ enable_reanneal s' = enable_reanneal s
   /\ exit_at_T_f s' = exit_at_T_f s /\ f_x_best_repeat_max s' = f_x_best_repeat_max s
   /\ reanneal_after_steps s' = reanneal_after_steps s
   /\ acc_gen_reanneal_ratio s' = acc_gen_reanneal_ratio s
   /\ objective_repeat_precision s' = objective_repeat_precision s).
Proof.
  cbv zeta. unfold acceptance_check.
  of_value (acceptance_check_on (rng_u_get ent (rng_u s)) s) (@acceptance_check_on).
  exec; at_value; repeat split.
Qed.

(** [reanneal_test], in one piece: its verdict and the object it leaves. *)
Lemma reanneal_test_shape (s : t T) :
  reanneal_test s =
  if negb (k_r s <? min_steps_to_reanneal)%Z
     && negb ((k_r s <? reanneal_after_steps s)%Z
              && (accepted_vs_generated s >=? acc_gen_reanneal_ratio s))
  then
    (true,
     (if accepted_vs_generated s <? acc_gen_reanneal_ratio s
      then s <| num_accepted_recently := 0%Z |> <| num_generated_recently := 0%Z |>
      else s)
       <| x := x_best s |> <| f_x := f_x_best s |>
       <| x_plusdelta := generate_delta_parameter s (x_best s) |>)
  else (false, s).
Proof.
  cbv beta delta [reanneal_test]. cbv zeta.
  destruct (k_r s <? min_steps_to_reanneal)%Z; [reflexivity|].
  destruct ((k_r s <? reanneal_after_steps s)%Z
            && (accepted_vs_generated s >=? acc_gen_reanneal_ratio s)); [reflexivity|].
  cbv beta iota delta [negb andb].
  destruct (accepted_vs_generated s <? acc_gen_reanneal_ratio s); reflexivity.
Qed.

(** The members [reanneal_test] does not write. *)
Lemma reanneal_test_frame (s : t T) :
  let s' := snd (reanneal_test s) in
  (D s' = D s /\ range_min s' = range_min s /\ range_max s' = range_max s) /\
  (T_0 s' = T_0 s /\ T_k s' = T_k s /\ T_f s' = T_f s /\ c s' = c s) /\
  (c_cost s' = c_cost s /\ T_cost_0 s' = T_cost_0 s /\ T_cost s' = T_cost s) /\
  (k s' = k s /\ k_r s' = k_r s /\ k_cost s' = k_cost s /\ steps s' = steps s) /\
  (x_cand s' = x_cand s /\ f_x_cand s' = f_x_cand s /\ x_best s' = x_best s
   /\ f_x_best s' = f_x_best s) /\
  (state s' = state s /\ reason_for_exit s' = reason_for_exit s) /\
  (num_generated s' = num_generated s /\ num_accepted s' = num_accepted s
   /\ num_improved s' = num_improved s /\ num_worse s' = num_worse s
   /\ rng_u s' = rng_u s /\ randomized s' = randomized s) /\
  (param_hist_accepted s' = param_hist_accepted s
   /\ f_param_hist_accepted s' = f_param_hist_accepted s
   /\ param_hist_rejected s' = param_hist_rejected s
   /\ f_param_hist_rejected s' = f_param_hist_rejected s) /\
  (downhill s' = downhill s /\ enable_reanneal s' = enable_reanneal s
   /\ exit_at_T_f s' = exit_at_T_f s /\ f_x_best_repeat_max s' = f_x_best_repeat_max s
   /\ f_x_best_repeats s' = f_x_best_repeats s).
Proof.
  cbv zeta. rewrite reanneal_test_shape.
  destruct (negb _ && negb _); [|repeat split].
  destruct (accepted_vs_generated s <? acc_gen_reanneal_ratio s); repeat split.
Qed.

(** The members [complete_reanneal] does not write, whether it returns or
    throws. *)
Lemma complete_reanneal_frame (s : t T) :
  match complete_reanneal s with
  | Looping => True
  | Returned s' | Threw _ s' =>
      (D s' = D s /\ range_min s' = range_min s /\ range_max s' = range_max s) /\
      (T_0 s' = T_0 s /\ T_f s' = T_f s /\ c s' = c s /\ c_cost s' = c_cost s) /\
      (steps s' = steps s /\ state s' = state s /\ reason_for_exit s' = reason_for_exit s) /\
      (x s' = x s /\ f_x s' = f_x s /\ x_cand s' = x_cand s /\ f_x_cand s' = f_x_cand s
       /\ x_best s' = x_best s /\ f_x_best s' = f_x_best s
       /\ x_plusdelta s' = x_plusdelta s /\ f_x_plusdelta s' = f_x_plusdelta s) /\
      (num_generated s' = num_generated s /\ num_accepted s' = num_accepted s
       /\ num_improved s' = num_improved s /\ num_worse s' = num_worse s
       /\ rng_u s' = rng_u s /\ randomized s' = randomized s) /\
      (param_hist_accepted s' = param_hist_accepted s
       /\ f_param_hist_accepted s' = f_param_hist_accepted s
       /\ param_hist_rejected s' = param_hist_rejected s
       /\ f_param_hist_rejected s' = f_param_hist_rejected s) /\
      (downhill s' = downhill s /\ enable_reanneal s' = enable_reanneal s
       /\ exit_at_T_f s' = exit_at_T_f s /\ f_x_best_repeat_max s' = f_x_best_repeat_max s
       /\ f_x_best_repeats s' = f_x_best_repeats s)
  end.
Proof.
  of_value (complete_reanneal s) (@complete_reanneal).
  exec; at_value; repeat split.
Qed.

(** The members [generate_next] does not write. *)
Lemma generate_next_frame (ent : Entropy T) (fuel : nat) (s s' : t T) :
  generate_next ent fuel s = Some s' ->
  (D s' = D s /\ range_min s' = range_min s /\ range_max s' = range_max s) /\
  (T_0 s' = T_0 s /\ T_k s' = T_k s /\ T_f s' = T_f s /\ c s' = c s) /\
  (c_cost s' = c_cost s /\ T_cost_0 s' = T_cost_0 s /\ T_cost s' = T_cost s) /\
  (k s' = k s /\ k_r s' = k_r s /\ k_cost s' = k_cost s /\ steps s' = steps s) /\
  (x s' = x s /\ f_x s' = f_x s /\ f_x_cand s' = f_x_cand s /\ x_best s' = x_best s
   /\ f_x_best s' = f_x_best s) /\
  (state s' = state s /\ reason_for_exit s' = reason_for_exit s) /\
  (num_accepted s' = num_accepted s
   /\ num_improved s' = num_improved s /\ num_worse s' = num_worse s
   /\ rng_u s' = rng_u s) /\
  (param_hist_accepted s' = param_hist_accepted s
   /\ f_param_hist_accepted s' = f_param_hist_accepted s
   /\ param_hist_rejected s' = param_hist_rejected s
   /\ f_param_hist_rejected s' = f_param_hist_rejected s) /\
  (downhill s' = downhill s /\ enable_reanneal s' = enable_reanneal s
   /\ exit_at_T_f s' = exit_at_T_f s /\ f_x_best_repeat_max s' = f_x_best_repeat_max s
   /\ f_x_best_repeats s' = f_x_best_repeats s) /\
  (num_generated s' = uincr (num_generated s)
   /\ num_generated_recently s' = uincr (num_generated_recently s)) /\
  (reanneal_after_steps s' = reanneal_after_steps s
   /\ acc_gen_reanneal_ratio s' = acc_gen_reanneal_ratio s
   /\ objective_repeat_precision s' = objective_repeat_precision s
   /\ delta_param s' = delta_param s
   /\ num_accepted_recently s' = num_accepted_recently s).
Proof.
  intros G. destruct (generate_next_inv _ _ _ _ G) as (j & x_new & _ & ->). repeat split.
Qed.

End Members.

Section Schedule.
Context {T : Type} `{Scalar T}.
Local Open Scope scalar_scope.
Import vVector.

Lemma zip_with_repeat (f : T -> T -> T) (a b : T) (len : nat) :
  zip_with f (repeat a len) (repeat b len) = repeat (f a b) len.
Proof. induction len as [|len IH]; simpl; [reflexivity|]. rewrite IH. reflexivity. Qed.

Lemma resize_nil (len : nat) (v : T) : resize len v [] = repeat v len.
Proof. unfold resize. rewrite firstn_nil. simpl. rewrite Nat.sub_0_r. reflexivity. Qed.

Lemma set_from_repeat (a v : T) (len : nat) : set_from (repeat a len) v = repeat v len.
Proof. unfold set_from. apply map_repeat. Qed.

Lemma schedule_repeat (dim len : nat) (a b : T) (kk : Z) :
  exists tv : T, schedule dim (repeat a len) (repeat b len) kk = repeat tv len.
Proof.
  unfold schedule, max_elementwise_inplace, vmul, vexp, vmul_s, vopp.
  rewrite !map_repeat, zip_with_repeat, map_repeat. eexists. reflexivity.
Qed.

Lemma vmin_repeat (a : T) (len : nat) : vmin (repeat a (S len)) = a.
Proof.
  simpl. induction len as [|len IH]; simpl; [reflexivity|].
  destruct (a <? a); exact IH.
Qed.

(** Before [init] the vectors of the schedule are empty. *)
Lemma configured_fresh (p : list T) (r : list (T * T)) (s : t T) :
  configured p r s -> T_0 s = [] /\ T_k s = [] /\ m s = [] /\ n s = [] /\ c s = [].
Proof.
  induction 1; [repeat split|..]; exact IHconfigured.
Qed.

Lemma init_uniform (p : list T) (r : list (T * T)) (s : t T) :
  configured p r s -> schedule_is_uniform (init s).
Proof.
  intros C. destruct (configured_fresh _ _ _ C) as (E0 & Ek & Em & En & Ec).
  assert (EqD : D (init s) = D s) by reflexivity.
  assert (Eq0 : T_0 (init s) = resize (D s) one (T_0 s)) by reflexivity.
  assert (Eqk : T_k (init s) = resize (D s) one (T_k s)) by reflexivity.
  assert (Eqc : c (init s) =
                vmul (set_from (resize (D s) zero (m s)) (- log (temperature_ratio_scale s)))
                     (vexp (vdiv_s (vopp (set_from (resize (D s) zero (n s))
                                                   (log (temperature_anneal_scale s))))
                                   (of_uint (Z.of_nat (D s)))))) by reflexivity.
  unfold schedule_is_uniform. rewrite EqD, Eq0, Eqk, Eqc, E0, Ek, Em, En.
  rewrite !resize_nil, !set_from_repeat.
  unfold vmul, vexp, vdiv_s, vopp. rewrite !map_repeat, zip_with_repeat.
  split; [reflexivity|]. split; eexists; reflexivity.
Qed.

Lemma stop_check_keeps_schedule (s : t T) : keeps_schedule s (snd (stop_check s)).
Proof. unfold stop_check. destruct (stop_condition s); repeat split. Qed.

Lemma acceptance_check_keeps_schedule (ent : Entropy T) (s : t T) :
  keeps_schedule s (acceptance_check ent s).
Proof.
  unfold acceptance_check.
  on_result (acceptance_check_on (rng_u_get ent (rng_u s)) s) (@acceptance_check_on).
  exec; off_result; repeat split.
Qed.

Lemma generate_next_keeps_schedule (ent : Entropy T) (fuel : nat) (s s' : t T) :
  generate_next ent fuel s = Some s' -> keeps_schedule s s'.
Proof.
  intros G. destruct (generate_next_inv _ _ _ _ G) as (j & x_new & _ & ->). repeat split.
Qed.

Lemma reanneal_test_keeps_schedule (s : t T) : keeps_schedule s (snd (reanneal_test s)).
Proof.
  on_result (reanneal_test s) (@reanneal_test).
  exec; off_result; repeat split.
Qed.

Lemma complete_reanneal_schedule (s : t T) :
  match complete_reanneal s with
  | Returned s' => keeps_constants s s'
  | Threw _ s' => keeps_schedule s s'
  | Looping => True
  end.
Proof.
  on_result (complete_reanneal s) (@complete_reanneal).
  exec; off_result; repeat split.
Qed.

(** After [advance] the temperatures are those of the cooling schedule. *)
Lemma advance_schedule (ent : Entropy T) (fuel : nat) (s s' : t T) :
  advance ent fuel s = Returned s' ->
  keeps_constants s s' /\ T_k s' = schedule (D s) (T_0 s) (c s) (k s).
Proof.
  intros A. unfold advance in A.
  destruct (generate_next _ _ _) as [s3|] eqn:G; [|discriminate].
  destruct (acceptance_check_keeps_schedule ent (cooling_schedule s)) as ((A1 & A2 & A3) & A4).
  destruct (generate_next_keeps_schedule _ _ _ _ G) as ((G1 & G2 & G3) & G4).
  assert (K : keeps_constants s s3 /\ T_k s3 = schedule (D s) (T_0 s) (c s) (k s)).
  { unfold keeps_constants. rewrite G1, G2, G3, G4, A1, A2, A3, A4. repeat split. }
  destruct K as ((K1 & K2 & K3) & K4).
  destruct (enable_reanneal _).
  - pose proof (reanneal_test_keeps_schedule
                  (s3 <| k := uincr (k s3) |>
                      <| k_r := uincr (k_r (s3 <| k := uincr (k s3) |>)) |>)) as R.
    destruct (reanneal_test _) as [again s5]. injection A as <-.
    destruct R as ((R1 & R2 & R3) & R4). simpl snd in *.
    repeat split.
    + rewrite <- K1. exact R1.
    + rewrite <- K2. exact R2.
    + rewrite <- K3. exact R3.
    + rewrite <- K4. exact R4.
  - injection A as <-. repeat split; assumption.
Qed.

Lemma step_uniform (ent : Entropy T) (fuel : nat) (s : t T) :
  schedule_is_uniform s ->
  match step ent fuel s with
  | Returned s' | Threw _ s' => schedule_is_uniform s'
  | Looping => True
  end.
Proof.
  intros (U0 & (cv & Uc) & (tv & Uk)).
  assert (After : forall s1, keeps_constants s s1 ->
            match advance ent fuel s1 with
            | Returned s' | Threw _ s' => schedule_is_uniform s'
            | Looping => True
            end).
  { intros s1 (C1 & C2 & C3).
    destruct (advance ent fuel s1) as [s'|what s'|] eqn:A; [| |exact I].
    - destruct (advance_schedule _ _ _ _ A) as ((B1 & B2 & B3) & B4).
      unfold schedule_is_uniform. rewrite B1, B2, B3, B4, C1, C2, C3, U0, Uc.
      split; [reflexivity|]. split; [eexists; reflexivity|]. apply schedule_repeat.
    - destruct (advance_returns _ _ _ _ _ A). }
  destruct (stop_condition s) as [why|] eqn:E.
  - rewrite (step_stops ent fuel s _ E).
    split; [exact U0|]. split; [exists cv; exact Uc|exists tv; exact Uk].
  - rewrite (step_goes_on ent fuel s E). cbv zeta.
    set (s1 := s <| steps := uincr (steps s) |>).
    assert (C1 : keeps_constants s s1) by (repeat split).
    destruct (state s1); try exact (After s1 C1).
    pose proof (complete_reanneal_schedule s1) as K.
    destruct (complete_reanneal s1) as [s2|what s2|]; [| |exact I].
    + apply After. destruct K as (K1 & K2 & K3). repeat split; assumption.
    + destruct K as ((K1 & K2 & K3) & K4).
      unfold schedule_is_uniform. rewrite K1, K2, K3, K4.
      split; [exact U0|]. split; [exists cv; exact Uc|exists tv; exact Uk].
Qed.

(** Throughout a run the schedule is uniform. *)
Lemma reachable_uniform (s : t T) : reachable s -> schedule_is_uniform s.
Proof.
  induction 1 as [p r s C|s v R IH|s v R IH|s ent fuel s' R IH St|s ent fuel what s' R IH St].
  - apply (init_uniform _ _ _ C).
  - exact IH.
  - exact IH.
  - pose proof (step_uniform ent fuel _ IH) as U. rewrite St in U. exact U.
  - pose proof (step_uniform ent fuel _ IH) as U. rewrite St in U. exact U.
Qed.

(** C5.  In a run with at least one dimension: when stopping condition (1)
    does not hold and the minimum of [T_k] over the dimensions is down at
    [eps], the next call of [step] returns with [state = ReadyToStop] and
    [reason_for_exit = T_k_less_than_epsilon].  ([stop_check] looks at
    [T_k[0]] only; in a run all entries of [T_k] are the same.) *)
Theorem floor_temperature_stops (ent : Entropy T) (fuel : nat) (s : t T) :
  reachable s ->
  (0 < D s)%nat ->
  exit_at_T_f s && vlt (T_k s) (T_f s) = false ->
  (vmin (T_k s) <=? epsilon) = true ->
  exists s' : t T,
    step ent fuel s = Returned s' /\
    state s' = ReadyToStop /\ reason_for_exit s' = T_k_less_than_epsilon.
Proof.
  intros R Dim C1 Min.
  destruct (reachable_uniform _ R) as (_ & _ & (tv & Uk)).
  destruct (D s) as [|d]; [inversion Dim|].
  assert (E : stop_condition s = Some T_k_less_than_epsilon).
  { unfold stop_condition. rewrite C1.
    rewrite Uk in Min |- *. rewrite vmin_repeat in Min.
    unfold at_. simpl nth. rewrite Min. reflexivity. }
  eexists. split; [apply (step_stops ent fuel s _ E)|]. split; reflexivity.
Qed.

End Schedule.

Section Reanneal.
Context {T : Type} `{Scalar T}.
Local Open Scope scalar_scope.
Import vVector.

(** C6.  When [step] comes to complete a reanneal (the state is
    [NeedToComputeSet] and no stopping condition holds) and the tangent
    estimate has a NaN or an infinity in it, [step] throws
    [std::runtime_error ("NaN or inf in tangents")], and [T_k] and [T_cost]
    are as they were before the call. *)
Theorem nan_tangents_are_fatal (ent : Entropy T) (fuel : nat) (s : t T) :
  state s = NeedToComputeSet ->
  stop_condition s = None ->
  has_nan_or_inf (tangent_estimate s) = true ->
  exists s' : t T,
    step ent fuel s = Threw "NaN or inf in tangents" s' /\
    T_k s' = T_k s /\ T_cost s' = T_cost s.
Proof.
  intros St Go Bad.
  exists (s <| steps := uincr (steps s) |> <| tangents := tangent_estimate s |>).
  split; [|split; reflexivity].
  rewrite (step_goes_on ent fuel s Go). cbv zeta.
  change (state (s <| steps := uincr (steps s) |>)) with (state s). rewrite St.
  cbv beta delta [complete_reanneal]. cbv zeta.
  change (has_nan_or_inf (tangents _)) with (has_nan_or_inf (tangent_estimate s)).
  rewrite Bad. reflexivity.
Qed.

Lemma all_zero_has_zero (v : list T) :
  v <> [] -> Forall (fun x => (x =? zero) = true) v -> has_zero v = true.
Proof.
  intros NE A. destruct A as [|x v Z _]; [congruence|].
  unfold has_zero. simpl. rewrite Z. reflexivity.
Qed.

(** C7.  When the tangent estimate of [complete_reanneal] is all zero (and
    has no NaN or infinity in it), [complete_reanneal] returns without
    throwing, [delta_param] is doubled, and apart from the stored
    [tangents] nothing else changes: [T_k], [T_cost], [k] and [k_cost] are
    as before. *)
Theorem zero_tangents_double_delta_param (s : t T) :
  tangent_estimate s <> [] ->
  Forall (fun x => (x =? zero) = true) (tangent_estimate s) ->
  has_nan_or_inf (tangent_estimate s) = false ->
  exists s' : t T,
    complete_reanneal s = Returned s' /\
    s' = s <| tangents := tangent_estimate s |> <| delta_param := delta_param s * two |> /\
    delta_param s' = delta_param s * two /\
    T_k s' = T_k s /\ T_cost s' = T_cost s /\ k s' = k s /\ k_cost s' = k_cost s.
Proof.
  intros NE Z Fin.
  eexists. split; [|split; [reflexivity|repeat split]].
  cbv beta delta [complete_reanneal]. cbv zeta.
  change (has_nan_or_inf (tangents _)) with (has_nan_or_inf (tangent_estimate s)).
  rewrite Fin.
  change (has_zero (tangents _)) with (has_zero (tangent_estimate s)).
  rewrite (all_zero_has_zero _ NE Z). reflexivity.
Qed.

End Reanneal.

Section Acceptance.
Context {T : Type} `{Scalar T}.
Local Open Scope scalar_scope.
Import vVector.

(** What [acceptance_check] does to the point, the best point and the
    records, by its verdict. *)
Lemma acceptance_check_on_effect (u : T) (s : t T) :
  let s' := acceptance_check_on u s in
  let accepted := acceptance_probability s >=? u in
  let best := accepted && improves_on_best s in
  let repeated := fabs (f_x_cand s - f_x_best s) <=? objective_repeat_precision s in
  rng_u s' = S (rng_u s) /\
  x s' = (if accepted then x_cand s else x s) /\
  f_x s' = (if accepted then f_x_cand s else f_x s) /\
  x_best s' = (if best then x_cand s else x_best s) /\
  f_x_best s' = (if best then f_x_cand s else f_x_best s) /\
  f_x_best_repeats s' =
    (if accepted then
       if improves_on_best s then 0
       else (f_x_best_repeats s + (if repeated then 1 else 0)) mod uint_max
     else f_x_best_repeats s)%Z /\
  num_accepted s' = (if accepted then uincr (num_accepted s) else num_accepted s) /\
  k_cost s' = (if accepted then uincr (k_cost s) else k_cost s) /\
  param_hist_accepted s' =
    (if accepted then param_hist_accepted s ++ [x_cand s] else param_hist_accepted s) /\
  f_param_hist_accepted s' =
    (if accepted then f_param_hist_accepted s ++ [f_x_cand s] else f_param_hist_accepted s) /\
  param_hist_rejected s' =
    (if accepted then param_hist_rejected s else param_hist_rejected s ++ [x s]) /\
  f_param_hist_rejected s' =
    (if accepted then f_param_hist_rejected s else f_param_hist_rejected s ++ [f_x s]).
Proof.
  cbv zeta. on_result (acceptance_check_on u s) (@acceptance_check_on).
  exec; off_result; first [clash | repeat split].
Qed.

(** The acceptance rule of [Anneal::acceptance_check]:
    [p = std::min (1, exp (-(f_x_cand - f_x) / (eps + T_cost.mean())))],
    one number [u] is drawn from [rng_u], and the candidate is accepted (it
    becomes [x], and goes on the accepted history) exactly when [p >= u];
    otherwise [x] stays and goes on the rejected history. *)
Lemma acceptance_rule (ent : Entropy T) (s : t T) :
  let p := std_min one (exp (- (f_x_cand s - f_x s) / (epsilon + mean (T_cost s)))) in
  let u := rng_u_get ent (rng_u s) in
  let s' := acceptance_check ent s in
  rng_u s' = S (rng_u s) /\
  ((p >=? u) = true ->
   x s' = x_cand s /\ f_x s' = f_x_cand s /\
   num_accepted s' = uincr (num_accepted s) /\
   param_hist_accepted s' = param_hist_accepted s ++ [x_cand s] /\
   param_hist_rejected s' = param_hist_rejected s) /\
  ((p >=? u) = false ->
   x s' = x s /\ f_x s' = f_x s /\
   num_accepted s' = num_accepted s /\
   param_hist_accepted s' = param_hist_accepted s /\
   param_hist_rejected s' = param_hist_rejected s ++ [x s]).
Proof.
  cbv zeta. unfold acceptance_check.
  destruct (acceptance_check_on_effect (rng_u_get ent (rng_u s)) s)
    as (R & X & F & _ & _ & _ & N & _ & A & _ & J & _).
  change (acceptance_probability s)
    with (std_min one (exp (- (f_x_cand s - f_x s) / (epsilon + mean (T_cost s))))) in *.
  split; [exact R|].
  split; intros P; rewrite P in *; repeat split; assumption.
Qed.

End Acceptance.

Section Protocol.
Context {T : Type} `{Scalar T}.
Local Open Scope scalar_scope.
Import vVector.

Lemma resize_same (v : T) (l : list T) : resize (length l) v l = l.
Proof.
  unfold resize. rewrite firstn_all, Nat.sub_diag. simpl. apply app_nil_r.
Qed.

(** A configured object still has the constructor's points and counters. *)
Lemma configured_points (p : list T) (r : list (T * T)) (s : t T) :
  configured p r s ->
  x_cand s = p /\ x s = p /\ x_best s = p /\ D s = length p /\
  num_accepted s = 0%Z /\ f_x_best_repeats s = 0%Z /\ k_r s = 0%Z.
Proof.
  induction 1; [repeat split|..]; exact IHconfigured.
Qed.


Lemma generate_next_keeps_tally (ent : Entropy T) (fuel : nat) (s s' : t T) :
  generate_next ent fuel s = Some s' -> keeps_tally s s'.
Proof.
  intros G. destruct (generate_next_inv _ _ _ _ G) as (j & x_new & _ & ->). repeat split.
Qed.

Lemma reanneal_test_keeps_tally (s : t T) : keeps_tally s (snd (reanneal_test s)).
Proof.
  on_result (reanneal_test s) (@reanneal_test).
  exec; off_result; repeat split.
Qed.

Lemma acceptance_check_keeps_setup (ent : Entropy T) (s : t T) :
  downhill (acceptance_check ent s) = downhill s /\
  objective_repeat_precision (acceptance_check ent s) = objective_repeat_precision s /\
  f_x_best_repeat_max (acceptance_check ent s) = f_x_best_repeat_max s /\
  k_r (acceptance_check ent s) = k_r s.
Proof.
  unfold acceptance_check.
  on_result (acceptance_check_on (rng_u_get ent (rng_u s)) s) (@acceptance_check_on).
  exec; off_result; repeat split.
Qed.

(** Within [min_steps_to_reanneal] steps of the last reanneal there is no
    reanneal. *)
Lemma reanneal_test_early (s : t T) :
  (k_r s <? min_steps_to_reanneal)%Z = true -> reanneal_test s = (false, s).
Proof. intros E. unfold reanneal_test. rewrite E. reflexivity. Qed.

(** What [advance] leaves of the acceptance check it makes. *)
Lemma advance_tally (ent : Entropy T) (fuel : nat) (s s' : t T) :
  advance ent fuel s = Returned s' ->
  keeps_tally ((acceptance_check ent (cooling_schedule s)) <| k_r := uincr (k_r s) |>) s' /\
  ((uincr (k_r s) <? min_steps_to_reanneal)%Z = true -> state s' = NeedToCompute).
Proof.
  intros A. unfold advance in A.
  destruct (generate_next _ _ _) as [s3|] eqn:G; [|discriminate].
  destruct (generate_next_keeps_tally _ _ _ _ G) as (G1 & G2 & G3 & G4 & G5 & G6 & G7).
  destruct (acceptance_check_keeps_setup ent (cooling_schedule s)) as (_ & _ & _ & K).
  change (k_r (cooling_schedule s)) with (k_r s) in K.
  set (s4 := s3 <| k := uincr (k s3) |>
                <| k_r := uincr (k_r (s3 <| k := uincr (k s3) |>)) |>) in *.
  assert (Kr : k_r s4 = uincr (k_r s)).
  { change (k_r s4) with (uincr (k_r s3)). rewrite G7, K. reflexivity. }
  assert (T4 : keeps_tally
                 ((acceptance_check ent (cooling_schedule s)) <| k_r := uincr (k_r s) |>) s4).
  { repeat split; try assumption. }
  destruct (enable_reanneal s4).
  - pose proof (reanneal_test_keeps_tally s4) as R.
    pose proof (reanneal_test_early s4) as Early. rewrite Kr in Early.
    destruct (reanneal_test s4) as [again s5]. injection A as <-.
    destruct R as (R1 & R2 & R3 & R4 & R5 & R6 & R7).
    destruct T4 as (T1 & T2 & T3 & T4 & T5 & T6 & T7). simpl snd in *.
    split.
    + repeat split; etransitivity; eassumption.
    + intros E. specialize (Early E). injection Early as -> _. reflexivity.
  - injection A as <-. split; [exact T4|]. intros _. reflexivity.
Qed.

(** A call of [step] in state [NeedToCompute] that returns either stopped
    at once or went through [advance]. *)
Lemma step_from_compute (ent : Entropy T) (fuel : nat) (s s' : t T) :
  state s = NeedToCompute ->
  step ent fuel s = Returned s' ->
  (stop_condition s <> None /\ num_accepted s' = num_accepted s) \/
  (stop_condition s = None /\
   advance ent fuel (s <| steps := uincr (steps s) |>) = Returned s').
Proof.
  intros St S. destruct (stop_condition s) as [why|] eqn:E.
  - left. rewrite (step_stops ent fuel s _ E) in S. injection S as <-.
    split; [discriminate|reflexivity].
  - right. rewrite (step_goes_on ent fuel s E) in S. cbv zeta in S.
    change (state (s <| steps := uincr (steps s) |>)) with (state s) in S.
    rewrite St in S. split; [reflexivity|exact S].
Qed.


(** A call of [step] in state [NeedToCompute] after which one more
    candidate has been accepted, less than [min_steps_to_reanneal] steps
    after the last reanneal. *)
Lemma accepting_step (ent : Entropy T) (fuel : nat) (s s' : t T) :
  state s = NeedToCompute ->
  step ent fuel s = Returned s' ->
  num_accepted s' = uincr (num_accepted s) ->
  uincr (num_accepted s) <> num_accepted s ->
  (uincr (k_r s) <? min_steps_to_reanneal)%Z = true ->
  state s' = NeedToCompute /\
  f_x_best_repeats s' =
    (if improves_on_best s then 0
     else (f_x_best_repeats s
           + (if (fabs (f_x_cand s - f_x_best s) <=? objective_repeat_precision s)%sc
              then 1 else 0)) mod uint_max)%Z /\
  f_x_best s' = (if improves_on_best s then f_x_cand s else f_x_best s) /\
  downhill s' = downhill s /\
  objective_repeat_precision s' = objective_repeat_precision s /\
  f_x_best_repeat_max s' = f_x_best_repeat_max s /\
  k_r s' = uincr (k_r s).
Proof.
  intros St S N Fresh Early.
  destruct (@step_from_compute ent fuel s s' St S) as [(_ & Same)|(_ & A)]; [congruence|].
  destruct (@advance_tally _ _ _ _ A) as ((T1 & T2 & T3 & T4 & T5 & T6 & T7) & Tst).
  set (s1 := cooling_schedule (s <| steps := uincr (steps s) |>)) in *.
  destruct (acceptance_check_keeps_setup ent s1) as (K1 & K2 & K3 & _).
  unfold acceptance_check in *.
  destruct (acceptance_check_on_effect (rng_u_get ent (rng_u s1)) s1)
    as (_ & _ & _ & _ & Fb & Rp & Na & _).
  change (num_accepted s1) with (num_accepted s) in Na.
  change (improves_on_best s1) with (improves_on_best s) in Fb, Rp.
  change (f_x_best_repeats s1) with (f_x_best_repeats s) in Rp.
  change (f_x_cand s1) with (f_x_cand s) in Fb, Rp.
  change (f_x_best s1) with (f_x_best s) in Fb, Rp.
  change (objective_repeat_precision s1) with (objective_repeat_precision s) in Rp.
  destruct (rng_u_get ent (rng_u s1) <=? acceptance_probability s1).
  - cbv beta iota delta [andb] in Fb.
    split; [exact (Tst Early)|].
    split; [rewrite T2; exact Rp|]. split; [rewrite T3; exact Fb|].
    split; [rewrite T4; exact K1|]. split; [rewrite T5; exact K2|].
    split; [rewrite T6; exact K3|exact T7].
  - exfalso. apply Fresh. rewrite <- N, T1. exact Na.
Qed.

(** Two accepted candidates with the same objective [v], in terms of the
    tests [acceptance_check] makes: [v] passes the test against the initial
    best, does not pass it against itself, and is within
    [objective_repeat_precision] of itself. *)
Lemma two_acceptances_then_stop
    (ent : Entropy T) (fuel : nat) (p : list T) (r : list (T * T)) (c0 s1 s2 : t T) (v : T) :
  configured p r c0 ->
  f_x_best_repeat_max c0 = 1%Z ->
  improves (downhill c0) (objective_repeat_precision c0) v
           (if downhill c0 then max_value else lowest) = true ->
  improves (downhill c0) (objective_repeat_precision c0) v v = false ->
  (fabs (v - v) <=? objective_repeat_precision c0) = true ->
  step ent fuel ((init c0) <| f_x_cand := v |>) = Returned s1 ->
  num_accepted s1 = 1%Z ->
  step ent fuel (s1 <| f_x_cand := v |>) = Returned s2 ->
  num_accepted s2 = 2%Z ->
  exit_at_T_f s2 && vlt (T_k s2) (T_f s2) = false ->
  (at_ (T_k s2) 0 <=? epsilon) = false ->
  (at_ (T_cost s2) 0 <=? epsilon) = false ->
  (state s1 = NeedToCompute /\ f_x_best_repeats s1 = 0%Z /\ f_x_best s1 = v) /\
  (state s2 = NeedToCompute /\ f_x_best_repeats s2 = 1%Z) /\
  exists s3 : t T,
    step ent fuel (s2 <| f_x_cand := v |>) = Returned s3 /\
    state s3 = ReadyToStop /\ reason_for_exit s3 = f_x_best_repeated.
Proof.
  intros C Max First Again Rep S1 N1 S2 N2 Tf Tk Tc.
  destruct (@configured_points _ _ _ C) as (_ & _ & _ & _ & Na & Fr & Kr).
  pose (a0 := (init c0) <| f_x_cand := v |>).
  assert (St0 : state a0 = NeedToCompute) by reflexivity.
  assert (Na0 : num_accepted a0 = 0%Z) by exact Na.
  assert (Kr0 : k_r a0 = 0%Z) by exact Kr.
  assert (Im0 : improves_on_best a0 = true) by exact First.
  assert (Dh0 : downhill a0 = downhill c0) by reflexivity.
  assert (Pr0 : objective_repeat_precision a0 = objective_repeat_precision c0) by reflexivity.
  assert (Mx0 : f_x_best_repeat_max a0 = 1%Z) by exact Max.
  assert (Fc0 : f_x_cand a0 = v) by reflexivity.
  change (step ent fuel a0 = Returned s1) in S1. clearbody a0.
  assert (N1' : num_accepted s1 = uincr (num_accepted a0)) by (rewrite Na0; exact N1).
  assert (F1 : uincr (num_accepted a0) <> num_accepted a0) by (rewrite Na0; discriminate).
  assert (E1 : (uincr (k_r a0) <? min_steps_to_reanneal)%Z = true) by (rewrite Kr0; reflexivity).
  destruct (@accepting_step ent fuel a0 s1 St0 S1 N1' F1 E1)
    as (St1 & Rp1 & Fb1 & Dh1 & Pr1 & Mx1 & Kr1).
  rewrite Im0 in Rp1, Fb1. rewrite Fc0 in Fb1. rewrite Dh0 in Dh1. rewrite Pr0 in Pr1.
  rewrite Mx0 in Mx1. rewrite Kr0 in Kr1. change (uincr 0) with 1%Z in Kr1.
  clear St0 Na0 Kr0 Im0 Dh0 Pr0 Mx0 Fc0 N1' F1 E1 S1.
  pose (a1 := s1 <| f_x_cand := v |>).
  assert (Sa1 : state a1 = NeedToCompute) by exact St1.
  assert (Na1 : num_accepted a1 = 1%Z) by exact N1.
  assert (Ka1 : k_r a1 = 1%Z) by exact Kr1.
  assert (Ra1 : f_x_best_repeats a1 = 0%Z) by exact Rp1.
  assert (Ma1 : f_x_best_repeat_max a1 = 1%Z) by exact Mx1.
  assert (Ia1 : improves_on_best a1 = false).
  { change (improves_on_best a1)
      with (improves (downhill s1) (objective_repeat_precision s1) v (f_x_best s1)).
    rewrite Dh1, Pr1, Fb1. exact Again. }
  assert (Ha1 : (fabs (f_x_cand a1 - f_x_best a1) <=? objective_repeat_precision a1) = true).
  { change ((fabs (v - f_x_best s1) <=? objective_repeat_precision s1) = true).
    rewrite Pr1, Fb1. exact Rep. }
  change (step ent fuel a1 = Returned s2) in S2. clearbody a1.
  assert (N2' : num_accepted s2 = uincr (num_accepted a1)) by (rewrite Na1; exact N2).
  assert (F2 : uincr (num_accepted a1) <> num_accepted a1) by (rewrite Na1; discriminate).
  assert (E2 : (uincr (k_r a1) <? min_steps_to_reanneal)%Z = true) by (rewrite Ka1; reflexivity).
  destruct (@accepting_step ent fuel a1 s2 Sa1 S2 N2' F2 E2)
    as (St2 & Rp2 & _ & _ & _ & Mx2 & _).
  rewrite Ia1, Ha1, Ra1 in Rp2. change ((0 + 1) mod uint_max)%Z with 1%Z in Rp2.
  rewrite Ma1 in Mx2.
  split; [repeat split; assumption|]. split; [split; assumption|].
  assert (E : stop_condition (s2 <| f_x_cand := v |>) = Some f_x_best_repeated).
  { change (stop_condition (s2 <| f_x_cand := v |>)) with (stop_condition s2).
    unfold stop_condition. rewrite Tf, Tk, Tc, Rp2, Mx2. reflexivity. }
  eexists. split; [apply (step_stops ent fuel _ _ E)|]. split; reflexivity.
Qed.

(** *** Until the first candidate is accepted *)

Lemma none_accepted_refl (s : t T) : none_accepted s s.
Proof. intros E. split; [exact E|repeat split]. Qed.

Lemma none_accepted_trans (s1 s2 s3 : t T) :
  none_accepted s1 s2 -> none_accepted s2 s3 -> none_accepted s1 s3.
Proof.
  intros A B E. destruct (B E) as (E2 & Kd & Kp & Kb). destruct (A E2) as (E1 & Jd & Jp & Jb).
  split; [exact E1|]. repeat split; congruence.
Qed.

(** A move that leaves the best and the accepted history alone. *)
Lemma keeps_none_accepted (s s' : t T) :
  keeps_best s s' -> param_hist_accepted s' = param_hist_accepted s -> none_accepted s s'.
Proof. intros K Eq E. rewrite Eq in E. split; assumption. Qed.

(** An acceptance check that leaves the accepted history empty has rejected
    its candidate. *)
Lemma acceptance_check_none_accepted (ent : Entropy T) (s : t T) :
  none_accepted s (acceptance_check ent s).
Proof.
  intros E. unfold acceptance_check in *.
  destruct (acceptance_check_on_best (rng_u_get ent (rng_u s)) s) as (Kd & Kp & _).
  destruct (acceptance_check_on_effect (rng_u_get ent (rng_u s)) s)
    as (_ & _ & _ & _ & Fb & _ & _ & _ & A & _).
  rewrite E in A.
  destruct (rng_u_get ent (rng_u s) <=? acceptance_probability s).
  - destruct (param_hist_accepted s); discriminate A.
  - cbn [andb] in Fb. split; [symmetry; exact A|]. repeat split; assumption.
Qed.

Lemma advance_none_accepted (ent : Entropy T) (fuel : nat) (s s' : t T) :
  advance ent fuel s = Returned s' -> none_accepted s s'.
Proof.
  unfold advance. intros A.
  destruct (generate_next _ _ _) as [s3|] eqn:G; [|discriminate].
  apply none_accepted_trans with (acceptance_check ent (cooling_schedule s)).
  { apply none_accepted_trans with (cooling_schedule s).
    - apply keeps_none_accepted; [apply cooling_schedule_keeps_best|reflexivity].
    - apply acceptance_check_none_accepted. }
  apply none_accepted_trans with s3.
  { destruct (generate_next_frame _ _ _ _ G) as (_ & _ & _ & _ & _ & _ & _ & (Ph & _) & _).
    apply keeps_none_accepted; [exact (generate_next_keeps_best _ _ _ _ G)|exact Ph]. }
  set (s4 := s3 <| k := uincr (k s3) |>
                <| k_r := uincr (k_r (s3 <| k := uincr (k s3) |>)) |>) in *.
  apply none_accepted_trans with s4.
  { apply keeps_none_accepted; repeat split. }
  destruct (enable_reanneal s4).
  - pose proof (reanneal_test_keeps_best s4) as K.
    destruct (reanneal_test_frame s4) as (_ & _ & _ & _ & _ & _ & _ & (Ph & _) & _).
    destruct (reanneal_test s4) as [again s5]. cbn [snd] in *. injection A as <-.
    apply keeps_none_accepted; [|exact Ph].
    destruct K as (Kd & Kp & Kb). repeat split; assumption.
  - injection A as <-. apply keeps_none_accepted; repeat split.
Qed.

Lemma step_none_accepted (ent : Entropy T) (fuel : nat) (s : t T) :
  match step ent fuel s with
  | Returned s' | Threw _ s' => none_accepted s s'
  | Looping => True
  end.
Proof.
  destruct (stop_condition s) as [why|] eqn:E.
  - rewrite (step_stops ent fuel s _ E). apply keeps_none_accepted; repeat split.
  - rewrite (step_goes_on ent fuel s E). cbv zeta.
    set (s1 := s <| steps := uincr (steps s) |>).
    assert (R1 : none_accepted s s1) by (apply keeps_none_accepted; repeat split).
    assert (Adv : forall s2 : t T, none_accepted s s2 ->
               match advance ent fuel s2 with
               | Returned s' | Threw _ s' => none_accepted s s'
               | Looping => True
               end).
    { intros s2 R2. destruct (advance ent fuel s2) as [s'|what s'|] eqn:A; [| |exact I].
      - apply none_accepted_trans with s2; [exact R2|exact (advance_none_accepted _ _ _ _ A)].
      - destruct (advance_returns _ _ _ _ _ A). }
    destruct (state s1); try exact (Adv s1 R1).
    pose proof (complete_reanneal_keeps_best s1) as K.
    pose proof (complete_reanneal_frame s1) as F.
    destruct (complete_reanneal s1) as [s2|what s2|]; [| |exact I].
    + apply Adv. apply none_accepted_trans with s1; [exact R1|].
      destruct F as (_ & _ & _ & _ & _ & (Ph & _) & _).
      apply keeps_none_accepted; [|exact Ph].
      destruct K as (Kd & Kp & Kb). repeat split; assumption.
    + apply none_accepted_trans with s1; [exact R1|].
      destruct F as (_ & _ & _ & _ & _ & (Ph & _) & _).
      apply keeps_none_accepted; [exact K|exact Ph].
Qed.

Lemma transition_none_accepted (s s' : t T) : transition s s' -> none_accepted s s'.
Proof.
  intros Tr. destruct Tr as
    [s v|s v|s ent fuel s' St|s ent fuel what s' St|s|s s' Cr|s what s' Cr|s|s ent
    |s ent fuel s' G|s].
  - apply keeps_none_accepted; repeat split.
  - apply keeps_none_accepted; repeat split.
  - pose proof (step_none_accepted ent fuel s) as R. rewrite St in R. exact R.
  - pose proof (step_none_accepted ent fuel s) as R. rewrite St in R. exact R.
  - apply keeps_none_accepted; [apply stop_check_keeps_best|].
    unfold stop_check. destruct (stop_condition s); reflexivity.
  - pose proof (complete_reanneal_keeps_best s) as K. rewrite Cr in K.
    pose proof (complete_reanneal_frame s) as F. rewrite Cr in F.
    destruct F as (_ & _ & _ & _ & _ & (Ph & _) & _). apply keeps_none_accepted; assumption.
  - pose proof (complete_reanneal_keeps_best s) as K. rewrite Cr in K.
    pose proof (complete_reanneal_frame s) as F. rewrite Cr in F.
    destruct F as (_ & _ & _ & _ & _ & (Ph & _) & _). apply keeps_none_accepted; assumption.
  - apply keeps_none_accepted; [apply cooling_schedule_keeps_best|reflexivity].
  - apply acceptance_check_none_accepted.
  - destruct (generate_next_frame _ _ _ _ G) as (_ & _ & _ & _ & _ & _ & _ & (Ph & _) & _).
    apply keeps_none_accepted; [exact (generate_next_keeps_best _ _ _ _ G)|exact Ph].
  - destruct (reanneal_test_frame s) as (_ & _ & _ & _ & _ & _ & _ & (Ph & _) & _).
    apply keeps_none_accepted; [apply reanneal_test_keeps_best|exact Ph].
Qed.

(** Until a candidate is accepted, the best objective is the one [init]
    left, whatever the moves of the run. *)
Lemma before_first_acceptance (s s' : t T) : later s s' -> none_accepted s s'.
Proof.
  induction 1 as [s|s s' s'' L IH Tr]; [apply none_accepted_refl|].
  apply none_accepted_trans with s'; [exact IH|exact (transition_none_accepted _ _ Tr)].
Qed.

(** Right after [init], whatever [T] and the initial parameters: the three
    objectives are [max()] (downhill) or [lowest()] (uphill), the state is
    [NeedToCompute] and [x_cand] is the initial parameter vector. *)
Lemma init_sentinel (p : list T) (r : list (T * T)) (c0 : t T) :
  configured p r c0 ->
  let s0 := init c0 in
  let sentinel := if downhill c0 then max_value else lowest in
  (f_x s0 = sentinel /\ f_x_cand s0 = sentinel /\ f_x_best s0 = sentinel) /\
  (state s0 = NeedToCompute /\ x_cand s0 = p).
Proof.
  intros C. cbv zeta. destruct (configured_points p r c0 C) as (Xc & _ & _ & Dim & _).
  split; [repeat split|]. split; [reflexivity|].
  change (x_cand (init c0)) with (resize (D c0) zero (x_cand c0)).
  rewrite Dim, Xc. apply resize_same.
Qed.

(** A configured object has accepted nothing. *)
Lemma configured_history (p : list T) (r : list (T * T)) (s : t T) :
  configured p r s -> param_hist_accepted s = [].
Proof. induction 1; [reflexivity|..]; exact IHconfigured. Qed.

(** A candidate that is accepted while the best is still the one [init]
    left, and that passes the test against it. *)
Lemma accepted_against_sentinel (c0 : t T) (ent : Entropy T) (s : t T) :
  keeps_best (init c0) s ->
  improves (downhill c0) (objective_repeat_precision c0) (f_x_cand s)
           (if downhill c0 then max_value else lowest) = true ->
  (acceptance_probability s >=? rng_u_get ent (rng_u s)) = true ->
  let s' := acceptance_check ent s in
  param_hist_accepted s' = param_hist_accepted s ++ [x_cand s] /\
  x_best s' = x_cand s /\ f_x_best s' = f_x_cand s /\ f_x_best_repeats s' = 0%Z.
Proof.
  intros (Kd & Kp & Kb) I Acc. cbv zeta.
  assert (Im : improves_on_best s = true).
  { unfold improves_on_best. rewrite Kd, Kp, Kb. exact I. }
  unfold acceptance_check.
  destruct (acceptance_check_on_effect (rng_u_get ent (rng_u s)) s)
    as (_ & _ & _ & Xb & Fb & Rp & _ & _ & A & _).
  rewrite Acc, Im in *. cbn [andb] in *.
  repeat split; assumption.
Qed.

(** The candidate that is accepted first, when it passes the test against
    the best that [init] left. *)
Lemma first_accepted_is_best
    (p : list T) (r : list (T * T)) (c0 : t T) (ent : Entropy T) (s : t T) :
  configured p r c0 ->
  later (init c0) s ->
  param_hist_accepted s = [] ->
  improves (downhill c0) (objective_repeat_precision c0) (f_x_cand s)
           (if downhill c0 then max_value else lowest) = true ->
  (acceptance_probability s >=? rng_u_get ent (rng_u s)) = true ->
  let s' := acceptance_check ent s in
  param_hist_accepted s' = [x_cand s] /\
  x_best s' = x_cand s /\ f_x_best s' = f_x_cand s /\ f_x_best_repeats s' = 0%Z.
Proof.
  intros C L E I Acc. cbv zeta.
  destruct (before_first_acceptance _ _ L E) as (_ & K).
  destruct (accepted_against_sentinel c0 ent s K I Acc) as (A & R). cbv zeta in A.
  rewrite E in A. split; [exact A|exact R].
Qed.

(** The same in [advance]: when it leaves an accepted history that is not
    empty, having found it empty, its candidate has become the best. *)
Lemma first_acceptance_in_advance (c0 : t T) (ent : Entropy T) (fuel : nat) (s s' : t T) :
  keeps_best (init c0) s ->
  param_hist_accepted s = [] ->
  improves (downhill c0) (objective_repeat_precision c0) (f_x_cand s)
           (if downhill c0 then max_value else lowest) = true ->
  advance ent fuel s = Returned s' ->
  param_hist_accepted s' <> [] ->
  param_hist_accepted s' = [x_cand s] /\
  x_best s' = x_cand s /\ f_x_best s' = f_x_cand s /\ f_x_best_repeats s' = 0%Z.
Proof.
  intros K E I A Ne. unfold advance in A.
  destruct (generate_next _ _ _) as [s3|] eqn:G; [|discriminate].
  set (s1 := cooling_schedule s) in *.
  assert (K1 : keeps_best (init c0) s1) by exact K.
  assert (E1 : param_hist_accepted s1 = []) by exact E.
  assert (I1 : improves (downhill c0) (objective_repeat_precision c0) (f_x_cand s1)
                 (if downhill c0 then max_value else lowest) = true) by exact I.
  destruct (generate_next_frame _ _ _ _ G)
    as (_ & _ & _ & _ & (_ & _ & _ & Xb3 & Fb3) & _ & _ & (Ph3 & _) & (_ & _ & _ & _ & Rp3) & _).
  set (s4 := s3 <| k := uincr (k s3) |>
                <| k_r := uincr (k_r (s3 <| k := uincr (k s3) |>)) |>) in *.
  assert (F : param_hist_accepted s' = param_hist_accepted s3 /\ x_best s' = x_best s3
              /\ f_x_best s' = f_x_best s3 /\ f_x_best_repeats s' = f_x_best_repeats s3).
  { destruct (enable_reanneal s4).
    - destruct (reanneal_test_frame s4)
        as (_ & _ & _ & _ & (_ & _ & Xb5 & Fb5) & _ & _ & (Ph5 & _) & (_ & _ & _ & _ & Rp5)).
      destruct (reanneal_test s4) as [again s5]. cbn [snd] in *. injection A as <-.
      repeat split; assumption.
    - injection A as <-. repeat split. }
  destruct F as (Ph & Xb & Fb & Rp).
  rewrite Ph, Ph3 in Ne. rewrite Ph, Xb, Fb, Rp, Ph3, Xb3, Fb3, Rp3.
  assert (Acc : (acceptance_probability s1 >=? rng_u_get ent (rng_u s1)) = true).
  { destruct (rng_u_get ent (rng_u s1) <=? acceptance_probability s1) eqn:Acc; [reflexivity|].
    exfalso. apply Ne. unfold acceptance_check.
    destruct (acceptance_check_on_effect (rng_u_get ent (rng_u s1)) s1)
      as (_ & _ & _ & _ & _ & _ & _ & _ & A1 & _).
    rewrite Acc in A1. rewrite A1. exact E1. }
  destruct (accepted_against_sentinel c0 ent s1 K1 I1 Acc) as (A1 & R). cbv zeta in A1.
  rewrite E1 in A1. split; [exact A1|exact R].
Qed.

(** The same in [step]. *)
Lemma first_acceptance_in_step (c0 : t T) (ent : Entropy T) (fuel : nat) (s s' : t T) :
  keeps_best (init c0) s ->
  param_hist_accepted s = [] ->
  improves (downhill c0) (objective_repeat_precision c0) (f_x_cand s)
           (if downhill c0 then max_value else lowest) = true ->
  step ent fuel s = Returned s' ->
  param_hist_accepted s' <> [] ->
  param_hist_accepted s' = [x_cand s] /\
  x_best s' = x_cand s /\ f_x_best s' = f_x_cand s /\ f_x_best_repeats s' = 0%Z.
Proof.
  intros K E I S Ne. destruct (stop_condition s) as [why|] eqn:St.
  - rewrite (step_stops ent fuel s _ St) in S. injection S as <-.
    exfalso. apply Ne. exact E.
  - rewrite (step_goes_on ent fuel s St) in S. cbv zeta in S.
    set (s1 := s <| steps := uincr (steps s) |>) in *.
    destruct (state s1);
      try exact (first_acceptance_in_advance c0 ent fuel s1 s' K E I S Ne).
    pose proof (complete_reanneal_keeps_best s1) as Kc.
    pose proof (complete_reanneal_frame s1) as F.
    destruct (complete_reanneal s1) as [s2|what s2|]; try discriminate.
    destruct F as (_ & _ & _ & (_ & _ & Xc & Fc & _) & _ & (Ph & _) & _).
    destruct Kc as (Kd & Kp & Kb). destruct K as (Jd & Jp & Jb).
    change (x_cand s) with (x_cand s1). change (f_x_cand s) with (f_x_cand s1).
    rewrite <- Xc, <- Fc.
    refine (first_acceptance_in_advance c0 ent fuel _ s' _ _ _ S Ne).
    + repeat split; [rewrite <- Jd; exact Kd|rewrite <- Jp; exact Kp|rewrite <- Jb; exact Kb].
    + change (param_hist_accepted s2 = []). rewrite Ph. exact E.
    + change (improves (downhill c0) (objective_repeat_precision c0) (f_x_cand s2)
                (if downhill c0 then max_value else lowest) = true).
      rewrite Fc. exact I.
Qed.

End Protocol.

Section Determinism.
Context {T : Type} `{Scalar T}.
Local Open Scope scalar_scope.
Import vVector.










(** Where a run arrives is a state of the run. *)
Lemma client_reachable (objective : list T -> T) (s : t T) :
  reachable s -> reachable (client objective s).
Proof.
  intros R. unfold client. destruct (state s); try exact R.
  - apply reach_f_x_cand, R.
  - apply reach_f_x_plusdelta, R.
Qed.

Lemma run_reachable (objective : list T -> T) (ent : Entropy T) (fuel calls : nat) (s s' : t T) :
  reachable s -> run objective ent fuel calls s = Returned s' -> reachable s'.
Proof.
  revert s. induction calls as [|calls IH]; intros s R; simpl.
  - intros [= <-]. exact R.
  - destruct (stopped s); [intros [= <-]; exact R|].
    destruct (step ent fuel (client objective s)) as [s1| |] eqn:St; try discriminate.
    apply IH. exact (reach_step ent fuel (client_reachable objective _ R) St).
Qed.

(** [generate_next] leaves a point within the bounds in [x_cand]. *)
Lemma generate_next_within_bounds (ent : Entropy T) (fuel : nat) (s s' : t T) :
  generate_next ent fuel s = Some s' -> within_bounds s' (x_cand s') = true.
Proof.
  intros G. destruct (generate_next_inv _ _ _ _ G) as (j & x_new & B & ->). exact B.
Qed.

(** When [reanneal_test] says yes. *)
Lemma reanneal_test_verdict (s : t T) :
  fst (reanneal_test s) =
  negb (k_r s <? min_steps_to_reanneal)%Z
  && negb ((k_r s <? reanneal_after_steps s)%Z
           && (accepted_vs_generated s >=? acc_gen_reanneal_ratio s)).
Proof.
  unfold reanneal_test. destruct (k_r s <? min_steps_to_reanneal)%Z; [reflexivity|].
  destruct (_ && _); reflexivity.
Qed.

End Determinism.

(** ** The order laws hold for binary64 *)

Module IEEE.
Import Double.
Local Open Scope Z_scope.

Lemma digits2_bounds (m : positive) :
  2 ^ (Zpos (digits2_pos m) - 1) <= Zpos m < 2 ^ Zpos (digits2_pos m).
Proof.
  induction m as [m IH|m IH|]; simpl digits2_pos.
  - rewrite Pos2Z.inj_succ. replace (Z.succ (Zpos (digits2_pos m)) - 1) with (Z.succ (Zpos (digits2_pos m) - 1)) by lia.
    rewrite !Z.pow_succ_r by lia. lia.
  - rewrite Pos2Z.inj_succ. replace (Z.succ (Zpos (digits2_pos m)) - 1) with (Z.succ (Zpos (digits2_pos m) - 1)) by lia.
    rewrite !Z.pow_succ_r by lia. lia.
  - simpl. lia.
Qed.

(** What validity says of a finite number. *)
Lemma bounded_inv (m : positive) (e : Z) :
  bounded prec emax m e = true ->
  emin64 <= e <= 971 /\ Zpos m < 2 ^ 53 /\ (emin64 < e -> 2 ^ 52 <= Zpos m).
Proof.
  unfold bounded, canonical_mantissa, fexp, SpecFloat.emin, prec, emax, emin64.
  intros B. apply andb_prop in B. destruct B as [C L].
  apply Z.eqb_eq in C. apply Z.leb_le in L.
  pose proof (digits2_bounds m) as D.
  set (d := Zpos (digits2_pos m)) in *.
  assert (0 < d) by (subst d; lia).
  split; [lia|]. split.
  - assert (d <= 53) by lia.
    apply Z.lt_le_trans with (1 := proj2 D). apply Z.pow_le_mono_r; lia.
  - intros Hlt. assert (d = 53) by lia. replace 52 with (d - 1) by lia. apply D.
Qed.

Lemma pow_pos_lt (a k : Z) : 0 <= k -> 0 < a -> 0 < a * 2 ^ k.
Proof. intros. apply Z.mul_pos_pos; [assumption|]. apply Z.pow_pos_nonneg; lia. Qed.

Lemma finite_zval (m : positive) (e : Z) :
  bounded prec emax m e = true -> 0 < magnitude m e < huge.
Proof.
  unfold magnitude, huge. intros B. destruct (@bounded_inv _ _ B) as (E & M & _). split.
  - apply pow_pos_lt; lia.
  - apply Z.lt_le_trans with (2 ^ 53 * 2 ^ (e - emin64)).
    + apply Z.mul_lt_mono_pos_r; [apply Z.pow_pos_nonneg; lia|exact M].
    + rewrite <- Z.pow_add_r by lia. apply Z.pow_le_mono_r; unfold emin64 in *; lia.
Qed.

(** Two valid mantissas compare as the numbers do. *)
Lemma finite_compare (m1 m2 : positive) (e1 e2 : Z) :
  bounded prec emax m1 e1 = true ->
  bounded prec emax m2 e2 = true ->
  match e1 ?= e2 with
  | Lt => Lt
  | Gt => Gt
  | Eq => Pos.compare_cont Eq m1 m2
  end = (magnitude m1 e1 ?= magnitude m2 e2).
Proof.
  unfold magnitude. intros B1 B2.
  destruct (@bounded_inv _ _ B1) as (E1 & M1 & N1).
  destruct (@bounded_inv _ _ B2) as (E2 & M2 & N2).
  assert (Step : forall a b ea eb, emin64 <= ea -> ea < eb -> a < 2 ^ 53 -> 2 ^ 52 <= b ->
                   a * 2 ^ (ea - emin64) < b * 2 ^ (eb - emin64)).
  { intros a b ea eb Ha Hab A B.
    replace (eb - emin64) with ((ea - emin64) + (eb - ea)) by lia.
    rewrite Z.pow_add_r by lia.
    assert (0 < 2 ^ (ea - emin64)) by (apply Z.pow_pos_nonneg; lia).
    assert (2 ^ 1 <= 2 ^ (eb - ea)) by (apply Z.pow_le_mono_r; lia).
    assert (2 ^ 53 <= b * 2 ^ (eb - ea)).
    { change (2 ^ 53) with (2 ^ 52 * 2 ^ 1). apply Z.mul_le_mono_nonneg; lia. }
    rewrite (Z.mul_comm (2 ^ (ea - emin64))), Z.mul_assoc.
    apply Z.mul_lt_mono_pos_r; lia. }
  destruct (Z.compare_spec e1 e2) as [->|L|G].
  - symmetry. rewrite <- Zmult_compare_compat_r by (apply Z.lt_gt, Z.pow_pos_nonneg; lia).
    reflexivity.
  - symmetry. apply Z.compare_lt_iff. apply Step; lia.
  - symmetry. apply Z.compare_gt_iff. apply Step; lia.
Qed.

Lemma compare_zval (x y : spec_float) :
  SpecFloat.valid_binary prec emax x = true -> SpecFloat.valid_binary prec emax y = true ->
  sf_is_nan x = false -> sf_is_nan y = false ->
  SFcompare x y = Some (zval x ?= zval y).
Proof.
  intros Vx Vy Nx Ny.
  destruct x as [sx|sx| |sx mx ex], y as [sy|sy| |sy my ey]; try discriminate;
    cbn [SpecFloat.valid_binary] in Vx, Vy; cbv beta iota delta [SFcompare zval];
    try pose proof (@finite_zval _ _ Vx);
    try pose proof (@finite_zval _ _ Vy);
    assert (0 < huge) by (apply Z.pow_pos_nonneg; lia);
    try destruct sx; try destruct sy; cbv beta iota delta [cond_Zopp]; f_equal; symmetry;
    try first [ apply Z.compare_eq_iff; lia
              | apply Z.compare_lt_iff; lia
              | apply Z.compare_gt_iff; lia ].
  - rewrite Z.compare_opp, <- (@finite_compare _ _ _ _ Vy Vx).
    rewrite (Z.compare_antisym ey ex).
    destruct (ey ?= ex); try reflexivity.
    rewrite Pos.compare_cont_antisym. reflexivity.
  - symmetry. apply finite_compare; assumption.
Qed.

Lemma ltb_zval (x y : spec_float) :
  SpecFloat.valid_binary prec emax x = true -> SpecFloat.valid_binary prec emax y = true ->
  SFltb x y = true <-> (sf_is_nan x = false /\ sf_is_nan y = false /\ zval x < zval y).
Proof.
  intros Vx Vy. unfold SFltb.
  destruct (sf_is_nan x) eqn:Nx; [destruct x; try discriminate; simpl; intuition discriminate|].
  destruct (sf_is_nan y) eqn:Ny;
    [destruct y; try discriminate; destruct x; simpl; intuition discriminate|].
  rewrite (@compare_zval _ _ Vx Vy Nx Ny).
  destruct (Z.compare_spec (zval x) (zval y)); intuition (try discriminate; try lia).
Qed.

Lemma leb_zval (x y : spec_float) :
  SpecFloat.valid_binary prec emax x = true -> SpecFloat.valid_binary prec emax y = true ->
  SFleb x y = true -> sf_is_nan x = false /\ sf_is_nan y = false /\ zval x <= zval y.
Proof.
  intros Vx Vy. unfold SFleb.
  destruct (sf_is_nan x) eqn:Nx; [destruct x; try discriminate; simpl; intuition discriminate|].
  destruct (sf_is_nan y) eqn:Ny;
    [destruct y; try discriminate; destruct x; simpl; intuition discriminate|].
  rewrite (@compare_zval _ _ Vx Vy Nx Ny).
  destruct (Z.compare_spec (zval x) (zval y)); intuition (try discriminate; try lia).
Qed.

(** Rounding keeps the sign it is given. *)
Lemma round_aux_sign (s : bool) (m e : Z) (l : location) :
  match binary_round_aux prec emax s m e l with
  | S754_infinity s' | S754_finite s' _ _ => s' = s
  | _ => True
  end.
Proof.
  unfold binary_round_aux.
  destruct (shr_fexp prec emax m e l) as [mrs' e'].
  destruct (shr_fexp prec emax _ e' loc_Exact) as [mrs'' e''].
  destruct (shr_m mrs''); [exact I| |exact I].
  destruct (Z.leb e'' (emax - prec)); reflexivity.
Qed.

Lemma round_sign (s : bool) (m : positive) (e : Z) :
  match binary_round prec emax s m e with
  | S754_infinity s' | S754_finite s' _ _ => s' = s
  | _ => True
  end.
Proof.
  unfold binary_round. destruct (shl_align m e _) as [mz ez]. apply round_aux_sign.
Qed.

Lemma normalize_nonneg (z e : Z) : 0 <= z -> nonneg (binary_normalize prec emax z e false).
Proof.
  intros P. destruct z as [|m|m]; [exact I| |lia].
  unfold binary_normalize, nonneg. pose proof (round_sign false m e) as R.
  destruct (binary_round prec emax false m e); auto.
Qed.

Lemma normalize_nonpos (z e : Z) : z <= 0 -> nonpos (binary_normalize prec emax z e false).
Proof.
  intros P. destruct z as [|m|m]; [exact I|lia|].
  unfold binary_normalize, nonpos. pose proof (round_sign true m e) as R.
  destruct (binary_round prec emax true m e); auto.
Qed.

(** Aligning a mantissa to a smaller exponent keeps the number. *)
Lemma shl_align_fst (m : positive) (e e' : Z) :
  e' <= e -> Zpos (fst (shl_align m e e')) = Zpos m * 2 ^ (e - e').
Proof.
  intros L. unfold shl_align. destruct (e' - e) as [|d|d] eqn:D; [|lia|].
  - replace (e - e') with 0 by lia. simpl fst. lia.
  - simpl fst. replace (e - e') with (Zpos d) by lia.
    change (Pos.iter xO m d) with (shift_pos d m).
    rewrite shift_pos_correct, Z.pow_pos_fold. lia.
Qed.

Lemma aligned_magnitude (m : positive) (e e' : Z) :
  emin64 <= e' <= e ->
  Zpos (fst (shl_align m e e')) * 2 ^ (e' - emin64) = magnitude m e.
Proof.
  intros L. rewrite shl_align_fst by lia. unfold magnitude.
  rewrite <- Z.mul_assoc, <- Z.pow_add_r by lia. f_equal. f_equal. lia.
Qed.

Lemma cond_Zopp_mul (s : bool) (a b : Z) : cond_Zopp s a * b = cond_Zopp s (a * b).
Proof. destruct s; simpl; lia. Qed.

(** The integer whose sign [SFsub] and [SFadd] round, against [zval]. *)
Lemma aligned_zval (s : bool) (m : positive) (e e' : Z) :
  bounded prec emax m e = true -> emin64 <= e' <= e ->
  cond_Zopp s (Zpos (fst (shl_align m e e'))) * 2 ^ (e' - emin64)
  = zval (S754_finite s m e).
Proof.
  intros B L. rewrite cond_Zopp_mul, aligned_magnitude by lia. reflexivity.
Qed.

Lemma min_exponent (m1 m2 : positive) (e1 e2 : Z) :
  bounded prec emax m1 e1 = true -> bounded prec emax m2 e2 = true ->
  emin64 <= Z.min e1 e2 <= e1 /\ emin64 <= Z.min e1 e2 <= e2.
Proof.
  intros B1 B2.
  destruct (@bounded_inv _ _ B1) as (E1 & _). destruct (@bounded_inv _ _ B2) as (E2 & _). lia.
Qed.

Lemma sign_of_product (a k : Z) : 0 < k -> (0 <= a * k <-> 0 <= a) /\ (a * k <= 0 <-> a <= 0).
Proof. intros K. split; split; intros; nia. Qed.

Lemma finite_sub_zval (sx sy : bool) (mx my : positive) (ex ey : Z) :
  bounded prec emax mx ex = true -> bounded prec emax my ey = true ->
  let ez := Z.min ex ey in
  (cond_Zopp sx (Zpos (fst (shl_align mx ex ez)))
   - cond_Zopp sy (Zpos (fst (shl_align my ey ez)))) * 2 ^ (ez - emin64)
  = zval (S754_finite sx mx ex) - zval (S754_finite sy my ey).
Proof.
  intros Bx By ez. destruct (@min_exponent _ _ _ _ Bx By) as (Lx & Ly).
  rewrite Z.mul_sub_distr_r, !aligned_zval by assumption. reflexivity.
Qed.

Lemma finite_add_zval (sx sy : bool) (mx my : positive) (ex ey : Z) :
  bounded prec emax mx ex = true -> bounded prec emax my ey = true ->
  let ez := Z.min ex ey in
  (cond_Zopp sx (Zpos (fst (shl_align mx ex ez)))
   + cond_Zopp sy (Zpos (fst (shl_align my ey ez)))) * 2 ^ (ez - emin64)
  = zval (S754_finite sx mx ex) + zval (S754_finite sy my ey).
Proof.
  intros Bx By ez. destruct (@min_exponent _ _ _ _ Bx By) as (Lx & Ly).
  rewrite Z.mul_add_distr_r, !aligned_zval by assumption. reflexivity.
Qed.

(** The sign of a number that is not NaN is the sign of its [zval]. *)
Lemma zval_sign (x : spec_float) :
  SpecFloat.valid_binary prec emax x = true ->
  (0 <= zval x -> nonneg x) /\ (zval x <= 0 -> nonpos x).
Proof.
  intros V. assert (0 < huge) by (apply Z.pow_pos_nonneg; lia).
  destruct x as [s|s| |s m e]; cbn [SpecFloat.valid_binary] in V;
    try pose proof (@finite_zval _ _ V);
    unfold nonneg, nonpos, zval; try (split; intros; exact I);
    destruct s; cbv beta iota delta [cond_Zopp]; split; intros; try reflexivity; lia.
Qed.

Lemma zval_bound (x : spec_float) :
  SpecFloat.valid_binary prec emax x = true -> - huge <= zval x <= huge.
Proof.
  intros V. assert (0 < huge) by (apply Z.pow_pos_nonneg; lia).
  destruct x as [s|s| |s m e]; cbn [SpecFloat.valid_binary] in V;
    try pose proof (@finite_zval _ _ V); unfold zval;
    try destruct s; cbv beta iota delta [cond_Zopp]; lia.
Qed.

(** [x - y], rounded, has the sign of the exact difference (or is NaN). *)
Lemma sub_sign (x y : spec_float) :
  SpecFloat.valid_binary prec emax x = true -> SpecFloat.valid_binary prec emax y = true ->
  sf_is_nan x = false -> sf_is_nan y = false ->
  (zval y <= zval x -> nonneg (SFsub prec emax x y)) /\
  (zval x <= zval y -> nonpos (SFsub prec emax x y)).
Proof.
  intros Vx Vy Nx Ny. assert (0 < huge) by (apply Z.pow_pos_nonneg; lia).
  destruct x as [sx|sx| |sx mx ex], y as [sy|sy| |sy my ey]; try discriminate;
    cbn [SpecFloat.valid_binary] in Vx, Vy;
    try pose proof (@finite_zval _ _ Vx); try pose proof (@finite_zval _ _ Vy).
  all: try (unfold SFsub, zval, nonneg, nonpos;
            try destruct sx; try destruct sy; cbv beta iota delta [cond_Zopp negb];
            split; intros; first [exact I | reflexivity | lia]).
  cbv beta iota delta [SFsub].
  pose proof (@finite_sub_zval sx sy _ _ _ _ Vx Vy) as Hz. cbv zeta in Hz.
  destruct (@min_exponent _ _ _ _ Vx Vy) as (Lx & _).
  assert (K : 0 < 2 ^ (Z.min ex ey - emin64)) by (apply Z.pow_pos_nonneg; lia).
  destruct (@sign_of_product
              (cond_Zopp sx (Zpos (fst (shl_align mx ex (Z.min ex ey))))
               - cond_Zopp sy (Zpos (fst (shl_align my ey (Z.min ex ey))))) _ K) as (P & N).
  rewrite Hz in P, N. split; intros L.
  - apply normalize_nonneg, P. lia.
  - apply normalize_nonpos, N. lia.
Qed.

Lemma add_nonneg (x y : spec_float) :
  SpecFloat.valid_binary prec emax x = true -> SpecFloat.valid_binary prec emax y = true ->
  nonneg x -> nonneg y -> nonneg (SFadd prec emax x y).
Proof.
  intros Vx Vy Px Py.
  destruct x as [sx|sx| |sx mx ex], y as [sy|sy| |sy my ey];
    cbn [nonneg] in Px, Py; subst; try exact I; try reflexivity;
    try (destruct sx; exact I); try (destruct sy; exact I);
    try (destruct sx, sy; exact I).
  cbv beta iota delta [SFadd]. apply normalize_nonneg.
  cbv beta iota delta [cond_Zopp]. lia.
Qed.

Lemma sub_nonpos (x y : spec_float) :
  SpecFloat.valid_binary prec emax x = true -> SpecFloat.valid_binary prec emax y = true ->
  nonpos x -> nonneg y -> nonpos (SFsub prec emax x y).
Proof.
  intros Vx Vy Px Py.
  destruct x as [sx|sx| |sx mx ex], y as [sy|sy| |sy my ey];
    cbn [nonneg nonpos] in Px, Py; subst; try exact I; try reflexivity;
    try (destruct sx; exact I); try (destruct sy; exact I);
    try (destruct sx, sy; exact I).
  cbv beta iota delta [SFsub]. apply normalize_nonpos.
  cbv beta iota delta [cond_Zopp]. lia.
Qed.

Lemma nonneg_not_below_zero (x : spec_float) (s : bool) :
  nonneg x -> SFltb x (S754_zero s) = false.
Proof. destruct x as [sx|sx| |sx mx ex]; simpl; intros; subst; try destruct sx; reflexivity. Qed.

Lemma nonpos_not_above_zero (x : spec_float) (s : bool) :
  nonpos x -> SFltb (S754_zero s) x = false.
Proof. destruct x as [sx|sx| |sx mx ex]; simpl; intros; subst; try destruct sx; reflexivity. Qed.

(** *** The order laws for binary64 *)

Local Open Scope float_scope.

Lemma double_ltb_trans (a b c : float) :
  (a <? b) = true -> (b <? c) = true -> (a <? c) = true.
Proof.
  rewrite !ltb_spec. intros L1 L2.
  apply ltb_zval in L1; try apply Prim2SF_valid.
  apply ltb_zval in L2; try apply Prim2SF_valid.
  apply ltb_zval; try apply Prim2SF_valid.
  intuition lia.
Qed.

Lemma not_ltb_zval (a b : float) :
  (a <? b) = false ->
  sf_is_nan (Prim2SF a) = false -> sf_is_nan (Prim2SF b) = false ->
  (zval (Prim2SF b) <= zval (Prim2SF a))%Z.
Proof.
  rewrite ltb_spec. intros L Na Nb.
  destruct (Z.le_gt_cases (zval (Prim2SF b)) (zval (Prim2SF a))) as [|G]; [assumption|].
  assert (SFltb (Prim2SF a) (Prim2SF b) = true) as E
      by (apply ltb_zval; try apply Prim2SF_valid; auto).
  congruence.
Qed.

Lemma sub_nan (x y : spec_float) :
  sf_is_nan x = true \/ sf_is_nan y = true -> SFsub prec emax x y = S754_nan.
Proof. destruct x, y; simpl; intros [|]; try discriminate; reflexivity. Qed.

Lemma nonneg_after_sub (a b : float) : (a <? b) = false -> nonneg (Prim2SF (a - b)).
Proof.
  intros L. rewrite sub_spec. unfold SF64sub.
  destruct (sf_is_nan (Prim2SF a)) eqn:Na; [rewrite sub_nan by auto; exact I|].
  destruct (sf_is_nan (Prim2SF b)) eqn:Nb; [rewrite sub_nan by auto; exact I|].
  apply sub_sign; try apply Prim2SF_valid; try assumption.
  apply not_ltb_zval; assumption.
Qed.

Lemma nonpos_after_sub (a b : float) : (b <? a) = false -> nonpos (Prim2SF (a - b)).
Proof.
  intros L. rewrite sub_spec. unfold SF64sub.
  destruct (sf_is_nan (Prim2SF a)) eqn:Na; [rewrite sub_nan by auto; exact I|].
  destruct (sf_is_nan (Prim2SF b)) eqn:Nb; [rewrite sub_nan by auto; exact I|].
  apply sub_sign; try apply Prim2SF_valid; try assumption.
  apply not_ltb_zval; assumption.
Qed.

Lemma nonneg_tolerance (p : float) : (0 <=? p) = true -> nonneg (Prim2SF p).
Proof.
  rewrite leb_spec. change (Prim2SF 0) with (S754_zero false). intros L.
  apply leb_zval in L; try apply Prim2SF_valid; try reflexivity.
  destruct L as (_ & _ & L).
  apply zval_sign; [apply Prim2SF_valid|exact L].
Qed.

Lemma double_below (a b p : float) :
  (0 <=? p) = true -> (a - b + p <? 0) = true -> (a <? b) = true.
Proof.
  intros P L. destruct (a <? b) eqn:E; [reflexivity|exfalso].
  rewrite ltb_spec, add_spec in L. unfold SF64add in L.
  change (Prim2SF 0) with (S754_zero false) in L.
  rewrite nonneg_not_below_zero in L; [discriminate|].
  apply add_nonneg; try apply Prim2SF_valid.
  - apply nonneg_after_sub, E.
  - apply nonneg_tolerance, P.
Qed.

Lemma double_above (a b p : float) :
  (0 <=? p) = true -> (0 <? a - b - p) = true -> (b <? a) = true.
Proof.
  intros P L. destruct (b <? a) eqn:E; [reflexivity|exfalso].
  rewrite ltb_spec, sub_spec in L. unfold SF64sub in L.
  change (Prim2SF 0) with (S754_zero false) in L.
  rewrite nonpos_not_above_zero in L; [discriminate|].
  apply sub_nonpos; try apply Prim2SF_valid.
  - apply nonpos_after_sub, E.
  - apply nonneg_tolerance, P.
Qed.

(** IEEE binary64 satisfies the order laws. *)
Lemma double_order_laws : Anneal.OrderLaws float.
Proof.
  split.
  - exact double_ltb_trans.
  - exact double_below.
  - exact double_above.
Qed.

Local Open Scope Z_scope.

(** *** How far rounding moves a number *)

Lemma shr_1_m (mrs : shr_record) : 0 <= shr_m mrs -> shr_m (shr_1 mrs) = shr_m mrs / 2.
Proof.
  destruct mrs as [m r s]. cbn [shr_m]. intros P. rewrite <- Z.div2_div.
  destruct m as [|[p|p|]|p]; try reflexivity. lia.
Qed.

Lemma shr_iter_m (p : positive) (mrs : shr_record) :
  0 <= shr_m mrs -> shr_m (iter_pos shr_1 p mrs) = shr_m mrs / 2 ^ Zpos p.
Proof.
  assert (Pw : forall q : positive, 0 < 2 ^ Zpos q) by (intros; apply Z.pow_pos_nonneg; lia).
  revert mrs. induction p as [p IH|p IH|]; intros mrs P; cbn [iter_pos].
  - assert (P1 : 0 <= shr_m (shr_1 mrs)) by (rewrite shr_1_m by exact P; apply Z.div_pos; lia).
    assert (P2 : 0 <= shr_m (iter_pos shr_1 p (shr_1 mrs)))
      by (rewrite IH by exact P1; apply Z.div_pos; [exact P1|apply Pw]).
    rewrite IH by exact P2. rewrite IH by exact P1. rewrite shr_1_m by exact P.
    pose proof (Pw p). rewrite !Z.div_div by lia. f_equal.
    replace (Zpos p~1) with (Z.succ (Zpos p + Zpos p)) by lia.
    rewrite Z.pow_succ_r, Z.pow_add_r by lia. ring.
  - assert (P2 : 0 <= shr_m (iter_pos shr_1 p mrs))
      by (rewrite IH by exact P; apply Z.div_pos; [exact P|apply Pw]).
    rewrite IH by exact P2. rewrite IH by exact P.
    pose proof (Pw p). rewrite !Z.div_div by lia. f_equal.
    replace (Zpos p~0) with (Zpos p + Zpos p) by lia.
    rewrite Z.pow_add_r by lia. reflexivity.
  - rewrite shr_1_m by exact P. reflexivity.
Qed.

(** [shr] divides the mantissa by [2^n] and raises the exponent by [n]. *)
Lemma shr_spec (mrs : shr_record) (e n : Z) :
  0 <= shr_m mrs ->
  shr_m (fst (shr mrs e n)) = shr_m mrs / 2 ^ Z.max 0 n /\
  snd (shr mrs e n) = e + Z.max 0 n.
Proof.
  intros P. destruct n as [|p|p]; cbn [shr fst snd].
  - change (Z.max 0 0) with 0. rewrite Z.pow_0_r, Z.div_1_r. lia.
  - replace (Z.max 0 (Zpos p)) with (Zpos p) by lia. split; [apply shr_iter_m, P|reflexivity].
  - replace (Z.max 0 (Zneg p)) with 0 by lia. rewrite Z.pow_0_r, Z.div_1_r. lia.
Qed.

(** A mantissa is divided by no more than itself. *)
Lemma shift_small (m : positive) (e : Z) :
  emin64 <= e ->
  let n := fexp prec emax (Zdigits2 (Zpos m) + e) - e in
  0 <= Z.max 0 n /\ 2 ^ Z.max 0 n <= Zpos m.
Proof.
  intros E n. pose proof (digits2_bounds m) as D.
  assert (N : Z.max 0 n <= Zpos (digits2_pos m) - 1).
  { subst n. unfold fexp, SpecFloat.emin, prec, emax, emin64 in *. cbn [Zdigits2]. lia. }
  split; [lia|].
  apply Z.le_trans with (2 ^ (Zpos (digits2_pos m) - 1)); [|apply D].
  apply Z.pow_le_mono_r; lia.
Qed.

Lemma div_pow_half (m b : Z) : 0 < b -> b <= m -> 1 <= m / b /\ m <= 2 * (m / b) * b.
Proof.
  intros B M. pose proof (Z.div_mod m b ltac:(lia)) as Dm.
  pose proof (Z.mod_pos_bound m b B) as R.
  assert (Q : 1 <= m / b) by (apply Z.div_le_lower_bound; lia).
  split; [exact Q|]. nia.
Qed.

Lemma round_nearest_even_bounds (m : Z) (l : location) :
  m <= round_nearest_even m l <= m + 1.
Proof. destruct l as [|[]]; cbn [round_nearest_even]; try destruct (Z.even m); lia. Qed.

(** Rounding a positive integer [m * 2^e] gives a number of the same sign,
    no less than a quarter of it in magnitude, or the infinity of that
    sign. *)
Lemma round_aux_far (s : bool) (m : positive) (e : Z) :
  emin64 <= e ->
  match binary_round_aux prec emax s (Zpos m) e loc_Exact with
  | S754_finite s' m' e' => s' = s /\ Zpos m * 2 ^ (e - emin64) <= 4 * magnitude m' e'
  | S754_infinity s' => s' = s
  | _ => False
  end.
Proof.
  intros E. unfold binary_round_aux, shr_fexp.
  destruct (shift_small m e E) as (K1 & B1).
  set (n1 := fexp prec emax (Zdigits2 (Zpos m) + e) - e) in *.
  destruct (shr_spec (shr_record_of_loc (Zpos m) loc_Exact) e n1 ltac:(cbn; lia)) as (M1 & E1).
  destruct (shr _ e n1) as [mrs1 e1]. cbn [fst snd shr_record_of_loc shr_m] in M1, E1.
  assert (P1 : 0 < 2 ^ Z.max 0 n1) by (apply Z.pow_pos_nonneg; lia).
  destruct (div_pow_half (Zpos m) _ P1 B1) as (Q1 & H1). rewrite <- M1 in Q1, H1.
  pose proof (round_nearest_even_bounds (shr_m mrs1) (loc_of_shr_record mrs1)) as R.
  set (m2 := round_nearest_even (shr_m mrs1) (loc_of_shr_record mrs1)) in *.
  destruct m2 as [|p2|p2] eqn:Em2; try lia.
  assert (E1' : emin64 <= e1) by lia.
  destruct (shift_small p2 e1 E1') as (K2 & B2).
  set (n2 := fexp prec emax (Zdigits2 (Zpos p2) + e1) - e1) in *.
  destruct (shr_spec (shr_record_of_loc (Zpos p2) loc_Exact) e1 n2 ltac:(cbn; lia)) as (M3 & E3).
  destruct (shr _ e1 n2) as [mrs3 e3]. cbn [fst snd shr_record_of_loc shr_m] in M3, E3.
  assert (P2 : 0 < 2 ^ Z.max 0 n2) by (apply Z.pow_pos_nonneg; lia).
  destruct (div_pow_half (Zpos p2) _ P2 B2) as (Q3 & H3). rewrite <- M3 in Q3, H3.
  destruct (shr_m mrs3) as [|m3|m3] eqn:Em3; try lia.
  destruct (e3 <=? emax - prec); [|reflexivity].
  split; [reflexivity|]. unfold magnitude.
  replace (e3 - emin64) with ((e - emin64) + Z.max 0 n1 + Z.max 0 n2) by lia.
  rewrite !Z.pow_add_r by lia.
  assert (P0 : 0 < 2 ^ (e - emin64)) by (apply Z.pow_pos_nonneg; lia).
  set (a := 2 ^ (e - emin64)) in *. set (b := 2 ^ Z.max 0 n1) in *. set (c := 2 ^ Z.max 0 n2) in *.
  assert (Zpos m <= 4 * (Zpos m3 * b * c)) by nia.
  nia.
Qed.

Lemma shl_align_spec (m : positive) (e e' : Z) :
  snd (shl_align m e e') = Z.min e e' /\
  Zpos (fst (shl_align m e e')) = Zpos m * 2 ^ (e - Z.min e e').
Proof.
  destruct (Z.le_gt_cases e e') as [L|G].
  - unfold shl_align. destruct (e' - e) as [|d|d] eqn:D; try lia;
      cbn [fst snd]; replace (Z.min e e') with e by lia;
      rewrite Z.sub_diag, Z.pow_0_r; lia.
  - rewrite shl_align_fst by lia. replace (Z.min e e') with e' by lia.
    split; [|reflexivity]. unfold shl_align. destruct (e' - e) as [|d|d] eqn:D; try lia.
    reflexivity.
Qed.

Lemma round_far (s : bool) (m : positive) (e : Z) :
  emin64 <= e ->
  match binary_round prec emax s m e with
  | S754_finite s' m' e' => s' = s /\ Zpos m * 2 ^ (e - emin64) <= 4 * magnitude m' e'
  | S754_infinity s' => s' = s
  | _ => False
  end.
Proof.
  intros E. unfold binary_round.
  destruct (shl_align_spec m e (fexp prec emax (Zpos (digits2_pos m) + e))) as (Ez & Mz).
  destruct (shl_align m e _) as [mz ez]. cbn [fst snd] in Ez, Mz.
  assert (E' : emin64 <= ez /\ ez <= e).
  { subst ez. unfold fexp, SpecFloat.emin, prec, emax, emin64 in *. lia. }
  pose proof (round_aux_far s mz ez (proj1 E')) as R.
  destruct (binary_round_aux prec emax s (Zpos mz) ez loc_Exact) as [| | |s' m' e']; try exact R.
  destruct R as (Sg & B). split; [exact Sg|].
  rewrite Mz in B. rewrite <- Ez in B.
  rewrite <- Z.mul_assoc, <- Z.pow_add_r in B by lia.
  replace (e - ez + (ez - emin64)) with (e - emin64) in B by lia. exact B.
Qed.

(** The rounding [SFadd] and [SFsub] end with: the result is not NaN when
    the integer rounded is not zero, and is no nearer to zero than a
    quarter of it. *)
Lemma normalize_far (z e : Z) :
  emin64 <= e ->
  Z.abs z * 2 ^ (e - emin64) <= 4 * huge ->
  let r := binary_normalize prec emax z e false in
  (z <> 0 -> sf_is_nan r = false) /\
  (0 < z -> z * 2 ^ (e - emin64) <= 4 * zval r) /\
  (z < 0 -> 4 * zval r <= z * 2 ^ (e - emin64)).
Proof.
  intros E Hu. cbv zeta. destruct z as [|m|m]; cbn [binary_normalize].
  - repeat split; intros; lia.
  - pose proof (round_far false m e E) as R.
    destruct (binary_round prec emax false m e) as [|s'| |s' m' e']; try contradiction.
    + subst s'. cbn [zval sf_is_nan cond_Zopp]. repeat split; intros; lia.
    + destruct R as (-> & B). cbn [zval sf_is_nan cond_Zopp]. repeat split; intros; lia.
  - pose proof (round_far true m e E) as R.
    destruct (binary_round prec emax true m e) as [|s'| |s' m' e']; try contradiction.
    + subst s'. cbn [zval sf_is_nan cond_Zopp]. repeat split; intros; try lia.
    + destruct R as (-> & B). cbn [zval sf_is_nan cond_Zopp].
      repeat split; intros; try lia.
Qed.

(** [x - y], rounded, is no nearer to zero than a quarter of the exact
    difference, and is a number when the difference is not zero. *)
Lemma sub_far (x y : spec_float) :
  SpecFloat.valid_binary prec emax x = true -> SpecFloat.valid_binary prec emax y = true ->
  sf_is_nan x = false -> sf_is_nan y = false ->
  let r := SFsub prec emax x y in
  (zval x <> zval y -> sf_is_nan r = false) /\
  (zval x < zval y -> 4 * zval r <= zval x - zval y) /\
  (zval y < zval x -> zval x - zval y <= 4 * zval r).
Proof.
  intros Vx Vy Nx Ny. cbv zeta. assert (0 < huge) by (apply Z.pow_pos_nonneg; lia).
  pose proof (zval_bound x Vx) as Bx. pose proof (zval_bound y Vy) as By.
  destruct x as [sx|sx| |sx mx ex], y as [sy|sy| |sy my ey]; try discriminate;
    cbn [SpecFloat.valid_binary] in Vx, Vy;
    try pose proof (@finite_zval _ _ Vx); try pose proof (@finite_zval _ _ Vy).
  all: try (unfold SFsub; unfold zval in *;
            try destruct sx; try destruct sy;
            cbv beta iota delta [cond_Zopp negb sf_is_nan zval] in *;
            repeat split; intros; first [reflexivity | lia]).
  cbv beta iota delta [SFsub].
  pose proof (@finite_sub_zval sx sy _ _ _ _ Vx Vy) as Hz. cbv zeta in Hz.
  destruct (@min_exponent _ _ _ _ Vx Vy) as (Lx & _).
  set (z := cond_Zopp sx (Zpos (fst (shl_align mx ex (Z.min ex ey))))
            - cond_Zopp sy (Zpos (fst (shl_align my ey (Z.min ex ey))))) in *.
  assert (K : 0 < 2 ^ (Z.min ex ey - emin64)) by (apply Z.pow_pos_nonneg; lia).
  assert (Hu : Z.abs z * 2 ^ (Z.min ex ey - emin64) <= 4 * huge).
  { destruct (Z.abs_spec z) as [(_ & ->)|(_ & ->)]; [|rewrite Z.mul_opp_l]; rewrite Hz; lia. }
  destruct (normalize_far z _ (proj1 Lx) Hu) as (Nn & Pos & Neg).
  rewrite Hz in Pos, Neg.
  repeat split; intros D.
  - apply Nn. intros Z0. rewrite Z0 in Hz. lia.
  - apply Neg. nia.
  - apply Pos. nia.
Qed.

Lemma add_far (x y : spec_float) :
  SpecFloat.valid_binary prec emax x = true -> SpecFloat.valid_binary prec emax y = true ->
  sf_is_nan x = false -> sf_is_nan y = false ->
  let r := SFadd prec emax x y in
  (zval x + zval y <> 0 -> sf_is_nan r = false) /\
  (zval x + zval y < 0 -> 4 * zval r <= zval x + zval y) /\
  (0 < zval x + zval y -> zval x + zval y <= 4 * zval r).
Proof.
  intros Vx Vy Nx Ny. cbv zeta. assert (0 < huge) by (apply Z.pow_pos_nonneg; lia).
  pose proof (zval_bound x Vx) as Bx. pose proof (zval_bound y Vy) as By.
  destruct x as [sx|sx| |sx mx ex], y as [sy|sy| |sy my ey]; try discriminate;
    cbn [SpecFloat.valid_binary] in Vx, Vy;
    try pose proof (@finite_zval _ _ Vx); try pose proof (@finite_zval _ _ Vy).
  all: try (unfold SFadd; unfold zval in *;
            try destruct sx; try destruct sy;
            cbv beta iota delta [cond_Zopp negb sf_is_nan zval] in *;
            repeat split; intros; first [reflexivity | lia]).
  cbv beta iota delta [SFadd].
  pose proof (@finite_add_zval sx sy _ _ _ _ Vx Vy) as Hz. cbv zeta in Hz.
  destruct (@min_exponent _ _ _ _ Vx Vy) as (Lx & _).
  set (z := cond_Zopp sx (Zpos (fst (shl_align mx ex (Z.min ex ey))))
            + cond_Zopp sy (Zpos (fst (shl_align my ey (Z.min ex ey))))) in *.
  assert (K : 0 < 2 ^ (Z.min ex ey - emin64)) by (apply Z.pow_pos_nonneg; lia).
  assert (Hu : Z.abs z * 2 ^ (Z.min ex ey - emin64) <= 4 * huge).
  { destruct (Z.abs_spec z) as [(_ & ->)|(_ & ->)]; [|rewrite Z.mul_opp_l]; rewrite Hz; lia. }
  destruct (normalize_far z _ (proj1 Lx) Hu) as (Nn & Pos & Neg).
  rewrite Hz in Pos, Neg.
  repeat split; intros D.
  - apply Nn. intros Z0. rewrite Z0 in Hz. lia.
  - apply Neg. nia.
  - apply Pos. nia.
Qed.

(** *** The first candidate against the initial best *)

(** A finite number below [max()] is below it by an ulp of [max()],
    [2^971], at least. *)
Lemma magnitude_gap (m : positive) (e : Z) :
  bounded prec emax m e = true ->
  magnitude m e < (2 ^ 53 - 1) * 2 ^ 2045 ->
  magnitude m e <= (2 ^ 53 - 2) * 2 ^ 2045.
Proof.
  intros B L. destruct (bounded_inv _ _ B) as (E & M & _). unfold magnitude in *.
  destruct (Z.eq_dec e 971) as [->|Ne].
  - change (971 - emin64) with 2045 in *. nia.
  - assert (P : 2 * 2 ^ (e - emin64) <= 2 ^ 2045).
    { change (2 ^ 2045) with (2 ^ Z.succ 2044). rewrite Z.pow_succ_r by lia.
      apply Z.mul_le_mono_nonneg_l; [lia|]. apply Z.pow_le_mono_r; unfold emin64 in *; lia. }
    assert (0 < 2 ^ (e - emin64)) by (apply Z.pow_pos_nonneg; lia).
    nia.
Qed.

Lemma below_max_gap (x : spec_float) :
  SpecFloat.valid_binary prec emax x = true ->
  zval x < (2 ^ 53 - 1) * 2 ^ 2045 -> zval x <= (2 ^ 53 - 2) * 2 ^ 2045.
Proof.
  intros V L. destruct x as [s|s| |s m e]; cbn [SpecFloat.valid_binary zval] in *;
    try pose proof (finite_zval _ _ V); try pose proof (magnitude_gap _ _ V);
    try destruct s; unfold huge in *; cbv beta iota delta [cond_Zopp] in *; lia.
Qed.

Lemma above_lowest_gap (x : spec_float) :
  SpecFloat.valid_binary prec emax x = true ->
  - ((2 ^ 53 - 1) * 2 ^ 2045) < zval x -> - ((2 ^ 53 - 2) * 2 ^ 2045) <= zval x.
Proof.
  intros V L. destruct x as [s|s| |s m e]; cbn [SpecFloat.valid_binary zval] in *;
    try pose proof (finite_zval _ _ V); try pose proof (magnitude_gap _ _ V);
    try destruct s; unfold huge in *; cbv beta iota delta [cond_Zopp] in *; lia.
Qed.

Local Open Scope float_scope.

(** Downhill: a candidate whose objective is below [max()] passes the test
    against [max()], for every tolerance from 0 to [2^968]. *)
Lemma improves_at_max (v p : float) :
  (v <? 0x1.fffffffffffffp+1023) = true ->
  (0 <=? p) = true -> (p <=? 0x1p+968) = true ->
  (v - 0x1.fffffffffffffp+1023 + p <? 0) = true.
Proof.
  rewrite !ltb_spec, !leb_spec. intros Lv P0 P1.
  pose proof (Prim2SF_valid (v - 0x1.fffffffffffffp+1023)) as Vr.
  pose proof (Prim2SF_valid (v - 0x1.fffffffffffffp+1023 + p)) as Vs.
  rewrite add_spec in *. rewrite sub_spec in *. unfold SF64add, SF64sub in *.
  change (Prim2SF 0x1.fffffffffffffp+1023) with (S754_finite false 9007199254740991 971) in *.
  change (Prim2SF 0x1p+968) with (S754_finite false 4503599627370496 916) in *.
  change (Prim2SF 0) with (S754_zero false) in *.
  apply ltb_zval in Lv; [|apply Prim2SF_valid|reflexivity]. destruct Lv as (Nv & _ & Lv).
  apply leb_zval in P0; [|reflexivity|apply Prim2SF_valid]. destruct P0 as (_ & Np & P0).
  apply leb_zval in P1; [|apply Prim2SF_valid|reflexivity]. destruct P1 as (_ & _ & P1).
  pose proof (below_max_gap _ (Prim2SF_valid v)) as Gap.
  change (zval (S754_finite false 9007199254740991 971)) with ((2 ^ 53 - 1) * 2 ^ 2045)%Z in *.
  change (zval (S754_finite false 4503599627370496 916)) with (2 ^ 2042)%Z in *.
  change (zval (S754_zero false)) with 0%Z in *.
  specialize (Gap Lv).
  destruct (sub_far (Prim2SF v) (S754_finite false 9007199254740991 971)
              (Prim2SF_valid v) eq_refl Nv eq_refl) as (Nr & Br & _).
  change (zval (S754_finite false 9007199254740991 971)) with ((2 ^ 53 - 1) * 2 ^ 2045)%Z in *.
  specialize (Nr ltac:(lia)). specialize (Br Lv).
  set (r := SFsub prec emax (Prim2SF v) (S754_finite false 9007199254740991 971)) in *.
  destruct (add_far r (Prim2SF p) Vr (Prim2SF_valid p) Nr Np) as (Ns & Bs & _).
  specialize (Ns ltac:(lia)). specialize (Bs ltac:(lia)).
  apply ltb_zval; [exact Vs|reflexivity|].
  split; [exact Ns|]. split; [reflexivity|].
  change (zval (S754_zero false)) with 0%Z. lia.
Qed.

(** Uphill: a candidate whose objective is above [lowest()] passes the
    test against [lowest()]. *)
Lemma improves_at_lowest (v p : float) :
  (-0x1.fffffffffffffp+1023 <? v) = true ->
  (0 <=? p) = true -> (p <=? 0x1p+968) = true ->
  (0 <? v - -0x1.fffffffffffffp+1023 - p) = true.
Proof.
  rewrite !ltb_spec, !leb_spec. intros Lv P0 P1.
  pose proof (Prim2SF_valid (v - -0x1.fffffffffffffp+1023)) as Vr.
  pose proof (Prim2SF_valid (v - -0x1.fffffffffffffp+1023 - p)) as Vs.
  rewrite !sub_spec in *. unfold SF64sub in *.
  change (Prim2SF (-0x1.fffffffffffffp+1023)) with (S754_finite true 9007199254740991 971) in *.
  change (Prim2SF 0x1p+968) with (S754_finite false 4503599627370496 916) in *.
  change (Prim2SF 0) with (S754_zero false) in *.
  apply ltb_zval in Lv; [|reflexivity|apply Prim2SF_valid]. destruct Lv as (_ & Nv & Lv).
  apply leb_zval in P0; [|reflexivity|apply Prim2SF_valid]. destruct P0 as (_ & Np & P0).
  apply leb_zval in P1; [|apply Prim2SF_valid|reflexivity]. destruct P1 as (_ & _ & P1).
  pose proof (above_lowest_gap _ (Prim2SF_valid v)) as Gap.
  change (zval (S754_finite true 9007199254740991 971)) with (- ((2 ^ 53 - 1) * 2 ^ 2045))%Z in *.
  change (zval (S754_finite false 4503599627370496 916)) with (2 ^ 2042)%Z in *.
  change (zval (S754_zero false)) with 0%Z in *.
  specialize (Gap Lv).
  destruct (sub_far (Prim2SF v) (S754_finite true 9007199254740991 971)
              (Prim2SF_valid v) eq_refl Nv eq_refl) as (Nr & _ & Br).
  change (zval (S754_finite true 9007199254740991 971)) with (- ((2 ^ 53 - 1) * 2 ^ 2045))%Z in *.
  specialize (Nr ltac:(lia)). specialize (Br Lv).
  set (r := SFsub prec emax (Prim2SF v) (S754_finite true 9007199254740991 971)) in *.
  destruct (sub_far r (Prim2SF p) Vr (Prim2SF_valid p) Nr Np) as (Ns & _ & Bs).
  specialize (Ns ltac:(lia)). specialize (Bs ltac:(lia)).
  apply ltb_zval; [reflexivity|exact Vs|].
  split; [reflexivity|]. split; [exact Ns|].
  change (zval (S754_zero false)) with 0%Z. lia.
Qed.

(** The test of [acceptance_check] against the initial best. *)
Lemma first_candidate_improves (dh : bool) (p v : float) :
  (0 <=? p) = true -> (p <=? 0x1p+968) = true ->
  (if dh then v <? max_value else lowest <? v) = true ->
  improves dh p v (if dh then max_value else lowest) = true.
Proof.
  intros P0 P1 B. unfold improves. destruct dh; cbn [andb orb negb].
  - rewrite orb_false_r. exact (improves_at_max v p B P0 P1).
  - exact (improves_at_lowest v p B P0 P1).
Qed.

(** *** A value against itself *)

Lemma ltb_irrefl (v : float) : (v <? v) = false.
Proof.
  destruct (v <? v) eqn:E; [|reflexivity]. rewrite ltb_spec in E.
  apply ltb_zval in E; try apply Prim2SF_valid. destruct E as (_ & _ & E). lia.
Qed.

(** No value improves on itself, whatever the direction, for a tolerance
    that is not negative. *)
Lemma no_self_improvement (dh : bool) (p v : float) :
  (0 <=? p) = true -> improves dh p v v = false.
Proof.
  intros P0. unfold improves. destruct dh; cbn [andb orb negb].
  - rewrite orb_false_r. destruct (_ <? _)%sc eqn:E; [|reflexivity].
    pose proof (double_below v v p P0 E). pose proof (ltb_irrefl v). congruence.
  - destruct (_ <? _)%sc eqn:E; [|reflexivity].
    pose proof (double_above v v p P0 E). pose proof (ltb_irrefl v). congruence.
Qed.

(** A double that is neither NaN nor an infinity. *)
Lemma finite_cases (v : float) :
  PrimFloat.is_nan v = false -> PrimFloat.is_infinity v = false ->
  match Prim2SF v with
  | S754_zero _ | S754_finite _ _ _ => True
  | _ => False
  end.
Proof.
  unfold PrimFloat.is_nan, PrimFloat.is_infinity. rewrite !eqb_spec, abs_spec.
  change (Prim2SF infinity) with (S754_infinity false).
  destruct (Prim2SF v) as [s|s| |s m e]; cbn; try discriminate; auto.
Qed.

(** [v - v] is [+0] for a finite [v]. *)
Lemma sub_self (v : float) :
  PrimFloat.is_nan v = false -> PrimFloat.is_infinity v = false ->
  Prim2SF (v - v) = S754_zero false.
Proof.
  intros N I. pose proof (finite_cases v N I) as F. rewrite sub_spec. unfold SF64sub.
  destruct (Prim2SF v) as [s|s| |s m e]; try contradiction.
  - destruct s; reflexivity.
  - cbv beta iota zeta delta [SFsub]. rewrite Z.sub_diag. reflexivity.
Qed.

(** A finite value is within every tolerance of itself. *)
Lemma repeats_itself (p v : float) :
  PrimFloat.is_nan v = false -> PrimFloat.is_infinity v = false ->
  (0 <=? p) = true -> (abs (v - v) <=? p) = true.
Proof.
  intros N I P0. rewrite leb_spec in *. rewrite abs_spec, (sub_self v N I). exact P0.
Qed.
End IEEE.

(** ** The first candidates, on doubles *)

Section FirstCandidates.
Import Double.
Local Open Scope float_scope.

(** C10, as amended.  Right after [init], [f_x], [f_x_cand] and [f_x_best]
    are [max()] (downhill) or [lowest()] (uphill), whatever the initial
    parameters; the state is [NeedToCompute] and [x_cand] is the initial
    parameter vector, so the first objective the client is asked for is the
    one of the initial point.  And the candidate that is accepted first, at
    whatever point of the run, becomes [x_best]/[f_x_best] and leaves
    [f_x_best_repeats] at 0, when its objective is below [max()] (above
    [lowest()] when uphill) and [objective_repeat_precision] is between 0
    and [2^968]: so for an acceptance check that accepts, and so for the
    call of [step] that leaves the first entry in the accepted history.
    ([T] is [double] here.) *)
Theorem init_sentinel_and_first_best
    (p : list float) (r : list (float * float)) (c0 : t float) :
  configured p r c0 ->
  let s0 := init c0 in
  let sentinel := if downhill c0 then max_value else lowest in
  (f_x s0 = sentinel /\ f_x_cand s0 = sentinel /\ f_x_best s0 = sentinel) /\
  (state s0 = NeedToCompute /\ x_cand s0 = p) /\
  (forall (ent : Entropy float) (s : t float),
      (0 <=? objective_repeat_precision c0) = true ->
      (objective_repeat_precision c0 <=? 0x1p+968) = true ->
      later s0 s ->
      param_hist_accepted s = [] ->
      (if downhill c0 then f_x_cand s <? max_value else lowest <? f_x_cand s) = true ->
      (rng_u_get ent (rng_u s) <=? acceptance_probability s) = true ->
      let s' := acceptance_check ent s in
      param_hist_accepted s' = [x_cand s] /\
      x_best s' = x_cand s /\ f_x_best s' = f_x_cand s /\ f_x_best_repeats s' = 0%Z) /\
  (forall (ent : Entropy float) (fuel : nat) (s s' : t float),
      (0 <=? objective_repeat_precision c0) = true ->
      (objective_repeat_precision c0 <=? 0x1p+968) = true ->
      later s0 s ->
      param_hist_accepted s = [] ->
      (if downhill c0 then f_x_cand s <? max_value else lowest <? f_x_cand s) = true ->
      step ent fuel s = Returned s' ->
      param_hist_accepted s' <> [] ->
      param_hist_accepted s' = [x_cand s] /\
      x_best s' = x_cand s /\ f_x_best s' = f_x_cand s /\ f_x_best_repeats s' = 0%Z).
Proof.
  intros C. cbv zeta. destruct (init_sentinel p r c0 C) as (A & B).
  split; [exact A|]. split; [exact B|]. split.
  - intros ent s P0 P1 L E Bd Acc.
    apply (first_accepted_is_best p r c0 ent s C L E); [|exact Acc].
    apply IEEE.first_candidate_improves; assumption.
  - intros ent fuel s s' P0 P1 L E Bd St Ne.
    destruct (before_first_acceptance _ _ L E) as (_ & K).
    apply (first_acceptance_in_step c0 ent fuel s s' K E); [|exact St|exact Ne].
    apply IEEE.first_candidate_improves; assumption.
Qed.

(** C8, as amended.  With [f_x_best_repeat_max = 1], an
    [objective_repeat_precision] between 0 and [2^968], and an objective
    that is the same finite value [v] everywhere, other than the initial
    best ([v < max()] downhill, [v > lowest()] uphill): when the first two
    calls of [step] accept their candidates, the run does not stop after
    the first accepted candidate, which becomes the best and leaves the
    repeat count at 0; after the second accepted candidate the count is 1,
    and the next call of [step] (when none of the stopping conditions on
    the temperatures holds, which come first) returns with
    [state = ReadyToStop] and [reason_for_exit = f_x_best_repeated].  ([T]
    is [double] here.) *)
Theorem repeat_stop_after_second_acceptance
    (ent : Entropy float) (fuel : nat) (p : list float) (r : list (float * float))
    (c0 s1 s2 : t float) (v : float) :
  configured p r c0 ->
  f_x_best_repeat_max c0 = 1%Z ->
  (0 <=? objective_repeat_precision c0) = true ->
  (objective_repeat_precision c0 <=? 0x1p+968) = true ->
  PrimFloat.is_nan v = false -> PrimFloat.is_infinity v = false ->
  (if downhill c0 then v <? max_value else lowest <? v) = true ->
  step ent fuel ((init c0) <| f_x_cand := v |>) = Returned s1 ->
  num_accepted s1 = 1%Z ->
  step ent fuel (s1 <| f_x_cand := v |>) = Returned s2 ->
  num_accepted s2 = 2%Z ->
  exit_at_T_f s2 && vVector.vlt (T_k s2) (T_f s2) = false ->
  (vVector.at_ (T_k s2) 0 <=? epsilon) = false ->
  (vVector.at_ (T_cost s2) 0 <=? epsilon) = false ->
  (state s1 = NeedToCompute /\ f_x_best_repeats s1 = 0%Z /\ f_x_best s1 = v) /\
  (state s2 = NeedToCompute /\ f_x_best_repeats s2 = 1%Z) /\
  exists s3 : t float,
    step ent fuel (s2 <| f_x_cand := v |>) = Returned s3 /\
    state s3 = ReadyToStop /\ reason_for_exit s3 = f_x_best_repeated.
Proof.
  intros C Max P0 P1 Nn Ni B S1 N1 S2 N2 Tf Tk Tc.
  apply (two_acceptances_then_stop ent fuel p r c0 s1 s2 v);
    try assumption.
  - apply IEEE.first_candidate_improves; assumption.
  - apply IEEE.no_self_improvement; assumption.
  - apply IEEE.repeats_itself; assumption.
Qed.

End FirstCandidates.

(** ** The properties on runs of doubles *)

Section Runs.
Context {T : Type} `{Scalar T}.

Lemma later_trans (a b c0 : t T) : later a b -> later b c0 -> later a c0.
Proof.
  intros L1 L2. induction L2 as [|b c1 c2 L IH Tr]; [exact L1|].
  apply later_on with c1; [apply IH; exact L1|exact Tr].
Qed.

Lemma client_later (objective : list T -> T) (s : t T) : later s (client objective s).
Proof.
  unfold client. destruct (state s); try apply later_now.
  - apply later_on with s; [apply later_now|apply tr_f_x_cand].
  - apply later_on with s; [apply later_now|apply tr_f_x_plusdelta].
Qed.

(** Where a run arrives comes later than where it starts. *)
Lemma run_later (objective : list T -> T) (ent : Entropy T) (fuel calls : nat) (s s' : t T) :
  run objective ent fuel calls s = Returned s' -> later s s'.
Proof.
  revert s. induction calls as [|calls IH]; intros s; simpl.
  - intros [= <-]. apply later_now.
  - destruct (stopped s); [intros [= <-]; apply later_now|].
    destruct (step ent fuel (client objective s)) as [s1| |] eqn:St; try discriminate.
    intros R. apply later_trans with s1; [|exact (IH _ R)].
    apply later_on with (client objective s); [apply client_later|].
    exact (tr_step _ _ _ St).
Qed.
End Runs.

Module Examples.
Import Double Scenario.
Local Open Scope float_scope.


(** C1.  The probe point of a reanneal leaves the bounds: with one
    parameter in [1000, 1001] that starts at 1000.5, the tenth call of
    [step] asks for the objective at [x_plusdelta = 990.125...], below
    [range_min = 1000].  ([x_best * 1.01] is above [range_max], so
    [generate_delta_parameter] takes [x_best * 0.99], and does not look
    whether that one is within the bounds.) *)
Theorem probe_point_leaves_bounds :
  exists s : t float,
    run offset steady 100 10 narrow = Returned s /\
    state s = NeedToComputeSet /\
    x_plusdelta s = generate_delta_parameter s (x_best s) /\
    within_bounds s (x_plusdelta s) = false /\
    vVector.vlt (x_plusdelta s) (range_min s) = true.
Proof.
  eexists. split; [vm_compute; reflexivity|]. vm_compute. repeat split.
Qed.

(** C2.  [AdaptiveAnneal::acceptance_check] rejects a candidate that the
    rule [p >= u] accepts: with [f_x_cand - f_x = 1000] and
    [temp_cost = 0.125] the probability underflows to [p = 0], the number
    drawn is [u = 0], and [p > u] is false.  (On a NaN objective the two
    differ as well: [std::min (1, NaN)] is 1.) *)
Theorem adaptive_acceptance_is_strict :
  let p := std_min one (AdaptiveAnneal.acceptance_probability adaptive) in
  let u := 0 in
  p = 0 /\ PrimFloat.leb u p = true /\
  fst (AdaptiveAnneal.acceptance_check u adaptive) = false /\
  AdaptiveAnneal.x (snd (AdaptiveAnneal.acceptance_check u adaptive)) = [5].
Proof. vm_compute. repeat split. Qed.

(** C3, the claim as it stands.  With [objective_repeat_precision = -1]
    (downhill) [f_x_best] goes up from 5 to 5.407...: the second candidate
    is worse than the best by 0.407, accepted, and passes the test
    [f_x_cand - f_x_best + objective_repeat_precision < 0]. *)
Lemma negative_precision_regresses :
  exists s1 s2 : t float,
    run climb greedy 100 1 sloppy = Returned s1 /\
    step greedy 100 (client climb s1) = Returned s2 /\
    downhill s1 = true /\
    f_x_best s1 = 5 /\
    PrimFloat.ltb (f_x_best s1) (f_x_best s2) = true.
Proof.
  eexists. eexists. split; [vm_compute; reflexivity|].
  split; [vm_compute; reflexivity|]. vm_compute. repeat split.
Qed.

(** C4.  [reanneal_test] says no where the ratio of accepted to generated
    is below the threshold: after ten calls of [step] with
    [acc_gen_reanneal_ratio = 0.5], one candidate has been accepted recently
    and ten generated, [k_r = 10], and [accepted_vs_generated] is
    [1 + 1/11], not below 0.5, while [1/10] and [(1 + 1)/(10 + 1)] are. *)
Theorem reanneal_test_misses_low_ratio :
  exists s : t float,
    run climb picky 100 10 eager = Returned s /\
    (k_r s = 10%Z /\ num_accepted_recently s = 1%Z /\ num_generated_recently s = 10%Z) /\
    PrimFloat.ltb (of_uint (num_accepted_recently s) / of_uint (num_generated_recently s))
                  (acc_gen_reanneal_ratio s) = true /\
    PrimFloat.ltb ((of_uint (num_accepted_recently s) + 1)
                   / (of_uint (num_generated_recently s) + 1))
                  (acc_gen_reanneal_ratio s) = true /\
    PrimFloat.ltb (accepted_vs_generated s) (acc_gen_reanneal_ratio s) = false /\
    fst (reanneal_test s) = false /\
    state s = NeedToCompute.
Proof.
  eexists. split; [vm_compute; reflexivity|]. vm_compute. repeat split.
Qed.

(** C3: a run the amended statement applies to. *)
Lemma f_x_best_never_regresses_witness :
  PrimFloat.leb 0 (objective_repeat_precision start) = true /\
  later start probing /\
  (downhill start = true ->
   f_x_best probing = f_x_best start \/
   PrimFloat.ltb (f_x_best probing) (f_x_best start) = true).
Proof.
  assert (P : PrimFloat.leb 0 (objective_repeat_precision start) = true)
    by (vm_compute; reflexivity).
  assert (L : later start probing)
    by (apply (run_later quadratic steady 100 10); vm_compute; reflexivity).
  split; [exact P|]. split; [exact L|].
  exact (proj1 (f_x_best_never_regresses IEEE.double_order_laws start probing P L)).
Defined.

(** C5: a run whose temperature is down at [eps] after six steps. *)
Lemma floor_temperature_stops_witness :
  reachable frozen /\
  exists s' : t float,
    step steady 100 frozen = Returned s' /\
    state s' = ReadyToStop /\ reason_for_exit s' = T_k_less_than_epsilon.
Proof.
  assert (R : reachable frozen).
  { apply (run_reachable quadratic steady 100 6 cold).
    - apply (reach_init (p := [5]) (r := [(0, 10)])).
      apply conf_temperature_ratio_scale, conf_new.
    - vm_compute; reflexivity. }
  split; [exact R|].
  apply (floor_temperature_stops steady 100 frozen R).
  - vm_compute. apply le_n.
  - vm_compute; reflexivity.
  - vm_compute; reflexivity.
Defined.

(** C6: the client answers a probe with NaN. *)
Lemma nan_tangents_are_fatal_witness :
  exists s' : t float,
    step steady 100 (probing <| f_x_plusdelta := nan |>)
    = Threw "NaN or inf in tangents" s' /\
    T_k s' = T_k (probing <| f_x_plusdelta := nan |>) /\
    T_cost s' = T_cost (probing <| f_x_plusdelta := nan |>).
Proof.
  apply (nan_tangents_are_fatal steady 100 (probing <| f_x_plusdelta := nan |>));
    vm_compute; reflexivity.
Defined.

(** C7: the client answers a probe with the objective of [x]. *)
Lemma zero_tangents_double_delta_param_witness :
  exists s' : t float,
    complete_reanneal flat = Returned s' /\
    s' = flat <| tangents := tangent_estimate flat |>
              <| delta_param := (delta_param flat * two)%sc |> /\
    delta_param s' = (delta_param flat * two)%sc /\
    T_k s' = T_k flat /\ T_cost s' = T_cost flat /\
    k s' = k flat /\ k_cost s' = k_cost flat.
Proof.
  apply (zero_tangents_double_delta_param flat).
  - vm_compute. discriminate.
  - vm_compute. repeat constructor.
  - vm_compute; reflexivity.
Defined.

(** C8, the claim as it stands.  With [f_x_best_repeat_max = 1] and an
    objective that is 7 everywhere, the run has not stopped after the
    first accepted candidate: the call of [step] that follows accepts a
    second one. *)
Lemma first_acceptance_does_not_stop :
  exists s1 s2 : t float,
    step steady 100 (client seven (init once)) = Returned s1 /\
    (num_accepted s1 = 1%Z /\ f_x_best s1 = 7 /\ f_x_best_repeats s1 = 0%Z) /\
    step steady 100 (client seven s1) = Returned s2 /\
    (state s2 = NeedToCompute /\ num_accepted s2 = 2%Z).
Proof.
  eexists. eexists. split; [vm_compute; reflexivity|].
  split; [vm_compute; repeat split|].
  split; [vm_compute; reflexivity|]. vm_compute. repeat split.
Qed.

(** C8: that run, in the amended statement. *)
Lemma repeat_stop_after_second_acceptance_witness :
  (state first_call = NeedToCompute /\ f_x_best_repeats first_call = 0%Z
   /\ f_x_best first_call = 7) /\
  (state second_call = NeedToCompute /\ f_x_best_repeats second_call = 1%Z) /\
  exists s3 : t float,
    step steady 100 (second_call <| f_x_cand := 7 |>) = Returned s3 /\
    state s3 = ReadyToStop /\ reason_for_exit s3 = f_x_best_repeated.
Proof.
  apply (repeat_stop_after_second_acceptance steady 100 [5] [(0, 10)] once
           first_call second_call 7).
  - apply conf_f_x_best_repeat_max, conf_new.
  - reflexivity.
  - vm_compute; reflexivity.
  - vm_compute; reflexivity.
  - vm_compute; reflexivity.
  - vm_compute; reflexivity.
  - vm_compute; reflexivity.
  - vm_compute; reflexivity.
  - vm_compute; reflexivity.
  - vm_compute; reflexivity.
  - vm_compute; reflexivity.
  - vm_compute; reflexivity.
  - vm_compute; reflexivity.
  - vm_compute; reflexivity.
Defined.

(** C8: what the conditions of the amended statement are for.  An objective
    that is [max()] everywhere repeats the initial best: the count is 1
    after the first accepted candidate, and the next call of [step]
    stops. *)
Lemma sentinel_objective_stops_at_once :
  exists s1 s2 : t float,
    step steady 100 (client topmost (init once)) = Returned s1 /\
    (num_accepted s1 = 1%Z /\ f_x_best_repeats s1 = 1%Z) /\
    step steady 100 (client topmost s1) = Returned s2 /\
    (state s2 = ReadyToStop /\ reason_for_exit s2 = f_x_best_repeated
     /\ num_accepted s2 = 1%Z).
Proof.
  eexists. eexists. split; [vm_compute; reflexivity|].
  split; [vm_compute; repeat split|].
  split; [vm_compute; reflexivity|]. vm_compute. repeat split.
Qed.

(** So does every objective when [objective_repeat_precision] is
    [max()] ... *)
Lemma widest_precision_stops_at_once :
  exists s1 s2 : t float,
    step steady 100 (client seven (init once_wide)) = Returned s1 /\
    (num_accepted s1 = 1%Z /\ f_x_best_repeats s1 = 1%Z /\ f_x_best s1 = max_value) /\
    step steady 100 (client seven s1) = Returned s2 /\
    (state s2 = ReadyToStop /\ reason_for_exit s2 = f_x_best_repeated).
Proof.
  eexists. eexists. split; [vm_compute; reflexivity|].
  split; [vm_compute; repeat split|].
  split; [vm_compute; reflexivity|]. vm_compute. repeat split.
Qed.

(** ... and with a negative one no candidate repeats the best: nine
    candidates accepted, and the count is still 0. *)
Lemma negative_precision_never_repeats :
  exists s : t float,
    run seven steady 100 9 (init once_negative) = Returned s /\
    num_accepted s = 9%Z /\ f_x_best_repeats s = 0%Z /\ state s = NeedToCompute.
Proof. eexists. split; [vm_compute; reflexivity|]. vm_compute. repeat split. Qed.

(** The numbers matter: the same object and the same objective function,
    and generators that hand out other numbers; the first call of [step]
    already leaves another candidate.  (The class takes no seed: its
    generators are seeded from [std::random_device].) *)
Lemma same_object_different_runs :
  trajectory quadratic steady 100 1 start <> trajectory quadratic downward 100 1 start.
Proof.
  intros E.
  apply (f_equal (fun l => match l with
                           | Returned s :: _ => nth 0 (x_cand s) 0
                           | _ => 0
                           end)) in E.
  vm_compute in E.
  match type of E with
  | ?a = ?b => pose proof (f_equal (PrimFloat.eqb a) E) as X
  end.
  vm_compute in X. discriminate X.
Qed.


(** C10, the claim as it stands.  Right after [init] the client is asked
    for the objective of [x_cand], and [x_cand] is the initial point. *)
Lemma initial_point_is_requested :
  state (init (construct [5] [(0, 10)])) = NeedToCompute /\
  x_cand (init (construct [5] [(0, 10)])) = [5] /\
  client quadratic (init (construct [5] [(0, 10)]))
  = (init (construct [5] [(0, 10)])) <| f_x_cand := quadratic [5] |>.
Proof. vm_compute. repeat split. Qed.

(** C10: what the conditions of the amended statement are for.  A first
    accepted candidate that does not become the best: its objective is NaN,
    [std::min (1, NaN)] is 1, so it is accepted, and no comparison with NaN
    holds, so [f_x_best] stays at [max()]. *)
Lemma accepted_without_becoming_best :
  let s := acceptance_check steady ((init (construct [5] [(0, 10)])) <| f_x_cand := nan |>) in
  num_accepted s = 1%Z /\ PrimFloat.is_nan (f_x s) = true /\
  f_x_best s = max_value.
Proof. vm_compute. repeat split. Qed.

(** Nor does one whose objective is 4, when [objective_repeat_precision] is
    [max()]. *)
Lemma accepted_within_widest_precision :
  let s := acceptance_check steady ((init once_wide) <| f_x_cand := 4 |>) in
  num_accepted s = 1%Z /\ f_x s = 4 /\ f_x_best s = max_value.
Proof. vm_compute. repeat split. Qed.

(** C10: the amended statement on the object the constructor makes, and on
    the objective of the initial point, [(5 - 3)^2]. *)
Lemma init_sentinel_and_first_best_witness :
  (f_x (init (construct [5] [(0, 10)])) = max_value /\
   f_x_cand (init (construct [5] [(0, 10)])) = max_value /\
   f_x_best (init (construct [5] [(0, 10)])) = max_value) /\
  (state (init (construct [5] [(0, 10)])) = NeedToCompute /\
   x_cand (init (construct [5] [(0, 10)])) = [5]) /\
  (let s' := acceptance_check steady first_asked in
   param_hist_accepted s' = [x_cand first_asked] /\
   x_best s' = x_cand first_asked /\ f_x_best s' = f_x_cand first_asked
   /\ f_x_best_repeats s' = 0%Z) /\
  (param_hist_accepted first_stepped = [x_cand first_asked] /\
   x_best first_stepped = x_cand first_asked /\ f_x_best first_stepped = f_x_cand first_asked
   /\ f_x_best_repeats first_stepped = 0%Z).
Proof.
  destruct (init_sentinel_and_first_best [5] [(0, 10)] (construct [5] [(0, 10)])
              (conf_new [5] [(0, 10)])) as (A & B & F & G).
  split; [exact A|]. split; [exact B|]. split.
  - apply (F steady first_asked).
    + vm_compute; reflexivity.
    + vm_compute; reflexivity.
    + apply client_later.
    + vm_compute; reflexivity.
    + vm_compute; reflexivity.
    + vm_compute; reflexivity.
  - apply (G steady 100%nat first_asked first_stepped).
    + vm_compute; reflexivity.
    + vm_compute; reflexivity.
    + apply client_later.
    + vm_compute; reflexivity.
    + vm_compute; reflexivity.
    + vm_compute; reflexivity.
    + vm_compute. discriminate.
Defined.
End Examples.

(** * Further properties of the code *)

Section StepProtocol.
Context {T : Type} `{Scalar T}.
Local Open Scope scalar_scope.
Import vVector.

Lemma acceptance_check_keeps_protocol (ent : Entropy T) (s : t T) :
  keeps_protocol s (acceptance_check ent s) /\ state (acceptance_check ent s) = state s.
Proof.
  destruct (acceptance_check_frame ent s)
    as (_ & _ & _ & (_ & _ & _ & St) & _ & _ & (Sa & Re) & _ & (_ & En & _)).
  split; [split; [exact St|split; [exact En|exact Re]]|exact Sa].
Qed.

Lemma reanneal_test_keeps_protocol (s : t T) :
  keeps_protocol s (snd (reanneal_test s)) /\ state (snd (reanneal_test s)) = state s.
Proof.
  destruct (reanneal_test_frame s)
    as (_ & _ & _ & (_ & _ & _ & St) & _ & (Sa & Re) & _ & _ & (_ & En & _)).
  split; [split; [exact St|split; [exact En|exact Re]]|exact Sa].
Qed.

Lemma complete_reanneal_keeps_protocol (s : t T) :
  match complete_reanneal s with
  | Returned s' | Threw _ s' => keeps_protocol s s' /\ state s' = state s
  | Looping => True
  end.
Proof.
  pose proof (complete_reanneal_frame s) as F.
  destruct (complete_reanneal s) as [s'|what s'|]; [| |exact I];
    destruct F as (_ & _ & (St & Sa & Re) & _ & _ & _ & (_ & En & _));
    (split; [split; [exact St|split; [exact En|exact Re]]|exact Sa]).
Qed.

Lemma acceptance_check_keeps_k (ent : Entropy T) (s : t T) :
  k (acceptance_check ent s) = k s.
Proof. exact (proj1 (proj1 (proj2 (proj2 (proj2 (acceptance_check_frame ent s)))))). Qed.

Lemma reanneal_test_keeps_k (s : t T) : k (snd (reanneal_test s)) = k s.
Proof. exact (proj1 (proj1 (proj2 (proj2 (proj2 (reanneal_test_frame s)))))). Qed.

(** [advance] leaves the object asking for an objective, and for the set
    of a reanneal only when reannealing is enabled. *)
Lemma advance_asks (ent : Entropy T) (fuel : nat) (s s' : t T) :
  advance ent fuel s = Returned s' ->
  keeps_protocol s s' /\
  (state s' = NeedToCompute \/
   state s' = NeedToComputeSet /\ enable_reanneal s = true).
Proof.
  intros A. unfold advance in A.
  destruct (generate_next _ _ _) as [s3|] eqn:G; [|discriminate].
  destruct (acceptance_check_keeps_protocol ent (cooling_schedule s)) as ((A1 & A2 & A3) & _).
  destruct (generate_next_inv _ _ _ _ G) as (j & x_new & _ & E3).
  assert (K : keeps_protocol s s3).
  { rewrite E3. unfold keeps_protocol. cbn. rewrite A1, A2, A3. repeat split. }
  destruct K as (K1 & K2 & K3).
  match type of A with context [if ?b then _ else _] => destruct b eqn:En end.
  - pose proof (reanneal_test_keeps_protocol
                  (s3 <| k := uincr (k s3) |>
                      <| k_r := uincr (k_r (s3 <| k := uincr (k s3) |>)) |>)) as R.
    destruct (reanneal_test _) as [again s5]. injection A as <-.
    destruct R as ((R1 & R2 & R3) & _). simpl snd in *.
    split.
    + split; [rewrite <- K1; exact R1|]. split; [rewrite <- K2; exact R2|rewrite <- K3; exact R3].
    + destruct again; [right|left]; (split; [reflexivity|]) || reflexivity.
      rewrite <- K2. exact En.
  - injection A as <-. split; [repeat split; assumption|left; reflexivity].
Qed.

(** A call of [step] that goes on leaves the object asking for an
    objective. *)
Lemma going_on_asks (ent : Entropy T) (fuel : nat) (s s' : t T) :
  stop_condition s = None ->
  step ent fuel s = Returned s' ->
  state s' = NeedToCompute \/ state s' = NeedToComputeSet.
Proof.
  intros E St. rewrite (step_goes_on ent fuel s E) in St. cbv zeta in St.
  assert (After : forall s1, advance ent fuel s1 = Returned s' ->
            state s' = NeedToCompute \/ state s' = NeedToComputeSet).
  { intros s1 A. destruct (advance_asks _ _ _ _ A) as (_ & [Q|(Q & _)]); [left|right]; exact Q. }
  destruct (state _); try exact (After _ St).
  destruct (complete_reanneal _) as [s2|what s2|]; [|discriminate St|discriminate St].
  exact (After _ St).
Qed.

(** X1.  A call of [step] that returns has counted itself in [steps]
    (modulo 2^32) and leaves one of three states.  When a stopping condition
    held on entry: [ReadyToStop], with that condition, the first in the
    order of [stop_check], as [reason_for_exit].  Otherwise [NeedToCompute]
    or [NeedToComputeSet], the latter only when reannealing is enabled, and
    [reason_for_exit] as it was. *)
Theorem step_asks_or_stops (ent : Entropy T) (fuel : nat) (s s' : t T) :
  step ent fuel s = Returned s' ->
  steps s' = uincr (steps s) /\
  match stop_condition s with
  | Some why => state s' = ReadyToStop /\ reason_for_exit s' = why
  | None =>
      (state s' = NeedToCompute \/ state s' = NeedToComputeSet) /\
      (enable_reanneal s = false -> state s' = NeedToCompute) /\
      reason_for_exit s' = reason_for_exit s
  end.
Proof.
  intros St.
  assert (After : forall s1, keeps_protocol (s <| steps := uincr (steps s) |>) s1 ->
            advance ent fuel s1 = Returned s' ->
            steps s' = uincr (steps s) /\
            (state s' = NeedToCompute \/ state s' = NeedToComputeSet) /\
            (enable_reanneal s = false -> state s' = NeedToCompute) /\
            reason_for_exit s' = reason_for_exit s).
  { intros s1 (P1 & P2 & P3) A.
    destruct (advance_asks _ _ _ _ A) as ((Q1 & Q2 & Q3) & Q).
    split; [rewrite Q1; exact P1|].
    split; [destruct Q as [Q|(Q & _)]; [left|right]; exact Q|].
    split; [|rewrite Q3; exact P3].
    intros Off. destruct Q as [Q|(_ & On)]; [exact Q|].
    rewrite P2 in On. cbn in On. rewrite Off in On. discriminate On. }
  destruct (stop_condition s) as [why|] eqn:E.
  - rewrite (step_stops ent fuel s _ E) in St. injection St as <-. repeat split.
  - rewrite (step_goes_on ent fuel s E) in St. cbv zeta in St.
    set (s1 := s <| steps := uincr (steps s) |>) in *.
    assert (P0 : keeps_protocol s1 s1) by (repeat split).
    destruct (state s1) eqn:S1; try exact (After s1 P0 St).
    pose proof (complete_reanneal_keeps_protocol s1) as K.
    destruct (complete_reanneal s1) as [s2|what s2|]; [|discriminate St|discriminate St].
    apply (After (s2 <| state := NeedToStep |>)); [|exact St].
    destruct K as ((K1 & K2 & K3) & _). repeat split; assumption.
Qed.

(** X2.  [ReadyToStop] is final.  Once [step] has returned with
    [state = ReadyToStop] the client has nothing to compute, a further call
    of [step], whatever the random numbers, changes [steps] and nothing
    else, and the client's loop is over. *)
Theorem ready_to_stop_is_final
    (ent ent' : Entropy T) (fuel fuel' calls : nat) (objective : list T -> T) (s s' : t T) :
  step ent fuel s = Returned s' ->
  state s' = ReadyToStop ->
  client objective s' = s' /\
  step ent' fuel' s' = Returned (s' <| steps := uincr (steps s') |>) /\
  run objective ent' fuel' calls s' = Returned s'.
Proof.
  intros St Stop.
  destruct (stop_condition s) as [why|] eqn:E.
  - rewrite (step_stops ent fuel s _ E) in St. injection St as <-.
    split; [reflexivity|]. split.
    + rewrite (step_stops ent' fuel' _ why); [reflexivity|exact E].
    + destruct calls; reflexivity.
  - destruct (going_on_asks _ _ _ _ E St) as [P|P]; rewrite P in Stop; discriminate Stop.
Qed.

(** What [complete_reanneal] leaves when it throws: the object with the
    tangents it computed, and one of two messages. *)
Lemma complete_reanneal_threw (s : t T) (what : string) (s' : t T) :
  complete_reanneal s = Threw what s' ->
  (what = "NaN or inf in tangents"%string
   \/ what = ("Can't update k based on new temp, as it is <=0" ++ line_feed)%string) /\
  s' = s <| tangents := tangent_estimate s |>.
Proof.
  cbv beta delta [complete_reanneal]. cbv zeta.
  change (has_nan_or_inf (tangents _)) with (has_nan_or_inf (tangent_estimate s)).
  change (has_zero (tangents _)) with (has_zero (tangent_estimate s)).
  destruct (has_nan_or_inf _).
  - intros [= <- <-]. split; [left; reflexivity|reflexivity].
  - destruct (has_zero _); [discriminate|].
    match goal with |- context [if ?b then _ else _] => destruct b end; [discriminate|].
    intros [= <- <-]. split; [right; reflexivity|reflexivity].
Qed.

(** X3.  [step] throws only while it completes a reanneal: the
    object was in [NeedToComputeSet] and no stopping condition held, the
    message is one of the two of [complete_reanneal] as thrown (the second
    one ends with a line feed), and the object is left as it was but for
    [steps], counted up, and the [tangents] just computed.  In particular
    the state is still [NeedToComputeSet], and [k], [T_k] and [T_cost] are
    untouched. *)
Theorem step_throws_only_in_reanneal
    (ent : Entropy T) (fuel : nat) (s : t T) (what : string) (s' : t T) :
  step ent fuel s = Threw what s' ->
  state s = NeedToComputeSet /\
  stop_condition s = None /\
  (what = "NaN or inf in tangents"%string
   \/ what = ("Can't update k based on new temp, as it is <=0" ++ line_feed)%string) /\
  s' = s <| steps := uincr (steps s) |> <| tangents := tangent_estimate s |>.
Proof.
  intros St.
  destruct (stop_condition s) as [why|] eqn:E.
  - rewrite (step_stops ent fuel s _ E) in St. discriminate St.
  - rewrite (step_goes_on ent fuel s E) in St. cbv zeta in St.
    set (s1 := s <| steps := uincr (steps s) |>) in *.
    change (state s1) with (state s) in St.
    destruct (state s) eqn:S1;
      try (exfalso; exact (advance_returns _ _ _ _ _ St)).
    destruct (complete_reanneal s1) as [s2|what2 s2|] eqn:R.
    + exfalso; exact (advance_returns _ _ _ _ _ St).
    + injection St as -> ->.
      destruct (complete_reanneal_threw _ _ _ R) as (W & ->).
      split; [reflexivity|]. split; [reflexivity|]. split; [exact W|reflexivity].
    + discriminate St.
Qed.

(** What a reanneal that goes through leaves. *)
Lemma complete_reanneal_done (s s' : t T) :
  complete_reanneal s = Returned s' ->
  has_zero (tangent_estimate s) = false ->
  let T_re := vabs (vmul (T_k s) (sdiv_v (vmax (vabs (tangent_estimate s)))
                                        (tangent_estimate s))) in
  vgt_s T_re zero = true /\
  T_k s' = T_re /\
  k_r s' = 0%Z /\
  T_cost s' = schedule (D s) (T_cost_0 s') (c_cost s) (k_cost s') /\
  delta_param s' = delta_param s /\
  (x s' = x s /\ f_x s' = f_x s /\ x_best s' = x_best s /\ f_x_best s' = f_x_best s
   /\ x_cand s' = x_cand s).
Proof.
  cbv beta delta [complete_reanneal]. cbv zeta.
  change (has_nan_or_inf (tangents _)) with (has_nan_or_inf (tangent_estimate s)).
  change (has_zero (tangents _)) with (has_zero (tangent_estimate s)).
  intros R Z. rewrite Z in R.
  destruct (has_nan_or_inf _); [discriminate R|].
  match type of R with context [if ?b then _ else _] => destruct b eqn:G end;
    [|discriminate R].
  injection R as <-. split; [exact G|]. repeat split.
Qed.

(** X4.  A reanneal that goes through (no stopping condition, no
    zero among the tangents).  [complete_reanneal] leaves [k_r = 0] and a
    [T_k] whose entries are all above zero; the call of [step] it is part of
    returns with [k_r = 1] and [state = NeedToCompute], with [k] one above
    the [k] of the reanneal, and with [T_k] recomputed by the cooling
    schedule from that [k]: the [T_k] that [complete_reanneal] assigned is
    overwritten before the client sees it. *)
Theorem completed_reanneal_restarts_the_count
    (ent : Entropy T) (fuel : nat) (s s1 s' : t T) :
  state s = NeedToComputeSet ->
  stop_condition s = None ->
  complete_reanneal (s <| steps := uincr (steps s) |>) = Returned s1 ->
  has_zero (tangent_estimate s) = false ->
  step ent fuel s = Returned s' ->
  vgt_s (T_k s1) zero = true /\
  k_r s1 = 0%Z /\
  k_r s' = 1%Z /\
  state s' = NeedToCompute /\
  k s' = uincr (k s1) /\
  T_k s' = schedule (D s) (T_0 s) (c s) (k s1).
Proof.
  intros S0 E R Z St.
  rewrite (step_goes_on ent fuel s E) in St. cbv zeta in St.
  change (state (s <| steps := uincr (steps s) |>)) with (state s) in St.
  rewrite S0, R in St.
  destruct (complete_reanneal_done _ _ R Z) as (G & Tk & Kr & _).
  pose proof (complete_reanneal_schedule (s <| steps := uincr (steps s) |>)) as K.
  rewrite R in K. destruct K as (K1 & K2 & K3).
  destruct (advance_tally _ _ _ _ St) as ((_ & _ & _ & _ & _ & _ & Q) & Q').
  destruct (advance_schedule _ _ _ _ St) as (_ & Sch).
  change (k_r (s1 <| state := NeedToStep |>)) with (k_r s1) in Q, Q'.
  rewrite Kr in Q, Q'.
  split; [rewrite Tk; exact G|]. split; [exact Kr|]. split; [exact Q|].
  split; [apply Q'; reflexivity|].
  split; [|rewrite Sch; cbn; rewrite K1, K2, K3; reflexivity].
  clear - St. unfold advance in St.
  destruct (generate_next _ _ _) as [s3|] eqn:G; [|discriminate].
  destruct (generate_next_inv _ _ _ _ G) as (j & x_new & _ & ->).
  match type of St with context [if ?b then _ else _] => destruct b end.
  - match type of St with context [reanneal_test ?a] =>
      pose proof (reanneal_test_keeps_k a) as R; destruct (reanneal_test a) as [again s5]
    end.
    injection St as <-. cbn in R |- *. rewrite R.
    rewrite acceptance_check_keeps_k. reflexivity.
  - injection St as <-. cbn. rewrite acceptance_check_keeps_k. reflexivity.
Qed.

End StepProtocol.

Section Candidates.
Context {T : Type} `{Scalar T}.
Local Open Scope scalar_scope.
Import vVector.

Lemma draw_next_reads (ent : Entropy T) (a b : t T) :
  randomized a = randomized b -> D a = D b -> T_k a = T_k b -> x a = x b ->
  draw_next ent a = draw_next ent b.
Proof. unfold draw_next. intros -> -> -> ->. reflexivity. Qed.

Lemma nth_draw_next (ent : Entropy T) (s : t T) (i : nat) :
  nth_draw ent (s <| randomized := S (randomized s) |>) i = nth_draw ent s (S i).
Proof.
  unfold nth_draw. apply draw_next_reads; try reflexivity.
  cbn. lia.
Qed.

Lemma nth_draw_first (ent : Entropy T) (s : t T) : nth_draw ent s 0 = draw_next ent s.
Proof.
  unfold nth_draw. apply draw_next_reads; try reflexivity.
  cbn. lia.
Qed.

(** [generate_next] returns the first point within the bounds that it
    draws. *)
Lemma generate_next_first_fit (ent : Entropy T) (fuel : nat) (s : t T) (n : nat) :
  (forall i, (i < n)%nat -> within_bounds s (nth_draw ent s i) = false) ->
  within_bounds s (nth_draw ent s n) = true ->
  (n < fuel)%nat ->
  generate_next ent fuel s =
  Some (s <| randomized := S (randomized s + n) |>
          <| num_generated := uincr (num_generated s) |>
          <| num_generated_recently := uincr (num_generated_recently s) |>
          <| x_cand := nth_draw ent s n |>).
Proof.
  revert s n. induction fuel as [|fuel IH]; intros s n Out In Lt; [lia|].
  cbn [generate_next]. cbv zeta.
  change (within_bounds (s <| randomized := S (randomized s) |>) (draw_next ent s))
    with (within_bounds s (draw_next ent s)).
  destruct n as [|n].
  - rewrite nth_draw_first in In |- *. rewrite In.
    replace (randomized s + 0)%nat with (randomized s) by lia. reflexivity.
  - rewrite <- nth_draw_first, (Out 0%nat) by lia.
    rewrite (IH (s <| randomized := S (randomized s) |>) n).
    + rewrite nth_draw_next. cbn.
      replace (S (S (randomized s + n))) with (S (randomized s + S n)) by lia. reflexivity.
    + intros i Hi. rewrite nth_draw_next. apply (Out (S i)). lia.
    + rewrite nth_draw_next. exact In.
    + lia.
Qed.

(** X5.  [generate_next] is rejection sampling.  When the first [n]
    points it draws are out of the bounds and the next one is within
    (and the loop is given the time: [n < fuel]), it returns with that
    point in [x_cand], after [n + 1] calls of [vVector::randomize], with
    [num_generated] and [num_generated_recently] counted up once, and
    nothing else changed. *)
Theorem generate_next_takes_first_within_bounds
    (ent : Entropy T) (fuel : nat) (s : t T) (n : nat) :
  (forall i, (i < n)%nat -> within_bounds s (nth_draw ent s i) = false) ->
  within_bounds s (nth_draw ent s n) = true ->
  (n < fuel)%nat ->
  generate_next ent fuel s =
  Some (s <| randomized := S (randomized s + n) |>
          <| num_generated := uincr (num_generated s) |>
          <| num_generated_recently := uincr (num_generated_recently s) |>
          <| x_cand := nth_draw ent s n |>).
Proof. exact (generate_next_first_fit ent fuel s n). Qed.

(** ... and it is still in its loop while the draws are out of the
    bounds. *)
Lemma generate_next_loops (ent : Entropy T) (fuel : nat) (s : t T) :
  (forall i, (i < fuel)%nat -> within_bounds s (nth_draw ent s i) = false) ->
  generate_next ent fuel s = None.
Proof.
  revert s. induction fuel as [|fuel IH]; intros s Out; [reflexivity|].
  cbn [generate_next]. cbv zeta.
  change (within_bounds (s <| randomized := S (randomized s) |>) (draw_next ent s))
    with (within_bounds s (draw_next ent s)).
  rewrite <- nth_draw_first, (Out 0%nat) by lia.
  apply IH. intros i Hi. rewrite nth_draw_next. apply (Out (S i)). lia.
Qed.

(** X6.  Whenever [generate_next] returns, [x_cand] is within the
    bounds, [num_generated] and [num_generated_recently] are one up (modulo
    2^32), and [x], [f_x], [x_best], [f_x_best], the client's [f_x_cand],
    the temperatures, [k], the bounds and the use of [rng_u] are as
    before. *)
Theorem generate_next_candidate (ent : Entropy T) (fuel : nat) (s s' : t T) :
  generate_next ent fuel s = Some s' ->
  within_bounds s' (x_cand s') = true /\
  num_generated s' = uincr (num_generated s) /\
  num_generated_recently s' = uincr (num_generated_recently s) /\
  (x s' = x s /\ f_x s' = f_x s /\ x_best s' = x_best s /\ f_x_best s' = f_x_best s) /\
  (f_x_cand s' = f_x_cand s /\ T_k s' = T_k s /\ T_cost s' = T_cost s /\ k s' = k s) /\
  (range_min s' = range_min s /\ range_max s' = range_max s /\ rng_u s' = rng_u s).
Proof.
  intros G. destruct (generate_next_inv _ _ _ _ G) as (j & x_new & B & ->).
  split; [exact B|]. repeat split.
Qed.

End Candidates.

Section Bounds.
Context {T : Type} `{Scalar T}.
Local Open Scope scalar_scope.
Import vVector.

Lemma moves_points_in_bounds (s s' : t T) :
  moves_points s s' -> in_bounds s -> in_bounds s'.
Proof.
  intros (Rmin & Rmax & X & Xc & Xb) (B1 & B2 & B3).
  unfold in_bounds, within_bounds. rewrite Rmin, Rmax, Xc.
  split; [|split; [exact B2|]].
  - destruct X as [-> | [-> | ->]]; assumption.
  - destruct Xb as [-> | ->]; assumption.
Qed.

Lemma moves_points_refl (s : t T) : moves_points s s.
Proof. repeat split; left; reflexivity. Qed.

Lemma stop_check_moves_points (s : t T) : moves_points s (snd (stop_check s)).
Proof.
  unfold stop_check. destruct (stop_condition s); repeat split; left; reflexivity.
Qed.

Lemma cooling_schedule_moves_points (s : t T) : moves_points s (cooling_schedule s).
Proof. repeat split; left; reflexivity. Qed.

Lemma acceptance_check_moves_points (ent : Entropy T) (s : t T) :
  moves_points s (acceptance_check ent s).
Proof.
  destruct (acceptance_check_frame ent s) as ((_ & Rmin & Rmax) & _ & _ & _ & (Xc & _) & _).
  pose proof (acceptance_check_on_effect (rng_u_get ent (rng_u s)) s) as E.
  cbv zeta in E. destruct E as (_ & X & _ & Xb & _).
  fold (acceptance_check ent s) in X, Xb.
  split; [exact Rmin|]. split; [exact Rmax|]. split; [|split; [exact Xc|]].
  - rewrite X. destruct (_ >=? _); [right; left|left]; reflexivity.
  - rewrite Xb. destruct (_ && _); [right|left]; reflexivity.
Qed.

Lemma reanneal_test_moves_points (s : t T) : moves_points s (snd (reanneal_test s)).
Proof.
  rewrite reanneal_test_shape.
  destruct (negb _ && negb _); [|apply moves_points_refl].
  destruct (accepted_vs_generated s <? acc_gen_reanneal_ratio s);
    (split; [reflexivity|]); (split; [reflexivity|]);
    (split; [right; right; reflexivity|]); (split; [reflexivity|]); left; reflexivity.
Qed.

Lemma complete_reanneal_moves_points (s : t T) :
  match complete_reanneal s with
  | Returned s' | Threw _ s' => moves_points s s'
  | Looping => True
  end.
Proof.
  pose proof (complete_reanneal_frame s) as F.
  destruct (complete_reanneal s) as [s'|what s'|]; [| |exact I];
    destruct F as ((_ & Rmin & Rmax) & _ & _ & (X & _ & Xc & _ & Xb & _) & _);
    (split; [exact Rmin|]); (split; [exact Rmax|]);
    (split; [left; exact X|]); (split; [exact Xc|]); left; exact Xb.
Qed.

Lemma generate_next_in_bounds (ent : Entropy T) (fuel : nat) (s s' : t T) :
  generate_next ent fuel s = Some s' -> in_bounds s -> in_bounds s'.
Proof.
  intros G (B1 & _ & B3).
  destruct (generate_next_inv _ _ _ _ G) as (j & x_new & B & ->).
  split; [exact B1|]. split; [exact B|exact B3].
Qed.

Lemma advance_in_bounds (ent : Entropy T) (fuel : nat) (s s' : t T) :
  advance ent fuel s = Returned s' -> in_bounds s -> in_bounds s'.
Proof.
  intros A B. unfold advance in A.
  destruct (generate_next _ _ _) as [s3|] eqn:G; [|discriminate].
  assert (B3 : in_bounds s3).
  { apply (generate_next_in_bounds _ _ _ _ G).
    apply (moves_points_in_bounds _ _ (acceptance_check_moves_points ent _)).
    apply (moves_points_in_bounds _ _ (cooling_schedule_moves_points s)). exact B. }
  match type of A with context [if ?b then _ else _] => destruct b end.
  - match type of A with context [reanneal_test ?a] =>
      pose proof (reanneal_test_moves_points a) as R; destruct (reanneal_test a) as [again s5]
    end.
    injection A as <-. cbn [snd] in R.
    apply (moves_points_in_bounds _ _ R). exact B3.
  - injection A as <-. exact B3.
Qed.

Lemma step_in_bounds (ent : Entropy T) (fuel : nat) (s : t T) :
  in_bounds s ->
  match step ent fuel s with
  | Returned s' | Threw _ s' => in_bounds s'
  | Looping => True
  end.
Proof.
  intros B.
  assert (After : forall s1, in_bounds s1 ->
            match advance ent fuel s1 with
            | Returned s' | Threw _ s' => in_bounds s'
            | Looping => True
            end).
  { intros s1 B1. destruct (advance ent fuel s1) as [s'|what s'|] eqn:A; [| |exact I].
    - exact (advance_in_bounds _ _ _ _ A B1).
    - destruct (advance_returns _ _ _ _ _ A). }
  destruct (stop_condition s) as [why|] eqn:E.
  - rewrite (step_stops ent fuel s _ E). exact B.
  - rewrite (step_goes_on ent fuel s E). cbv zeta.
    set (s1 := s <| steps := uincr (steps s) |>).
    assert (B1 : in_bounds s1) by exact B.
    destruct (state s1); try exact (After s1 B1).
    pose proof (complete_reanneal_moves_points s1) as K.
    destruct (complete_reanneal s1) as [s2|what s2|]; [| |exact I].
    + apply After. exact (moves_points_in_bounds _ _ K B1).
    + exact (moves_points_in_bounds _ _ K B1).
Qed.

Lemma transition_in_bounds (s s' : t T) : transition s s' -> in_bounds s -> in_bounds s'.
Proof.
  intros Tr B.
  destruct Tr as [s v|s v|s ent fuel s' St|s ent fuel what s' St|s|s s' R|s what s' R
                 |s|s ent|s ent fuel s' G|s].
  - exact B.
  - exact B.
  - pose proof (step_in_bounds ent fuel s B) as P. rewrite St in P. exact P.
  - pose proof (step_in_bounds ent fuel s B) as P. rewrite St in P. exact P.
  - exact (moves_points_in_bounds _ _ (stop_check_moves_points s) B).
  - pose proof (complete_reanneal_moves_points s) as P. rewrite R in P.
    exact (moves_points_in_bounds _ _ P B).
  - pose proof (complete_reanneal_moves_points s) as P. rewrite R in P.
    exact (moves_points_in_bounds _ _ P B).
  - exact (moves_points_in_bounds _ _ (cooling_schedule_moves_points s) B).
  - exact (moves_points_in_bounds _ _ (acceptance_check_moves_points ent s) B).
  - exact (generate_next_in_bounds _ _ _ _ G B).
  - exact (moves_points_in_bounds _ _ (reanneal_test_moves_points s) B).
Qed.

Lemma configured_ranges (p : list T) (r : list (T * T)) (s : t T) :
  configured p r s ->
  range_min s = range_min (construct p r) /\ range_max s = range_max (construct p r).
Proof. induction 1; [split; reflexivity|assumption..]. Qed.

(** X7.  When the initial parameters are within the bounds, [x],
    [x_cand] and [x_best] are within the bounds at every later point of the
    run: after [init], after the client's writes of objectives, after
    [step], and after each of the methods [step] is made of. *)
Theorem points_stay_within_bounds (p : list T) (r : list (T * T)) (c0 s : t T) :
  configured p r c0 ->
  within_bounds (construct p r) p = true ->
  later (init c0) s ->
  within_bounds s (x s) = true /\
  within_bounds s (x_cand s) = true /\
  within_bounds s (x_best s) = true.
Proof.
  intros C B L. change (in_bounds s).
  remember (init c0) as s0 eqn:E0.
  induction L as [s1|s1 s' s'' L IH Tr].
  - subst s1. destruct (configured_points _ _ _ C) as (Xc & X & Xb & Dim & _).
    destruct (configured_ranges _ _ _ C) as (Rmin & Rmax).
    unfold in_bounds, within_bounds.
    change (range_max (init c0)) with (range_max c0).
    change (range_min (init c0)) with (range_min c0).
    change (x (init c0)) with (resize (D c0) zero (x c0)).
    change (x_cand (init c0)) with (resize (D c0) zero (x_cand c0)).
    change (x_best (init c0)) with (resize (D c0) zero (x_best c0)).
    rewrite Rmin, Rmax, Xc, X, Xb, Dim, resize_same.
    split; [exact B|split; exact B].
  - exact (transition_in_bounds _ _ Tr (IH E0)).
Qed.

End Bounds.

Section Dimensions.
Context {T : Type} `{Scalar T}.
Local Open Scope scalar_scope.
Import vVector.

Lemma zip_with_length (f : T -> T -> T) (a b : list T) :
  length (zip_with f a b) = Nat.min (length a) (length b).
Proof.
  revert b; induction a as [|x a IH]; intros [|y b]; cbn; try reflexivity.
  rewrite IH. reflexivity.
Qed.

Lemma resize_length (len : nat) (v : T) (a : list T) : length (resize len v a) = len.
Proof. unfold resize. rewrite length_app, length_firstn, repeat_length. lia. Qed.

Lemma schedule_length (dim : nat) (T0 cc : list T) (kk : Z) :
  length (schedule dim T0 cc kk) = Nat.min (length T0) (length cc).
Proof.
  unfold schedule, max_elementwise_inplace, vmul, vexp, vmul_s, vopp.
  rewrite length_map, zip_with_length, !length_map. reflexivity.
Qed.

Lemma draw_next_length (ent : Entropy T) (s : t T) :
  length (x s) = D s -> length (T_k s) = D s -> length (draw_next ent s) = D s.
Proof.
  intros X Tk. unfold draw_next, vadd, vmul, vsub_s, vpow, vadd_s, sdiv_v, vsignum, vabs, vmul_s.
  rewrite !zip_with_length, !length_map, !zip_with_length, !length_map, length_seq, X, Tk.
  lia.
Qed.

Lemma generate_delta_parameter_length (s : t T) (x_start : list T) :
  length x_start = D s -> length (range_min s) = D s -> length (range_max s) = D s ->
  length (generate_delta_parameter s x_start) = D s.
Proof.
  intros X Rmin Rmax. unfold generate_delta_parameter, vmul, sadd_v, vmul_s.
  cbv zeta.
  rewrite zip_with_length, !length_map, !length_combine, zip_with_length, !length_map,
    repeat_length, X, Rmin, Rmax.
  lia.
Qed.

(** The point [generate_next] returns is one it drew. *)
Lemma generate_next_drawn (ent : Entropy T) (fuel : nat) (s s' : t T) :
  generate_next ent fuel s = Some s' ->
  exists (j : nat),
    s' = s <| randomized := S j |>
           <| num_generated := uincr (num_generated s) |>
           <| num_generated_recently := uincr (num_generated_recently s) |>
           <| x_cand := draw_next ent (s <| randomized := j |>) |>.
Proof.
  revert s; induction fuel as [|fuel IH]; intros s; simpl; [discriminate|].
  destruct (within_bounds _ _) eqn:B.
  - intros [= <-]. exists (randomized s). destruct s; reflexivity.
  - intros G. destruct (IH _ G) as (j & ->). exists j. reflexivity.
Qed.

Lemma cooling_schedule_dimensioned (s : t T) : dimensioned s -> dimensioned (cooling_schedule s).
Proof.
  intros (X & Xc & Xb & Rmin & Rmax & T0 & Tk & C & Cc & Tc0 & Tc).
  unfold dimensioned. cbn -[schedule]. rewrite !schedule_length, T0, C, Tc0, Cc, Nat.min_id.
  repeat split; first [assumption|reflexivity].
Qed.

Lemma acceptance_check_dimensioned (ent : Entropy T) (s : t T) :
  dimensioned s -> dimensioned (acceptance_check ent s).
Proof.
  intros (X & Xc & Xb & Rmin & Rmax & T0 & Tk & C & Cc & Tc0 & Tc).
  destruct (acceptance_check_frame ent s)
    as ((F1 & F2 & F3) & (F4 & F5 & _ & F6) & (F7 & F8 & F9) & _ & (F10 & _) & _).
  pose proof (acceptance_check_on_effect (rng_u_get ent (rng_u s)) s) as E.
  cbv zeta in E. destruct E as (_ & EX & _ & EXb & _).
  fold (acceptance_check ent s) in EX, EXb.
  unfold dimensioned. rewrite F1, F2, F3, F4, F5, F6, F7, F8, F9, F10, EX, EXb.
  destruct (_ >=? _); destruct (improves_on_best s); cbn [andb];
    repeat split; assumption.
Qed.

Lemma generate_next_dimensioned (ent : Entropy T) (fuel : nat) (s s' : t T) :
  generate_next ent fuel s = Some s' -> dimensioned s -> dimensioned s'.
Proof.
  intros G (X & Xc & Xb & Rmin & Rmax & T0 & Tk & C & Cc & Tc0 & Tc).
  destruct (generate_next_drawn _ _ _ _ G) as (j & ->).
  assert (L : length (draw_next ent (s <| randomized := j |>)) = D s)
    by (change (D s) with (D (s <| randomized := j |>));
        apply draw_next_length; assumption).
  repeat split; first [assumption | exact L].
Qed.

Lemma reanneal_test_dimensioned (s : t T) :
  dimensioned s ->
  dimensioned (snd (reanneal_test s)) /\
  (fst (reanneal_test s) = true ->
   length (x_plusdelta (snd (reanneal_test s))) = D (snd (reanneal_test s))).
Proof.
  intros B. pose proof B as (X & Xc & Xb & Rmin & Rmax & T0 & Tk & C & Cc & Tc0 & Tc).
  pose proof (generate_delta_parameter_length s (x_best s) Xb Rmin Rmax) as L.
  rewrite reanneal_test_shape.
  destruct (negb _ && negb _); [|split; [exact B|discriminate 1]].
  destruct (accepted_vs_generated s <? acc_gen_reanneal_ratio s);
    (split; [repeat split; assumption|intros _; exact L]).
Qed.

(** The temperatures [complete_reanneal] leaves: those it found, or new
    ones of the same lengths. *)
Lemma complete_reanneal_temperatures (s : t T) :
  match complete_reanneal s with
  | Looping => True
  | Threw _ s' => T_k s' = T_k s /\ T_cost_0 s' = T_cost_0 s /\ T_cost s' = T_cost s
  | Returned s' =>
      (T_k s' = T_k s /\ T_cost_0 s' = T_cost_0 s /\ T_cost s' = T_cost s) \/
      (T_k s' = vabs (vmul (T_k s) (sdiv_v (vmax (vabs (tangent_estimate s)))
                                          (tangent_estimate s))) /\
       exists (v : T) (kk : Z),
         T_cost_0 s' = min_elementwise_inplace (T_cost_0 s) v /\
         T_cost s' = schedule (D s) (T_cost_0 s') (c_cost s) kk)
  end.
Proof.
  cbv beta delta [complete_reanneal]. cbv zeta.
  destruct (has_nan_or_inf _); [repeat split|].
  destruct (has_zero _); [left; repeat split|].
  match goal with |- context [if ?b then _ else _] => destruct b end; [|repeat split].
  right. split; [reflexivity|]. eexists. eexists. split; reflexivity.
Qed.

Lemma complete_reanneal_dimensioned (s : t T) :
  dimensioned s -> length (x_plusdelta s) = D s ->
  match complete_reanneal s with
  | Returned s' | Threw _ s' => dimensioned s' /\ x_plusdelta s' = x_plusdelta s /\ D s' = D s
  | Looping => True
  end.
Proof.
  intros (X & Xc & Xb & Rmin & Rmax & T0 & Tk & C & Cc & Tc0 & Tc) Xp.
  assert (Te : length (tangent_estimate s) = D s).
  { unfold tangent_estimate, sdiv_v, vadd_s, vsub.
    rewrite !length_map, zip_with_length, Xp, X. lia. }
  assert (Tre : length (vabs (vmul (T_k s)
                   (sdiv_v (vmax (vabs (tangent_estimate s))) (tangent_estimate s)))) = D s).
  { unfold vabs, vmul, sdiv_v. rewrite length_map, zip_with_length, length_map, Tk, Te. lia. }
  pose proof (complete_reanneal_frame s) as F.
  pose proof (complete_reanneal_temperatures s) as G.
  destruct (complete_reanneal s) as [s'|what s'|]; [| |exact I];
    destruct F as ((F1 & F2 & F3) & (F4 & _ & F5 & F6) & _
                   & (F7 & _ & F8 & _ & F9 & _ & F10 & _) & _);
    (split; [|split; [exact F10|exact F1]]);
    unfold dimensioned; rewrite F1, F2, F3, F4, F5, F6, F7, F8, F9.
  - destruct G as [(G1 & G2 & G3)|(G1 & v & kk & G2 & G3)].
    + rewrite G1, G2, G3. repeat split; assumption.
    + rewrite G3, G2, G1, Tre, schedule_length. unfold min_elementwise_inplace.
      rewrite length_map, Tc0, Cc, Nat.min_id. repeat split; assumption.
  - destruct G as (G1 & G2 & G3). rewrite G1, G2, G3. repeat split; assumption.
Qed.

Lemma advance_dimensioned (ent : Entropy T) (fuel : nat) (s s' : t T) :
  advance ent fuel s = Returned s' -> dimensioned s -> well_dimensioned s'.
Proof.
  intros A B. unfold advance in A.
  destruct (generate_next _ _ _) as [s3|] eqn:G; [|discriminate].
  assert (B3 : dimensioned s3).
  { apply (generate_next_dimensioned _ _ _ _ G).
    apply acceptance_check_dimensioned, cooling_schedule_dimensioned. exact B. }
  match type of A with context [if ?b then _ else _] => destruct b end.
  - match type of A with context [reanneal_test ?a] =>
      assert (B4 : dimensioned a) by exact B3;
      pose proof (reanneal_test_dimensioned a B4) as (R1 & R2);
      destruct (reanneal_test a) as [again s5]
    end.
    injection A as <-. cbn [fst snd] in R1, R2.
    split; [exact R1|].
    destruct again; [intros _; exact (R2 eq_refl)|discriminate 1].
  - injection A as <-. split; [exact B3|discriminate 1].
Qed.

Lemma step_well_dimensioned (ent : Entropy T) (fuel : nat) (s : t T) :
  well_dimensioned s ->
  match step ent fuel s with
  | Returned s' | Threw _ s' => well_dimensioned s'
  | Looping => True
  end.
Proof.
  intros (B & P).
  assert (After : forall s1, dimensioned s1 ->
            match advance ent fuel s1 with
            | Returned s' | Threw _ s' => well_dimensioned s'
            | Looping => True
            end).
  { intros s1 B1. destruct (advance ent fuel s1) as [s'|what s'|] eqn:A; [| |exact I].
    - exact (advance_dimensioned _ _ _ _ A B1).
    - destruct (advance_returns _ _ _ _ _ A). }
  destruct (stop_condition s) as [why|] eqn:E.
  - rewrite (step_stops ent fuel s _ E). split; [exact B|discriminate 1].
  - rewrite (step_goes_on ent fuel s E). cbv zeta.
    set (s1 := s <| steps := uincr (steps s) |>).
    assert (B1 : dimensioned s1) by exact B.
    change (state s1) with (state s).
    destruct (state s) eqn:S0; try exact (After s1 B1).
    pose proof (complete_reanneal_dimensioned s1 B1 (P eq_refl)) as K.
    destruct (complete_reanneal s1) as [s2|what s2|]; [| |exact I].
    + apply After. exact (proj1 K).
    + destruct K as (K & Xp & Dim). split; [exact K|].
      intros _. rewrite Xp, Dim. exact (P eq_refl).
Qed.

Lemma configured_dimensions (p : list T) (r : list (T * T)) (s : t T) :
  configured p r s ->
  length (range_min s) = D s /\ length (range_max s) = D s.
Proof.
  induction 1; [|assumption..].
  split; cbn; apply resize_length.
Qed.

(** X8.  In every state of a run [x], [x_cand], [x_best], [T_k],
    [T_cost], [range_min] and [range_max] have [D] elements, and so has
    [x_plusdelta] whenever the state is [NeedToComputeSet]: the client is
    never handed a point of another length, and [T_k[0]] and [T_cost[0]] of
    [stop_check] exist when [D > 0]. *)
Theorem reachable_well_dimensioned (s : t T) :
  reachable s ->
  (length (x s) = D s /\ length (x_cand s) = D s /\ length (x_best s) = D s) /\
  (length (T_k s) = D s /\ length (T_cost s) = D s) /\
  (length (range_min s) = D s /\ length (range_max s) = D s) /\
  (state s = NeedToComputeSet -> length (x_plusdelta s) = D s).
Proof.
  intros R.
  assert (W : well_dimensioned s).
  { induction R as [p r s C|s v R IH|s v R IH|s ent fuel s' R IH St|s ent fuel what s' R IH St].
    - destruct (configured_dimensions _ _ _ C) as (Rmin & Rmax).
      split; [|discriminate 1].
      unfold dimensioned.
      cbn -[resize vmul vmul_s vexp vdiv_s vopp set_from].
      unfold vmul, vmul_s, vexp, vdiv_s, vopp, set_from.
      rewrite ?length_map, ?zip_with_length, ?length_map, ?resize_length.
      repeat split; first [assumption | lia].
    - exact IH.
    - exact IH.
    - pose proof (step_well_dimensioned ent fuel _ IH) as U. rewrite St in U. exact U.
    - pose proof (step_well_dimensioned ent fuel _ IH) as U. rewrite St in U. exact U. }
  destruct W as ((X & Xc & Xb & Rmin & Rmax & T0 & Tk & C & Cc & Tc0 & Tc) & P).
  repeat split; assumption.
Qed.

End Dimensions.

Section Tallies.
Context {T : Type} `{Scalar T}.
Local Open Scope scalar_scope.
Import vVector.

Lemma uincr_of_nat (a : Z) (n : nat) :
  a = (Z.of_nat n mod uint_max)%Z -> uincr a = (Z.of_nat (S n) mod uint_max)%Z.
Proof.
  intros ->. unfold uincr. rewrite Zplus_mod_idemp_l. f_equal. lia.
Qed.

Lemma uincr_sum (a b : Z) (n : nat) :
  ((a + b) mod uint_max = Z.of_nat n mod uint_max)%Z ->
  ((uincr a + b) mod uint_max = Z.of_nat (S n) mod uint_max)%Z /\
  ((a + uincr b) mod uint_max = Z.of_nat (S n) mod uint_max)%Z.
Proof.
  intros E. unfold uincr.
  rewrite Zplus_mod_idemp_l, Zplus_mod_idemp_r.
  replace (a + 1 + b)%Z with (a + b + 1)%Z by lia.
  replace (a + (b + 1))%Z with (a + b + 1)%Z by lia.
  rewrite <- Zplus_mod_idemp_l, E, Zplus_mod_idemp_l.
  replace (Z.of_nat (S n)) with (Z.of_nat n + 1)%Z by lia.
  split; reflexivity.
Qed.

(** [acceptance_check] counts the candidate as improved or as worse. *)
Lemma acceptance_check_counts (ent : Entropy T) (s : t T) :
  let s' := acceptance_check ent s in
  (num_improved s' = uincr (num_improved s) /\ num_worse s' = num_worse s) \/
  (num_improved s' = num_improved s /\ num_worse s' = uincr (num_worse s)).
Proof.
  cbv zeta. unfold acceptance_check.
  of_value (acceptance_check_on (rng_u_get ent (rng_u s)) s) (@acceptance_check_on).
  exec; at_value; first [left; split; reflexivity | right; split; reflexivity].
Qed.

Lemma advance_tallies (ent : Entropy T) (fuel : nat) (s s' : t T) :
  advance ent fuel s = Returned s' -> tallies_agree s -> tallies_agree s'.
Proof.
  intros A (L1 & L2 & R & Na & Ni & Ng). unfold advance in A.
  destruct (generate_next _ _ _) as [s3|] eqn:G; [|discriminate].
  assert (B3 : tallies_agree s3).
  { clear A.
    destruct (generate_next_frame _ _ _ _ G)
      as (_ & _ & _ & _ & _ & _ & (G1 & G2 & G3 & G4) & (G5 & G6 & G7 & G8) & _ & (G9 & _) & _).
    unfold tallies_agree. rewrite G1, G2, G3, G4, G5, G6, G7, G8, G9. clear G.
    set (s1 := cooling_schedule s).
    destruct (acceptance_check_frame ent s1) as (_ & _ & _ & _ & _ & _ & _ & (Fg & _) & _).
    pose proof (acceptance_check_counts ent s1) as Cn. cbv zeta in Cn.
    pose proof (acceptance_check_on_effect (rng_u_get ent (rng_u s1)) s1) as E.
    cbv zeta in E.
    destruct E as (Er & _ & _ & _ & _ & _ & Ea & _ & E1 & E2 & E3 & E4).
    unfold acceptance_check. rewrite Er, Ea, E1, E2, E3, E4.
    fold (acceptance_check ent s1). rewrite Fg. clear Er Ea E1 E2 E3 E4 Fg.
    change (rng_u s1) with (rng_u s). change (num_accepted s1) with (num_accepted s).
    change (num_generated s1) with (num_generated s).
    change (param_hist_accepted s1) with (param_hist_accepted s).
    change (f_param_hist_accepted s1) with (f_param_hist_accepted s).
    change (param_hist_rejected s1) with (param_hist_rejected s).
    change (f_param_hist_rejected s1) with (f_param_hist_rejected s).
    change (num_improved s1) with (num_improved s) in Cn.
    change (num_worse s1) with (num_worse s) in Cn.
    destruct (uincr_sum _ _ _ Ni) as (Si & Sw).
    assert (Sum : ((num_improved (acceptance_check ent s1)
                    + num_worse (acceptance_check ent s1)) mod uint_max
                   = Z.of_nat (S (rng_u s)) mod uint_max)%Z).
    { destruct Cn as [(-> & ->)|(-> & ->)]; assumption. }
    destruct (_ >=? _).
    - rewrite !length_app. cbn [length].
      split; [lia|]. split; [exact L2|]. split; [lia|].
      split; [|split; [exact Sum|apply uincr_of_nat; exact Ng]].
      replace (length (param_hist_accepted s) + 1)%nat
        with (S (length (param_hist_accepted s))) by lia.
      apply uincr_of_nat. exact Na.
    - rewrite !length_app. cbn [length].
      split; [exact L1|]. split; [lia|]. split; [lia|].
      split; [exact Na|]. split; [exact Sum|apply uincr_of_nat; exact Ng]. }
  assert (After : tallies_agree
            (snd (reanneal_test (s3 <| k := uincr (k s3) |>
                                    <| k_r := uincr (k_r (s3 <| k := uincr (k s3) |>)) |>)))).
  { pose proof (reanneal_test_frame
                  (s3 <| k := uincr (k s3) |>
                      <| k_r := uincr (k_r (s3 <| k := uincr (k s3) |>)) |>)) as F.
    cbv zeta in F.
    destruct F as (_ & _ & _ & _ & _ & _ & (F1 & F2 & F3 & F4 & F5 & _)
                   & (F6 & F7 & F8 & F9) & _).
    unfold tallies_agree. rewrite F1, F2, F3, F4, F5, F6, F7, F8, F9. exact B3. }
  match type of A with context [if ?b then _ else _] => destruct b end.
  - destruct (reanneal_test _) as [again s5].
    injection A as <-. exact After.
  - injection A as <-. exact B3.
Qed.

Lemma step_tallies (ent : Entropy T) (fuel : nat) (s : t T) :
  tallies_agree s ->
  match step ent fuel s with
  | Returned s' | Threw _ s' => tallies_agree s'
  | Looping => True
  end.
Proof.
  intros B.
  assert (After : forall s1, tallies_agree s1 ->
            match advance ent fuel s1 with
            | Returned s' | Threw _ s' => tallies_agree s'
            | Looping => True
            end).
  { intros s1 B1. destruct (advance ent fuel s1) as [s'|what s'|] eqn:A; [| |exact I].
    - exact (advance_tallies _ _ _ _ A B1).
    - destruct (advance_returns _ _ _ _ _ A). }
  destruct (stop_condition s) as [why|] eqn:E.
  - rewrite (step_stops ent fuel s _ E). exact B.
  - rewrite (step_goes_on ent fuel s E). cbv zeta.
    set (s1 := s <| steps := uincr (steps s) |>).
    assert (B1 : tallies_agree s1) by exact B.
    destruct (state s1); try exact (After s1 B1).
    pose proof (complete_reanneal_frame s1) as F.
    destruct (complete_reanneal s1) as [s2|what s2|]; [| |exact I];
      destruct F as (_ & _ & _ & _ & (F1 & F2 & F3 & F4 & F5 & _) & (F6 & F7 & F8 & F9) & _).
    + apply After. unfold tallies_agree.
      change (tallies_agree s2). unfold tallies_agree.
      rewrite F1, F2, F3, F4, F5, F6, F7, F8, F9. exact B1.
    + unfold tallies_agree. rewrite F1, F2, F3, F4, F5, F6, F7, F8, F9. exact B1.
Qed.

Lemma configured_tallies (p : list T) (r : list (T * T)) (s : t T) :
  configured p r s -> tallies_agree s.
Proof. induction 1; [repeat split|assumption..]. Qed.

(** X9.  In every state of a run the histories and the counters
    agree.  The history of parameters and the history of objectives have the
    same length, for the accepted and for the rejected candidates; the two
    together have one entry for each number drawn from [rng_u], that is for
    each acceptance check; and, modulo 2^32, [num_accepted] is the length of
    the accepted history, [num_improved + num_worse] the number of
    acceptance checks, and [num_generated] the same number: one candidate is
    generated after every acceptance check. *)
Theorem histories_agree_with_counters (s : t T) :
  reachable s ->
  length (f_param_hist_accepted s) = length (param_hist_accepted s) /\
  length (f_param_hist_rejected s) = length (param_hist_rejected s) /\
  rng_u s = (length (param_hist_accepted s) + length (param_hist_rejected s))%nat /\
  num_accepted s = (Z.of_nat (length (param_hist_accepted s)) mod uint_max)%Z /\
  ((num_improved s + num_worse s) mod uint_max = Z.of_nat (rng_u s) mod uint_max)%Z /\
  num_generated s = (Z.of_nat (rng_u s) mod uint_max)%Z.
Proof.
  intros R. change (tallies_agree s).
  induction R as [p r s C|s v R IH|s v R IH|s ent fuel s' R IH St|s ent fuel what s' R IH St].
  - exact (configured_tallies _ _ _ C).
  - exact IH.
  - exact IH.
  - pose proof (step_tallies ent fuel _ IH) as U. rewrite St in U. exact U.
  - pose proof (step_tallies ent fuel _ IH) as U. rewrite St in U. exact U.
Qed.

End Tallies.

Section Steps.
Context {T : Type} `{Scalar T}.
Local Open Scope scalar_scope.
Import vVector.

(** What [advance] makes of the object, as far as the schedule and the
    counts go. *)
Lemma advance_counts (ent : Entropy T) (fuel : nat) (s s' : t T) :
  advance ent fuel s = Returned s' ->
  exists s3 : t T,
    generate_next ent fuel (acceptance_check ent (cooling_schedule s)) = Some s3 /\
    s' = (if enable_reanneal s
          then (snd (reanneal_test (s3 <| k := uincr (k s) |> <| k_r := uincr (k_r s) |>)))
                 <| state := if fst (reanneal_test
                                       (s3 <| k := uincr (k s) |> <| k_r := uincr (k_r s) |>))
                             then NeedToComputeSet else NeedToCompute |>
          else s3 <| k := uincr (k s) |> <| k_r := uincr (k_r s) |> <| state := NeedToCompute |>).
Proof.
  intros A. unfold advance in A.
  destruct (generate_next _ _ _) as [s3|] eqn:G; [|discriminate].
  exists s3. split; [reflexivity|].
  destruct (generate_next_frame _ _ _ _ G)
    as (_ & _ & _ & (G1 & G2 & _) & _ & _ & _ & _ & (_ & G3 & _) & _).
  destruct (acceptance_check_frame ent (cooling_schedule s))
    as (_ & _ & _ & (A1 & A2 & _) & _ & _ & _ & _ & (_ & A3 & _)).
  assert (K : k s3 = k s) by (rewrite G1, A1; reflexivity).
  assert (Kr : k_r s3 = k_r s) by (rewrite G2, A2; reflexivity).
  assert (En : enable_reanneal s3 = enable_reanneal s) by (rewrite G3, A3; reflexivity).
  change (enable_reanneal (s3 <| k := uincr (k s3) |>
                              <| k_r := uincr (k_r (s3 <| k := uincr (k s3) |>)) |>))
    with (enable_reanneal s3) in A.
  change (k_r (s3 <| k := uincr (k s3) |>)) with (k_r s3) in A.
  rewrite K, Kr, En in A.
  destruct (enable_reanneal s).
  - destruct (reanneal_test _) as [again s5]. injection A as <-. reflexivity.
  - injection A as <-. reflexivity.
Qed.

Lemma step_ordinary (ent : Entropy T) (fuel : nat) (s s' : t T) :
  state s <> NeedToComputeSet ->
  stop_condition s = None ->
  step ent fuel s = Returned s' ->
  advance ent fuel (s <| steps := uincr (steps s) |>) = Returned s'.
Proof.
  intros NS E St. rewrite (step_goes_on ent fuel s E) in St. cbv zeta in St.
  change (state (s <| steps := uincr (steps s) |>)) with (state s) in St.
  destruct (state s); try exact St. destruct NS; reflexivity.
Qed.

(** X10.  When [step] asks for a reanneal, for a call that goes on from
    a state other than [NeedToComputeSet].  Never while [k_r], counted up by
    this call, is below [min_steps_to_reanneal = 10].  And always, when
    reannealing is enabled, once it has reached both 10 and
    [reanneal_after_steps], whatever the ratio of accepted to generated
    candidates: then the state is [NeedToComputeSet], [x] and [f_x] are set
    back to [x_best] and [f_x_best], and [x_plusdelta] is the probe point
    made from [x_best]. *)
Theorem reanneal_timing (ent : Entropy T) (fuel : nat) (s s' : t T) :
  state s <> NeedToComputeSet ->
  stop_condition s = None ->
  step ent fuel s = Returned s' ->
  ((uincr (k_r s) <? min_steps_to_reanneal)%Z = true -> state s' = NeedToCompute) /\
  (enable_reanneal s = true ->
   (uincr (k_r s) <? min_steps_to_reanneal)%Z = false ->
   (uincr (k_r s) <? reanneal_after_steps s)%Z = false ->
   state s' = NeedToComputeSet /\
   x s' = x_best s' /\ f_x s' = f_x_best s' /\
   x_plusdelta s' = generate_delta_parameter s' (x_best s')).
Proof.
  intros NS E St. pose proof (step_ordinary _ _ _ _ NS E St) as A.
  destruct (advance_counts _ _ _ _ A) as (s3 & G & ->).
  change (enable_reanneal (s <| steps := uincr (steps s) |>)) with (enable_reanneal s).
  change (k (s <| steps := uincr (steps s) |>)) with (k s).
  change (k_r (s <| steps := uincr (steps s) |>)) with (k_r s).
  destruct (generate_next_frame _ _ _ _ G)
    as (_ & _ & _ & _ & _ & _ & _ & _ & _ & _ & (G1 & _)).
  destruct (acceptance_check_frame
              ent (cooling_schedule (s <| steps := uincr (steps s) |>)))
    as (_ & _ & _ & _ & _ & _ & _ & _ & (_ & _ & _ & _ & A1 & _)).
  assert (Ras : reanneal_after_steps s3 = reanneal_after_steps s)
    by (rewrite G1, A1; reflexivity).
  rewrite reanneal_test_shape.
  change (k_r (s3 <| k := uincr (k s) |> <| k_r := uincr (k_r s) |>)) with (uincr (k_r s)).
  change (reanneal_after_steps (s3 <| k := uincr (k s) |> <| k_r := uincr (k_r s) |>))
    with (reanneal_after_steps s3).
  rewrite Ras.
  split.
  - intros ->. cbn [negb andb]. destruct (enable_reanneal s); reflexivity.
  - intros -> -> ->. cbn [negb andb fst snd].
    destruct (accepted_vs_generated _ <? acc_gen_reanneal_ratio _); repeat split.
Qed.

(** What a call of [step] that goes on and has no reanneal to complete makes
    of the object. *)
Lemma step_ordinary_effect (ent : Entropy T) (fuel : nat) (s s' : t T) :
  state s <> NeedToComputeSet ->
  stop_condition s = None ->
  step ent fuel s = Returned s' ->
  (steps s' = uincr (steps s) /\ k s' = uincr (k s) /\ k_r s' = uincr (k_r s)) /\
  (T_k s' = schedule (D s) (T_0 s) (c s) (k s) /\
   T_cost s' = schedule (D s) (T_cost_0 s) (c_cost s) (k_cost s)) /\
  (rng_u s' = S (rng_u s) /\ num_generated s' = uincr (num_generated s)) /\
  (within_bounds s' (x_cand s') = true /\ f_x_cand s' = f_x_cand s) /\
  (x_best s' = x_best s \/ x_best s' = x_cand s /\ f_x_best s' = f_x_cand s).
Proof.
  intros NS E St. pose proof (step_ordinary _ _ _ _ NS E St) as A.
  destruct (advance_counts _ _ _ _ A) as (s3 & G & Es').
  set (s0 := s <| steps := uincr (steps s) |>) in *.
  pose proof (generate_next_within_bounds _ _ _ _ G) as B.
  destruct (generate_next_frame _ _ _ _ G)
    as ((G1 & G2 & G3) & (_ & G4 & _) & (_ & _ & G5) & (_ & _ & _ & G6)
        & (_ & _ & G7 & G8 & G9) & _ & (_ & _ & _ & G10) & _ & _ & (G11 & _) & _).
  destruct (acceptance_check_frame ent (cooling_schedule s0))
    as (_ & (_ & A1 & _) & (_ & _ & A2) & (_ & _ & _ & A3) & (_ & A4) & _ & _ & (A5 & _) & _).
  pose proof (acceptance_check_on_effect
                (rng_u_get ent (rng_u (cooling_schedule s0))) (cooling_schedule s0)) as Ef.
  cbv zeta in Ef. destruct Ef as (E1 & _ & _ & E2 & E3 & _).
  fold (acceptance_check ent (cooling_schedule s0)) in E1, E2, E3.
  assert (Q : (steps s3 = uincr (steps s) /\ T_k s3 = schedule (D s) (T_0 s) (c s) (k s) /\
               T_cost s3 = schedule (D s) (T_cost_0 s) (c_cost s) (k_cost s)) /\
              (rng_u s3 = S (rng_u s) /\ num_generated s3 = uincr (num_generated s)) /\
              f_x_cand s3 = f_x_cand s /\
              (x_best s3 = x_best s \/ x_best s3 = x_cand s /\ f_x_best s3 = f_x_cand s)).
  { rewrite G4, G5, G6, G7, G8, G9, G10, G11, A1, A2, A3, A4, A5, E1, E2, E3.
    split; [repeat split|]. split; [repeat split|]. split; [reflexivity|].
    destruct (_ && _); [right; split; reflexivity|left; reflexivity]. }
  destruct Q as ((Q1 & Q2 & Q3) & (Q4 & Q5) & Q6 & Q7).
  assert (W : within_bounds (s3 <| k := uincr (k s0) |> <| k_r := uincr (k_r s0) |>)
                            (x_cand s3) = true) by exact B.
  subst s'.
  change (enable_reanneal s0) with (enable_reanneal s).
  destruct (enable_reanneal s).
  - pose proof (reanneal_test_frame (s3 <| k := uincr (k s0) |> <| k_r := uincr (k_r s0) |>))
      as F.
    cbv zeta in F.
    destruct (reanneal_test _) as [again s5]. cbn [fst snd] in F |- *.
    destruct F as ((F1 & F2 & F3) & (_ & F4 & _) & (_ & _ & F5) & (F6 & F7 & _ & F8)
                   & (F9 & F10 & F11 & F12) & _ & (F13 & _ & _ & _ & F14 & _) & _).
    unfold within_bounds in W |- *.
    change (steps (s5 <| state := _ |>)) with (steps s5).
    change (k (s5 <| state := _ |>)) with (k s5).
    change (k_r (s5 <| state := _ |>)) with (k_r s5).
    change (T_k (s5 <| state := _ |>)) with (T_k s5).
    change (T_cost (s5 <| state := _ |>)) with (T_cost s5).
    change (rng_u (s5 <| state := _ |>)) with (rng_u s5).
    change (num_generated (s5 <| state := _ |>)) with (num_generated s5).
    change (x_cand (s5 <| state := _ |>)) with (x_cand s5).
    change (f_x_cand (s5 <| state := _ |>)) with (f_x_cand s5).
    change (x_best (s5 <| state := _ |>)) with (x_best s5).
    change (f_x_best (s5 <| state := _ |>)) with (f_x_best s5).
    change (range_max (s5 <| state := _ |>)) with (range_max s5).
    change (range_min (s5 <| state := _ |>)) with (range_min s5).
    rewrite F2, F3, F4, F5, F6, F7, F8, F9, F10, F11, F12, F13, F14.
    split; [split; [exact Q1|split; reflexivity]|].
    split; [split; [exact Q2|exact Q3]|].
    split; [split; [exact Q4|exact Q5]|].
    split; [split; [exact W|exact Q6]|exact Q7].
  - split; [split; [exact Q1|split; reflexivity]|].
    split; [split; [exact Q2|exact Q3]|].
    split; [split; [exact Q4|exact Q5]|].
    split; [split; [exact W|exact Q6]|exact Q7].
Qed.

(** X11.  A call of [step] that goes on and has no reanneal to
    complete.  [steps], [k] and [k_r] are one up (modulo 2^32); [T_k] and
    [T_cost] are those of the cooling schedule at the [k] and the [k_cost]
    of before the call; one number was drawn from [rng_u] and one candidate
    generated, within the bounds; the client's [f_x_cand] is kept (it
    belongs to the candidate of before); and [x_best] is as before, or it is
    the candidate that was judged, with [f_x_best] its objective. *)
Theorem ordinary_step (ent : Entropy T) (fuel : nat) (s s' : t T) :
  state s <> NeedToComputeSet ->
  stop_condition s = None ->
  step ent fuel s = Returned s' ->
  (steps s' = uincr (steps s) /\ k s' = uincr (k s) /\ k_r s' = uincr (k_r s)) /\
  (T_k s' = schedule (D s) (T_0 s) (c s) (k s) /\
   T_cost s' = schedule (D s) (T_cost_0 s) (c_cost s) (k_cost s)) /\
  (rng_u s' = S (rng_u s) /\ num_generated s' = uincr (num_generated s)) /\
  (within_bounds s' (x_cand s') = true /\ f_x_cand s' = f_x_cand s) /\
  (x_best s' = x_best s \/ x_best s' = x_cand s /\ f_x_best s' = f_x_cand s).
Proof. exact (step_ordinary_effect ent fuel s s'). Qed.

End Steps.

Section Temperatures.
Context {T : Type} `{Scalar T}.
Local Open Scope scalar_scope.
Import vVector.

Lemma schedule_floored (dim : nat) (T0 cc : list T) (kk : Z) :
  (epsilon <? epsilon) = false -> floored (schedule dim T0 cc kk).
Proof.
  intros Irr. unfold schedule, max_elementwise_inplace, floored.
  apply Forall_map, Forall_forall. intros t _. unfold std_max.
  destruct (t <? epsilon) eqn:E; [exact Irr|exact E].
Qed.

(** X12.  The cooling schedule stops at [eps].  After a call of
    [step] that goes on and has no reanneal to complete, no entry of [T_k]
    or of [T_cost] is below [eps].  (That [eps < eps] is false is all this
    asks of the comparison of [T]; an entry that is NaN is not below
    [eps] either.) *)
Theorem temperatures_are_floored (ent : Entropy T) (fuel : nat) (s s' : t T) :
  (epsilon <? epsilon) = false ->
  state s <> NeedToComputeSet ->
  stop_condition s = None ->
  step ent fuel s = Returned s' ->
  Forall (fun t => (t <? epsilon) = false) (T_k s') /\
  Forall (fun t => (t <? epsilon) = false) (T_cost s').
Proof.
  intros Irr NS E St.
  destruct (step_ordinary_effect _ _ _ _ NS E St) as (_ & (-> & ->) & _).
  split; apply schedule_floored; exact Irr.
Qed.

End Temperatures.

Section Uphill.
Context {T : Type} `{Scalar T}.
Local Open Scope scalar_scope.
Import vVector.

(** X13.  The acceptance test does not look at [downhill].  With
    [downhill] set either way, the acceptance probability is the same, the
    candidate is accepted or rejected alike, and [x], [f_x], [num_accepted],
    [k_cost], the use of [rng_u] and the four histories come out the same.
    ([downhill] is read when the candidate is counted as improved or worse,
    and when it is compared with the best.) *)
Theorem acceptance_ignores_downhill (ent : Entropy T) (s : t T) (dh : bool) :
  let a := acceptance_check ent s in
  let b := acceptance_check ent (s <| downhill := dh |>) in
  acceptance_probability (s <| downhill := dh |>) = acceptance_probability s /\
  (x b = x a /\ f_x b = f_x a) /\
  (num_accepted b = num_accepted a /\ k_cost b = k_cost a /\ rng_u b = rng_u a) /\
  (param_hist_accepted b = param_hist_accepted a /\
   f_param_hist_accepted b = f_param_hist_accepted a /\
   param_hist_rejected b = param_hist_rejected a /\
   f_param_hist_rejected b = f_param_hist_rejected a).
Proof.
  cbv zeta. unfold acceptance_check.
  change (rng_u (s <| downhill := dh |>)) with (rng_u s).
  pose proof (acceptance_check_on_effect (rng_u_get ent (rng_u s)) s) as Ea.
  pose proof (acceptance_check_on_effect (rng_u_get ent (rng_u s)) (s <| downhill := dh |>))
    as Eb.
  cbv zeta in Ea, Eb.
  destruct Ea as (A1 & A2 & A3 & _ & _ & _ & A4 & A5 & A6 & A7 & A8 & A9).
  destruct Eb as (B1 & B2 & B3 & _ & _ & _ & B4 & B5 & B6 & B7 & B8 & B9).
  rewrite A1, A2, A3, A4, A5, A6, A7, A8, A9, B1, B2, B3, B4, B5, B6, B7, B8, B9.
  repeat split.
Qed.

End Uphill.

Section Init.
Context {T : Type} `{Scalar T}.
Local Open Scope scalar_scope.
Import vVector.

Lemma resize_resize (len : nat) (v : T) (a : list T) :
  resize len v (resize len v a) = resize len v a.
Proof.
  rewrite <- (resize_length len v a) at 1. apply resize_same.
Qed.

Lemma set_from_resize (len : nat) (v w : T) (a : list T) :
  set_from (resize len v a) w = repeat w len.
Proof.
  unfold set_from. rewrite <- (resize_length len v a) at 2.
  induction (resize len v a) as [|y l IH]; cbn; [reflexivity|rewrite IH; reflexivity].
Qed.

(** X14.  [init] twice is [init] once, whatever the object. *)
Theorem init_is_idempotent (s : t T) : init (init s) = init s.
Proof.
  destruct s.
  cbv - [resize set_from vmul vexp vdiv_s vopp vmul_s mean repeat length Z.of_nat
         max_value lowest zero one log opp of_uint to_uint].
  rewrite !resize_resize, !set_from_resize.
  reflexivity.
Qed.

End Init.

Section CostSchedule.
Context {T : Type} `{Scalar T}.
Local Open Scope scalar_scope.
Import vVector.

Lemma min_elementwise_repeat (a v : T) (len : nat) :
  min_elementwise_inplace (repeat a len) v = repeat (std_min a v) len.
Proof. unfold min_elementwise_inplace. rewrite map_repeat. reflexivity. Qed.

Lemma init_cost_uniform (p : list T) (r : list (T * T)) (s : t T) :
  configured p r s -> cost_schedule_is_uniform (init s).
Proof.
  intros C. destruct (configured_fresh _ _ _ C) as (_ & _ & Em & En & _).
  pose (cc := vmul_s
                (vmul (set_from (resize (D s) zero (m s)) (- log (temperature_ratio_scale s)))
                      (vexp (vdiv_s (vopp (set_from (resize (D s) zero (n s))
                                                    (log (temperature_anneal_scale s))))
                                    (of_uint (Z.of_nat (D s))))))
                (cost_parameter_scale_ratio s)).
  assert (EqD : D (init s) = D s) by reflexivity.
  assert (Eqc : c_cost (init s) = cc) by reflexivity.
  assert (Eq0 : T_cost_0 (init s) = cc) by reflexivity.
  assert (Eqt : T_cost (init s) = cc) by reflexivity.
  unfold cost_schedule_is_uniform. rewrite Eq0, Eqt, Eqc, EqD. unfold cc. rewrite Em, En.
  rewrite !resize_nil, !set_from_repeat.
  unfold vmul, vexp, vdiv_s, vopp, vmul_s. rewrite !map_repeat, zip_with_repeat, map_repeat.
  split; [eexists; reflexivity|]. split; eexists; reflexivity.
Qed.

Lemma advance_cost_uniform (ent : Entropy T) (fuel : nat) (s s' : t T) :
  advance ent fuel s = Returned s' -> cost_schedule_is_uniform s -> cost_schedule_is_uniform s'.
Proof.
  intros A ((cv & Uc) & (t0 & U0) & _).
  destruct (advance_counts _ _ _ _ A) as (s3 & G & Es').
  destruct (generate_next_frame _ _ _ _ G) as ((G1 & _) & _ & (G2 & G3 & G4) & _).
  destruct (acceptance_check_frame ent (cooling_schedule s))
    as ((A1 & _) & _ & (A2 & A3 & A4) & _).
  assert (Q : D s3 = D s /\ c_cost s3 = c_cost s /\ T_cost_0 s3 = T_cost_0 s /\
              T_cost s3 = schedule (D s) (T_cost_0 s) (c_cost s) (k_cost s)).
  { rewrite G1, G2, G3, G4, A1, A2, A3, A4. repeat split. }
  destruct Q as (Q1 & Q2 & Q3 & Q4).
  assert (U3 : cost_schedule_is_uniform s3).
  { unfold cost_schedule_is_uniform. rewrite Q1, Q2, Q3, Q4, Uc, U0.
    split; [eexists; reflexivity|]. split; [eexists; reflexivity|]. apply schedule_repeat. }
  subst s'. destruct (enable_reanneal s); [|exact U3].
  pose proof (reanneal_test_frame (s3 <| k := uincr (k s) |> <| k_r := uincr (k_r s) |>)) as F.
  cbv zeta in F. destruct (reanneal_test _) as [again s5]. cbn [fst snd] in F |- *.
  destruct F as ((F1 & _) & _ & (F2 & F3 & F4) & _).
  unfold cost_schedule_is_uniform.
  change (D (s5 <| state := _ |>)) with (D s5).
  change (c_cost (s5 <| state := _ |>)) with (c_cost s5).
  change (T_cost_0 (s5 <| state := _ |>)) with (T_cost_0 s5).
  change (T_cost (s5 <| state := _ |>)) with (T_cost s5).
  rewrite F1, F2, F3, F4. exact U3.
Qed.

Lemma step_cost_uniform (ent : Entropy T) (fuel : nat) (s : t T) :
  cost_schedule_is_uniform s ->
  match step ent fuel s with
  | Returned s' | Threw _ s' => cost_schedule_is_uniform s'
  | Looping => True
  end.
Proof.
  intros U.
  assert (After : forall s1, cost_schedule_is_uniform s1 ->
            match advance ent fuel s1 with
            | Returned s' | Threw _ s' => cost_schedule_is_uniform s'
            | Looping => True
            end).
  { intros s1 U1. destruct (advance ent fuel s1) as [s'|what s'|] eqn:A; [| |exact I].
    - exact (advance_cost_uniform _ _ _ _ A U1).
    - destruct (advance_returns _ _ _ _ _ A). }
  destruct (stop_condition s) as [why|] eqn:E.
  - rewrite (step_stops ent fuel s _ E). exact U.
  - rewrite (step_goes_on ent fuel s E). cbv zeta.
    set (s1 := s <| steps := uincr (steps s) |>).
    assert (U1 : cost_schedule_is_uniform s1) by exact U.
    destruct (state s1); try exact (After s1 U1).
    pose proof (complete_reanneal_frame s1) as F.
    pose proof (complete_reanneal_temperatures s1) as G.
    destruct U1 as ((cv & Uc) & (t0 & U0) & (tv & Ut)).
    destruct (complete_reanneal s1) as [s2|what s2|]; [| |exact I];
      destruct F as ((F1 & _) & (_ & _ & _ & F2) & _).
    + apply After.
      change (cost_schedule_is_uniform s2). unfold cost_schedule_is_uniform.
      rewrite F1, F2.
      destruct G as [(_ & G2 & G3)|(_ & v & kk & G2 & G3)].
      * rewrite G2, G3.
        split; [exists cv; exact Uc|]. split; [exists t0; exact U0|exists tv; exact Ut].
      * rewrite G3, G2, Uc, U0, min_elementwise_repeat.
        split; [eexists; reflexivity|]. split; [eexists; reflexivity|]. apply schedule_repeat.
    + destruct G as (_ & G2 & G3). unfold cost_schedule_is_uniform.
      rewrite F1, F2, G2, G3.
      split; [exists cv; exact Uc|]. split; [exists t0; exact U0|exists tv; exact Ut].
Qed.

Lemma reachable_cost_uniform (s : t T) : reachable s -> cost_schedule_is_uniform s.
Proof.
  induction 1 as [p r s C|s v R IH|s v R IH|s ent fuel s' R IH St|s ent fuel what s' R IH St].
  - apply (init_cost_uniform _ _ _ C).
  - exact IH.
  - exact IH.
  - pose proof (step_cost_uniform ent fuel _ IH) as U. rewrite St in U. exact U.
  - pose proof (step_cost_uniform ent fuel _ IH) as U. rewrite St in U. exact U.
Qed.

(** X15.  One temperature for all dimensions.  In every state of a
    run [T_0] is all ones and [T_k] and [T_cost] are constant vectors: the
    class keeps a temperature per dimension, but what a reanneal assigns per
    dimension is replaced by the cooling schedule before [step] returns, and
    the schedule is the same in every dimension. *)
Theorem temperatures_are_uniform (s : t T) :
  reachable s ->
  T_0 s = repeat one (D s) /\
  (exists tv : T, T_k s = repeat tv (D s)) /\
  (exists tv : T, T_cost s = repeat tv (D s)).
Proof.
  intros R.
  destruct (reachable_uniform _ R) as (U0 & _ & Uk).
  destruct (reachable_cost_uniform _ R) as (_ & _ & Uc).
  split; [exact U0|]. split; [exact Uk|exact Uc].
Qed.

End CostSchedule.

Section Returns.
Context {T : Type} `{Scalar T}.
Local Open Scope scalar_scope.
Import vVector.

(** X16.  [step] returns.  From a state other than
    [NeedToComputeSet], when of the points that [generate_next] draws after
    the cooling schedule and the acceptance check of this call the first
    [n] are out of the bounds and the next one is within (and the loop is
    given the time: [n < fuel]), the call of [step] returns; and unless it
    stops on a stopping condition, that point is the candidate it leaves
    in [x_cand]. *)
Theorem step_returns_when_a_draw_fits (ent : Entropy T) (fuel : nat) (s : t T) (n : nat) :
  state s <> NeedToComputeSet ->
  let judged := acceptance_check ent (cooling_schedule (s <| steps := uincr (steps s) |>)) in
  (forall i, (i < n)%nat -> within_bounds judged (nth_draw ent judged i) = false) ->
  within_bounds judged (nth_draw ent judged n) = true ->
  (n < fuel)%nat ->
  exists s' : t T,
    step ent fuel s = Returned s' /\
    (stop_condition s = None -> x_cand s' = nth_draw ent judged n).
Proof.
  intros NS judged Out In Lt.
  destruct (stop_condition s) as [why|] eqn:E.
  - eexists. split; [apply (step_stops ent fuel s _ E)|discriminate 1].
  - rewrite (step_goes_on ent fuel s E). cbv zeta.
    change (state (s <| steps := uincr (steps s) |>)) with (state s).
    pose proof (generate_next_first_fit ent fuel judged n Out In Lt) as G.
    assert (A : exists s', advance ent fuel (s <| steps := uincr (steps s) |>) = Returned s'
                           /\ x_cand s' = nth_draw ent judged n).
    { unfold advance. fold judged. rewrite G.
      match goal with |- context [if ?b then _ else _] => destruct b end.
      - match goal with |- context [reanneal_test ?a] =>
          pose proof (reanneal_test_frame a) as F; cbv zeta in F;
          destruct (reanneal_test a) as [again s5]
        end.
        eexists. split; [reflexivity|].
        cbn [snd] in F. destruct F as (_ & _ & _ & _ & (F1 & _) & _).
        change (x_cand (s5 <| state := _ |>)) with (x_cand s5).
        rewrite F1. reflexivity.
      - eexists. split; reflexivity. }
    destruct A as (s' & A & Xc).
    exists s'. split; [|intros _; exact Xc].
    destruct (state s); try exact A. destruct NS; reflexivity.
Qed.

End Returns.

(** ** The further properties on runs of doubles *)

Module MoreExamples.
Import Double Scenario.
Local Open Scope float_scope.

Lemma start_is_reachable : reachable start.
Proof.
  apply (reach_init (p := [5]) (r := [(0, 10)])).
  apply conf_reanneal_after_steps, conf_new.
Qed.

Lemma probing_is_reachable : reachable probing.
Proof.
  apply (run_reachable quadratic steady 100 10 start probing start_is_reachable).
  vm_compute; reflexivity.
Qed.

Lemma step_asks_or_stops_witness :
  step steady 100 asked = Returned stepped /\
  steps stepped = uincr (steps asked).
Proof.
  assert (St : step steady 100 asked = Returned stepped) by (vm_compute; reflexivity).
  split; [exact St|].
  destruct (step_asks_or_stops steady 100 asked stepped St) as (P & _). exact P.
Defined.

Lemma ready_to_stop_is_final_witness :
  state halted = ReadyToStop /\
  client quadratic halted = halted /\
  step downward 7 halted = Returned (halted <| steps := uincr (steps halted) |>) /\
  run quadratic downward 7 7 halted = Returned halted.
Proof.
  assert (Stop : state halted = ReadyToStop) by (vm_compute; reflexivity).
  split; [exact Stop|].
  apply (ready_to_stop_is_final steady downward 100 7 7 quadratic frozen halted);
    [vm_compute; reflexivity|exact Stop].
Defined.

Lemma step_throws_only_in_reanneal_witness :
  step steady 100 poisoned
  = Threw "NaN or inf in tangents"
          (poisoned <| steps := uincr (steps poisoned) |>
                    <| tangents := tangent_estimate poisoned |>) /\
  state poisoned = NeedToComputeSet /\
  stop_condition poisoned = None.
Proof.
  assert (St : step steady 100 poisoned
               = Threw "NaN or inf in tangents"
                       (poisoned <| steps := uincr (steps poisoned) |>
                                 <| tangents := tangent_estimate poisoned |>))
    by (vm_compute; reflexivity).
  split; [exact St|].
  destruct (step_throws_only_in_reanneal steady 100 poisoned _ _ St) as (P & Q & _).
  split; [exact P|exact Q].
Defined.

(** The other exception: with a temperature of zero in [T_k] (a run does
    not get there) the new temperature is not above zero, and the message
    is the one of the source, line feed included. *)
Lemma reanneal_without_temperature_throws :
  exists s' : t float,
    complete_reanneal (answered <| T_k := [0] |>)
    = Threw ("Can't update k based on new temp, as it is <=0" ++ line_feed) s' /\
    String.length ("Can't update k based on new temp, as it is <=0" ++ line_feed) = 47%nat /\
    String.get 46 ("Can't update k based on new temp, as it is <=0" ++ line_feed)
    = Some (Ascii.ascii_of_nat 10).
Proof. eexists. split; [vm_compute; reflexivity|]. split; reflexivity. Qed.

Lemma completed_reanneal_restarts_the_count_witness :
  vVector.vgt_s (T_k reannealed) zero = true /\
  k_r reannealed = 0%Z /\
  k_r resumed = 1%Z /\
  state resumed = NeedToCompute /\
  k resumed = uincr (k reannealed) /\
  T_k resumed = schedule (D answered) (T_0 answered) (c answered) (k reannealed).
Proof.
  apply (completed_reanneal_restarts_the_count steady 100 answered reannealed resumed);
    vm_compute; reflexivity.
Defined.

Lemma generate_next_takes_first_within_bounds_witness :
  generate_next overshoot 5 narrow =
  Some (narrow <| randomized := S (randomized narrow + 2) |>
               <| num_generated := uincr (num_generated narrow) |>
               <| num_generated_recently := uincr (num_generated_recently narrow) |>
               <| x_cand := nth_draw overshoot narrow 2 |>).
Proof.
  apply (generate_next_takes_first_within_bounds overshoot 5 narrow 2).
  - intros i Hi. destruct i as [|[|i]]; [vm_compute; reflexivity|vm_compute; reflexivity|lia].
  - vm_compute; reflexivity.
  - lia.
Defined.

Lemma generate_next_candidate_witness :
  generate_next steady 100 start = Some proposed /\
  within_bounds proposed (x_cand proposed) = true.
Proof.
  assert (G : generate_next steady 100 start = Some proposed) by (vm_compute; reflexivity).
  split; [exact G|].
  exact (proj1 (generate_next_candidate steady 100 start proposed G)).
Defined.

Lemma points_stay_within_bounds_witness :
  within_bounds probing (x probing) = true /\
  within_bounds probing (x_cand probing) = true /\
  within_bounds probing (x_best probing) = true.
Proof.
  apply (points_stay_within_bounds [5] [(0, 10)]
           (construct [5] [(0, 10)] <| reanneal_after_steps := 10%Z |>) probing).
  - apply conf_reanneal_after_steps, conf_new.
  - vm_compute; reflexivity.
  - apply (run_later quadratic steady 100 10). vm_compute; reflexivity.
Defined.

Lemma reachable_well_dimensioned_witness :
  length (x_plusdelta probing) = D probing.
Proof.
  refine (proj2 (proj2 (proj2 (reachable_well_dimensioned probing probing_is_reachable))) _).
  vm_compute; reflexivity.
Defined.

Lemma histories_agree_with_counters_witness :
  length (f_param_hist_accepted probing) = length (param_hist_accepted probing) /\
  length (f_param_hist_rejected probing) = length (param_hist_rejected probing) /\
  rng_u probing
  = (length (param_hist_accepted probing) + length (param_hist_rejected probing))%nat /\
  num_accepted probing = (Z.of_nat (length (param_hist_accepted probing)) mod uint_max)%Z /\
  ((num_improved probing + num_worse probing) mod uint_max
   = Z.of_nat (rng_u probing) mod uint_max)%Z /\
  num_generated probing = (Z.of_nat (rng_u probing) mod uint_max)%Z.
Proof. exact (histories_agree_with_counters probing probing_is_reachable). Defined.

Lemma reanneal_timing_witness :
  (uincr (k_r asked) <? min_steps_to_reanneal)%Z = true /\ state stepped = NeedToCompute.
Proof.
  assert (Early : (uincr (k_r asked) <? min_steps_to_reanneal)%Z = true)
    by (vm_compute; reflexivity).
  split; [exact Early|].
  refine (proj1 (reanneal_timing steady 100 asked stepped _ _ _) Early).
  - intros E. vm_compute in E. discriminate E.
  - vm_compute; reflexivity.
  - vm_compute; reflexivity.
Defined.

Lemma ordinary_step_witness :
  steps stepped = uincr (steps asked) /\ k stepped = uincr (k asked)
  /\ k_r stepped = uincr (k_r asked).
Proof.
  refine (proj1 (ordinary_step steady 100 asked stepped _ _ _)).
  - intros E. vm_compute in E. discriminate E.
  - vm_compute; reflexivity.
  - vm_compute; reflexivity.
Defined.

Lemma temperatures_are_floored_witness :
  Forall (fun t : float => (t <? epsilon)%sc = false) (T_k stepped) /\
  Forall (fun t : float => (t <? epsilon)%sc = false) (T_cost stepped).
Proof.
  apply (temperatures_are_floored steady 100 asked stepped).
  - vm_compute; reflexivity.
  - intros E. vm_compute in E. discriminate E.
  - vm_compute; reflexivity.
  - vm_compute; reflexivity.
Defined.

Lemma temperatures_are_uniform_witness :
  T_0 probing = repeat one (D probing) /\
  (exists tv : float, T_k probing = repeat tv (D probing)) /\
  (exists tv : float, T_cost probing = repeat tv (D probing)).
Proof. exact (temperatures_are_uniform probing probing_is_reachable). Defined.

Lemma step_returns_when_a_draw_fits_witness :
  exists s' : t float,
    step overshoot 5 narrow = Returned s' /\
    (stop_condition narrow = None ->
     x_cand s'
     = nth_draw overshoot
         (acceptance_check overshoot
            (cooling_schedule (narrow <| steps := uincr (steps narrow) |>))) 2).
Proof.
  apply (step_returns_when_a_draw_fits overshoot 5 narrow 2).
  - intros E. vm_compute in E. discriminate E.
  - intros i Hi. destruct i as [|[|i]]; [vm_compute; reflexivity|vm_compute; reflexivity|lia].
  - vm_compute; reflexivity.
  - lia.
Defined.

End MoreExamples.

(** ** AdaptiveAnneal *)

Section AdaptiveSteps.
Import Adaptive.
Import Anneal (Anneal_State(..), Entropy, rng_u_get, randomize).
Context {T : Type} `{Scalar T}.
Local Open Scope scalar_scope.
Local Open Scope adaptive_scope.
Import vVector.

(** What [reanneal_complete] leaves: when it throws, the object with the
    partials it computed; when it returns, the statistics reset, [k] and
    [temp] as they were or a [temp] above zero, and the members below as
    they were. *)
Lemma reanneal_complete_effect (o : t T) :
  match reanneal_complete o with
  | Looping => False
  | Threw what o' =>
      what = "NaN or inf in partials"%string /\
      has_nan_or_inf (partials_estimate o) = true /\
      o' = o <| partials := partials_estimate o |>
  | Returned o' =>
      has_nan_or_inf (partials_estimate o) = false /\
      (num_improved o' = 0%Z /\ num_worse o' = 0%Z /\ num_worse_accepted o' = 0%Z
       /\ num_accepted o' = 0%Z /\ k_r o' = 0%Z) /\
      (temp o' = temp o /\ k o' = k o \/ vgt_s (temp o') zero = true) /\
      (x o' = x o /\ f_x o' = f_x o /\ x_cand o' = x_cand o /\ f_x_cand o' = f_x_cand o
       /\ x_best o' = x_best o /\ f_x_best o' = f_x_best o) /\
      (f_x_best_repeats o' = f_x_best_repeats o
       /\ f_x_best_repeat_max o' = f_x_best_repeat_max o
       /\ param_hist o' = param_hist o /\ f_param_hist o' = f_param_hist o) /\
      (steps o' = steps o /\ state o' = state o /\ D o' = D o
       /\ range_min o' = range_min o /\ range_max o' = range_max o
       /\ x_set o' = x_set o /\ f_x_set o' = f_x_set o /\ rng_u o' = rng_u o
       /\ randomized o' = randomized o)
  end.
Proof.
  cbv beta delta [reanneal_complete]. cbv zeta.
  change (has_nan_or_inf (partials _)) with (has_nan_or_inf (partials_estimate o)).
  destruct (has_nan_or_inf (partials_estimate o)) eqn:N; [repeat split|].
  destruct (has_zero _); [split; [reflexivity|]; split; [repeat split|];
                          split; [left; split; reflexivity|repeat split]|].
  match goal with |- context [if ?b then _ else _] => destruct b eqn:G end.
  - split; [reflexivity|]. split; [repeat split|]. split; [right; exact G|repeat split].
  - split; [reflexivity|]. split; [repeat split|].
    split; [left; split; reflexivity|repeat split].
Qed.

(** What [generate_parameter] returns: a point within the bounds, and the
    object with its generator used. *)
Lemma generate_parameter_inv (ent : Entropy T) (fuel : nat) (o : t T) (x_start p : list T)
    (o' : t T) :
  generate_parameter ent fuel o x_start = Some (p, o') ->
  within_bounds o p = true /\ exists j : nat, o' = o <| randomized := j |>.
Proof.
  revert o; induction fuel as [|fuel IH]; intros o; simpl; [discriminate|].
  destruct (within_bounds _ _) eqn:B.
  - intros [= <- <-]. split; [exact B|]. eexists; reflexivity.
  - intros G. destruct (IH _ G) as (B' & j & ->). split; [exact B'|].
    exists j. reflexivity.
Qed.

Lemma adaptive_generate_next_inv (ent : Entropy T) (fuel : nat) (o o' : t T) :
  generate_next ent fuel o = Some o' ->
  exists (j : nat) (p : list T),
    within_bounds o p = true /\ o' = o <| randomized := j |> <| x_cand := p |>.
Proof.
  unfold generate_next.
  destruct (generate_parameter _ _ _ _) as [[p o1]|] eqn:G; [|discriminate].
  intros [= <-]. destruct (generate_parameter_inv _ _ _ _ _ _ G) as (B & j & ->).
  exists j, p. split; [exact B|reflexivity].
Qed.

Lemma assign_length (ps : nat) (p : list T) (a : list (list T)) :
  (ps < length a)%nat -> length (assign ps p a) = length a.
Proof.
  intros L. unfold assign. rewrite length_app, length_firstn. cbn [length].
  rewrite length_skipn. lia.
Qed.

Lemma assign_firstn (ps : nat) (p : list T) (a : list (list T)) :
  (ps < length a)%nat -> firstn (S ps) (assign ps p a) = firstn ps a ++ [p].
Proof.
  intros L. unfold assign.
  rewrite firstn_app, length_firstn, Nat.min_l by lia.
  rewrite firstn_all2 by (rewrite length_firstn; lia).
  replace (S ps - ps)%nat with 1%nat by lia. reflexivity.
Qed.

(** The loop of [reanneal_test] fills [x_set] with points within the
    bounds. *)
Lemma sample_sets_inv (ent : Entropy T) (fuel todo ps : nat) (o o' : t T) :
  sample_sets ent fuel todo ps o = Some o' ->
  (ps + todo <= length (x_set o))%nat ->
  Forall (fun p => within_bounds o p = true) (firstn ps (x_set o)) ->
  length (x_set o') = length (x_set o) /\
  Forall (fun p => within_bounds o p = true) (firstn (ps + todo) (x_set o')) /\
  exists (j : nat) (sets : list (list T)),
    o' = o <| randomized := j |> <| x_set := sets |>.
Proof.
  revert ps o. induction todo as [|todo IH]; intros ps o; cbn [sample_sets].
  - intros [= <-] _ F. rewrite Nat.add_0_r. split; [reflexivity|]. split; [exact F|].
    exists (randomized o), (x_set o). destruct o; reflexivity.
  - destruct (generate_parameter _ _ _ _) as [[p o1]|] eqn:G; [|discriminate].
    destruct (generate_parameter_inv _ _ _ _ _ _ G) as (B & j & ->).
    intros Sm L F.
    destruct (IH _ _ Sm) as (L' & F' & j' & sets & ->).
    + cbn. rewrite assign_length by (cbn; lia). cbn. lia.
    + change (x_set (o <| randomized := j |> <| x_set := assign ps p (x_set (o <| randomized := j |>)) |>))
        with (assign ps p (x_set o)).
      rewrite assign_firstn by lia.
      apply Forall_app. split; [exact F|]. constructor; [exact B|constructor].
    + split.
      * rewrite L'. cbn. apply assign_length. lia.
      * split.
        -- replace (ps + S todo)%nat with (S ps + todo)%nat by lia. exact F'.
        -- exists j', sets. reflexivity.
Qed.

Lemma resize_sets_length (len : nat) (a : list (list T)) : length (resize_sets len a) = len.
Proof. unfold resize_sets. rewrite length_app, length_firstn, repeat_length. lia. Qed.

(** What [reanneal_test] leaves: nothing new when it says no; when it says
    yes, [partials_samples] parameter sets within the bounds. *)
Lemma reanneal_test_inv (ent : Entropy T) (fuel : nat) (o : t T) (again : bool) (o' : t T) :
  reanneal_test ent fuel o = Some (again, o') ->
  (again = false -> o' = o) /\
  (again = true ->
   length (x_set o') = Z.to_nat (partials_samples o) /\
   length (f_x_set o') = Z.to_nat (partials_samples o) /\
   Forall (fun p => within_bounds o p = true) (x_set o')) /\
  exists (j : nat) (sets : list (list T)) (values : list T),
    o' = o <| randomized := j |> <| x_set := sets |> <| f_x_set := values |>.
Proof.
  unfold reanneal_test.
  destruct (_ && _).
  - intros [= <- <-]. split; [reflexivity|]. split; [discriminate 1|].
    exists (randomized o), (x_set o), (f_x_set o). destruct o; reflexivity.
  - cbv zeta.
    match goal with |- context [sample_sets ?e ?f ?n ?p ?a] =>
      destruct (sample_sets e f n p a) as [o1|] eqn:Sm; [|discriminate]
    end.
    intros [= <- <-]. split; [discriminate 1|].
    apply sample_sets_inv in Sm.
    + destruct Sm as (L & F & j & sets & E).
      cbn in L. rewrite resize_sets_length in L.
      split.
      * intros _. split; [exact L|]. split.
        -- rewrite E. cbn. apply resize_length.
        -- cbn in F. rewrite <- L in F. rewrite firstn_all in F. exact F.
      * exists j, sets, (resize (Z.to_nat (partials_samples o)) zero (f_x_set o)).
        rewrite E. reflexivity.
    + cbn. rewrite resize_sets_length. lia.
    + constructor.
Qed.

(** [AdaptiveAnneal::acceptance_check], member by member. *)
Lemma adaptive_acceptance_effect (u : T) (a : AdaptiveAnneal.t T) :
  let accepted := AdaptiveAnneal.acceptance_probability a >? u in
  let best := accepted && (AdaptiveAnneal.f_x_cand a <? AdaptiveAnneal.f_x_best a) in
  let a' := snd (AdaptiveAnneal.acceptance_check u a) in
  fst (AdaptiveAnneal.acceptance_check u a) = accepted /\
  AdaptiveAnneal.x a' = (if accepted then AdaptiveAnneal.x_cand a else AdaptiveAnneal.x a) /\
  AdaptiveAnneal.f_x a'
  = (if accepted then AdaptiveAnneal.f_x_cand a else AdaptiveAnneal.f_x a) /\
  AdaptiveAnneal.x_best a'
  = (if best then AdaptiveAnneal.x_cand a else AdaptiveAnneal.x_best a) /\
  AdaptiveAnneal.f_x_best a'
  = (if best then AdaptiveAnneal.f_x_cand a else AdaptiveAnneal.f_x_best a) /\
  AdaptiveAnneal.f_x_best_repeats a'
  = (if best then 0
     else if accepted
     then (AdaptiveAnneal.f_x_best_repeats a
           + (if (AdaptiveAnneal.f_x_cand a =? AdaptiveAnneal.f_x_best a)%sc then 1 else 0))
          mod uint_max
     else AdaptiveAnneal.f_x_best_repeats a)%Z /\
  AdaptiveAnneal.num_accepted a'
  = (if accepted then uincr (AdaptiveAnneal.num_accepted a)
     else AdaptiveAnneal.num_accepted a) /\
  AdaptiveAnneal.param_hist a'
  = (if accepted then AdaptiveAnneal.param_hist a ++ [AdaptiveAnneal.x_cand a]
     else AdaptiveAnneal.param_hist a) /\
  AdaptiveAnneal.f_param_hist a'
  = (if accepted then AdaptiveAnneal.f_param_hist a ++ [AdaptiveAnneal.f_x_cand a]
     else AdaptiveAnneal.f_param_hist a) /\
  AdaptiveAnneal.rng_u a' = S (AdaptiveAnneal.rng_u a).
Proof.
  cbv zeta. unfold AdaptiveAnneal.acceptance_check. cbv zeta.
  destruct (AdaptiveAnneal.acceptance_probability a >? u); [|repeat split].
  cbn [andb fst snd].
  destruct (AdaptiveAnneal.f_x_cand a <? AdaptiveAnneal.f_x_best a); repeat split.
Qed.

(** The members [acceptance_check] does not write. *)
Lemma adaptive_acceptance_frame (ent : Entropy T) (o : t T) :
  let o' := snd (acceptance_check ent o) in
  (steps o' = steps o /\ state o' = state o /\ D o' = D o /\ k o' = k o /\ k_r o' = k_r o) /\
  (range_min o' = range_min o /\ range_max o' = range_max o /\ temp o' = temp o
   /\ randomized o' = randomized o) /\
  (x_cand o' = x_cand o /\ f_x_cand o' = f_x_cand o /\ x_set o' = x_set o
   /\ f_x_set o' = f_x_set o) /\
  (f_x_best_repeat_max o' = f_x_best_repeat_max o /\ partials_samples o' = partials_samples o
   /\ reanneal_after_steps o' = reanneal_after_steps o).
Proof.
  cbv zeta. unfold acceptance_check.
  destruct (AdaptiveAnneal.acceptance_check _ _) as [accepted a]. repeat split.
Qed.

Lemma advance_never_throws (ent : Entropy T) (fuel : nat) (o : t T) (what : string) (o' : t T) :
  advance ent fuel o <> Threw what o'.
Proof.
  unfold advance. cbv zeta.
  destruct (acceptance_check _ _) as [accepted o2].
  destruct (generate_next _ _ _) as [o3|]; [|discriminate].
  destruct (reanneal_test _ _ _) as [[again o5]|]; discriminate.
Qed.

(** What [advance] leaves: a candidate within the bounds and, when it asks
    for a reanneal, parameter sets within the bounds. *)
Lemma adaptive_advance_inv (ent : Entropy T) (fuel : nat) (o o' : t T) :
  advance ent fuel o = Returned o' ->
  (steps o' = steps o /\ range_min o' = range_min o /\ range_max o' = range_max o
   /\ D o' = D o /\ f_x_best_repeat_max o' = f_x_best_repeat_max o) /\
  (k o' = uincr (k o) /\ k_r o' = uincr (k_r o)) /\
  (state o' = Anneal.NeedToCompute \/ state o' = Anneal.NeedToComputeSet) /\
  within_bounds o' (x_cand o') = true /\
  (state o' = Anneal.NeedToComputeSet ->
   length (x_set o') = Z.to_nat (partials_samples o') /\
   length (f_x_set o') = Z.to_nat (partials_samples o') /\
   Forall (fun p => within_bounds o' p = true) (x_set o')).
Proof.
  unfold advance. cbv zeta.
  pose proof (adaptive_acceptance_frame ent (cooling_schedule o)) as F. cbv zeta in F.
  destruct (acceptance_check _ _) as [accepted o2]. cbn [snd] in F.
  destruct F as ((F1 & F2 & F3 & F4 & F5) & (F6 & F7 & _) & _ & (F8 & _)).
  destruct (generate_next _ _ _) as [o3|] eqn:G; [|discriminate].
  destruct (adaptive_generate_next_inv _ _ _ _ G) as (j & p & B & ->).
  destruct (reanneal_test _ _ _) as [[again o5]|] eqn:R; [|discriminate].
  intros [= <-].
  destruct (reanneal_test_inv _ _ _ _ _ R) as (No & Yes & j' & sets & values & ->).
  cbn [steps range_min range_max D f_x_best_repeat_max k k_r state x_cand x_set f_x_set
       partials_samples set set_randomized set_x_cand set_k set_k_r set_x_set set_f_x_set
       set_state within_bounds] in *.
  split; [rewrite F1, F3, F6, F7, F8; repeat split|].
  split; [rewrite F4, F5; split; reflexivity|].
  split; [destruct again; [right|left]; reflexivity|].
  split; [exact B|].
  destruct again; [intros _; exact (Yes eq_refl)|discriminate 1].
Qed.

(** [step] up to the stopping condition: the object it goes on with. *)
Lemma adaptive_step_continued (ent : Entropy T) (fuel : nat) (o : t T) :
  (exists o1 : t T,
      step ent fuel o
      = (if stop_check o1 then Returned (o1 <| state := Anneal.ReadyToStop |>)
         else advance ent fuel o1) /\
      stop_check o1 = stop_check o /\
      steps o1 = uincr (steps o) /\
      (x o1 = x o /\ f_x o1 = f_x o /\ x_best o1 = x_best o /\ f_x_best o1 = f_x_best o) /\
      (state o <> Anneal.NeedToComputeSet -> o1 = o <| steps := uincr (steps o) |>)) \/
  (state o = Anneal.NeedToComputeSet /\
   has_nan_or_inf (partials_estimate o) = true /\
   step ent fuel o
   = Threw "NaN or inf in partials"
           (o <| steps := uincr (steps o) |> <| partials := partials_estimate o |>)).
Proof.
  unfold step. cbv zeta.
  change (state (o <| steps := uincr (steps o) |>)) with (state o).
  destruct (state o) eqn:S0;
    try (left; exists (o <| steps := uincr (steps o) |>);
         split; [reflexivity|]; split; [reflexivity|]; split; [reflexivity|];
         split; [repeat split|reflexivity]).
  pose proof (reanneal_complete_effect (o <| steps := uincr (steps o) |>)) as E.
  destruct (reanneal_complete _) as [o1|what o1|]; [| |destruct E].
  - left. exists (o1 <| state := Anneal.NeedToStep |>).
    destruct E as (_ & _ & _ & (E1 & E2 & _ & _ & E3 & E4) & (E5 & E6 & _) & (E7 & _)).
    split; [reflexivity|]. split; [|split; [exact E7|split]].
    + unfold stop_check. cbn. rewrite E5, E6. reflexivity.
    + cbn. rewrite E1, E2, E3, E4. repeat split.
    + intros NS. destruct NS; reflexivity.
  - right. destruct E as (-> & N & ->). split; [reflexivity|]. split; [exact N|reflexivity].
Qed.

(** X17.  What a call of [AdaptiveAnneal::step] that returns
    leaves.  It has counted itself in [steps].  When [f_x_best_repeats] had
    reached [f_x_best_repeat_max] on entry, the state is [ReadyToStop] and
    [x], [f_x], [x_best] and [f_x_best] are as they were (a reanneal that
    was due is completed first, and does not touch them or the count of
    repeats).  Otherwise the state is [NeedToCompute] or
    [NeedToComputeSet]: the count of repeats is the only stopping
    condition. *)
Theorem adaptive_step_asks_or_stops (ent : Entropy T) (fuel : nat) (o o' : t T) :
  step ent fuel o = Returned o' ->
  steps o' = uincr (steps o) /\
  (if (f_x_best_repeats o >=? f_x_best_repeat_max o)%Z
   then state o' = Anneal.ReadyToStop /\
        (x o' = x o /\ f_x o' = f_x o /\ x_best o' = x_best o /\ f_x_best o' = f_x_best o)
   else state o' = Anneal.NeedToCompute \/ state o' = Anneal.NeedToComputeSet).
Proof.
  intros St.
  destruct (adaptive_step_continued ent fuel o) as [(o1 & E & Sc & Sn & P & _)|(_ & _ & E)];
    [|rewrite E in St; discriminate St].
  rewrite E in St. change (f_x_best_repeats o >=? f_x_best_repeat_max o)%Z with (stop_check o).
  rewrite <- Sc. destruct (stop_check o1).
  - injection St as <-. split; [exact Sn|]. split; [reflexivity|exact P].
  - destruct (adaptive_advance_inv _ _ _ _ St) as ((A1 & _) & _ & A2 & _).
    split; [rewrite A1; exact Sn|exact A2].
Qed.

(** X18.  [ReadyToStop] is final in [AdaptiveAnneal] too: once
    [step] has returned with it, a further call of [step], whatever the
    random numbers, changes [steps] and nothing else. *)
Theorem adaptive_ready_to_stop_is_final
    (ent ent' : Entropy T) (fuel fuel' : nat) (o o' : t T) :
  step ent fuel o = Returned o' ->
  state o' = Anneal.ReadyToStop ->
  step ent' fuel' o' = Returned (o' <| steps := uincr (steps o') |>).
Proof.
  intros St Stop.
  destruct (adaptive_step_continued ent fuel o) as [(o1 & E & _)|(_ & _ & E)];
    [|rewrite E in St; discriminate St].
  rewrite E in St. destruct (stop_check o1) eqn:Sc.
  - injection St as <-.
    destruct (adaptive_step_continued ent' fuel' (o1 <| state := Anneal.ReadyToStop |>))
      as [(o2 & E2 & Sc2 & _ & _ & Same)|(S2 & _)]; [|discriminate S2].
    rewrite E2, (Same ltac:(discriminate)).
    change (stop_check (o1 <| state := Anneal.ReadyToStop |>
                           <| steps := uincr (steps (o1 <| state := Anneal.ReadyToStop |>)) |>))
      with (stop_check o1).
    rewrite Sc. reflexivity.
  - destruct (adaptive_advance_inv _ _ _ _ St) as (_ & _ & [A|A] & _);
      rewrite A in Stop; discriminate Stop.
Qed.

(** X19.  [AdaptiveAnneal::step] throws only while it completes a
    reanneal and the partials it computes have a NaN or an infinity among
    them: the object was in [NeedToComputeSet], the message is
    [NaN or inf in partials], and the object is left as it was but for
    [steps], counted up, and the [partials] just computed. *)
Theorem adaptive_step_throws_only_in_reanneal
    (ent : Entropy T) (fuel : nat) (o : t T) (what : string) (o' : t T) :
  step ent fuel o = Threw what o' ->
  state o = Anneal.NeedToComputeSet /\
  has_nan_or_inf (partials_estimate o) = true /\
  what = "NaN or inf in partials"%string /\
  o' = o <| steps := uincr (steps o) |> <| partials := partials_estimate o |>.
Proof.
  intros St.
  destruct (adaptive_step_continued ent fuel o) as [(o1 & E & _)|(S0 & N & E)].
  - rewrite E in St. destruct (stop_check o1); [discriminate St|].
    destruct (advance_never_throws _ _ _ _ _ St).
  - rewrite E in St. injection St as <- <-. repeat split; assumption.
Qed.

(** X20.  [reanneal_complete] goes through whenever the partials
    are finite.  It does not throw when the new temperature is not above
    zero (there [Anneal::complete_reanneal] throws), but leaves [temp] and
    [k] as they are; either [temp] and [k] are as before or every entry of
    [temp] is above zero.  In each case the statistics are reset
    ([num_improved], [num_worse], [num_worse_accepted], [num_accepted] and
    [k_r] are 0), and [x], [f_x], [x_best], [f_x_best], the histories and
    [f_x_best_repeats] are as before. *)
Theorem reanneal_complete_resets_statistics (o : t T) :
  has_nan_or_inf (partials_estimate o) = false ->
  exists o' : t T,
    reanneal_complete o = Returned o' /\
    (num_improved o' = 0%Z /\ num_worse o' = 0%Z /\ num_worse_accepted o' = 0%Z
     /\ num_accepted o' = 0%Z /\ k_r o' = 0%Z) /\
    (temp o' = temp o /\ k o' = k o \/ vgt_s (temp o') zero = true) /\
    (x o' = x o /\ f_x o' = f_x o /\ x_best o' = x_best o /\ f_x_best o' = f_x_best o) /\
    (f_x_best_repeats o' = f_x_best_repeats o
     /\ param_hist o' = param_hist o /\ f_param_hist o' = f_param_hist o).
Proof.
  intros N. pose proof (reanneal_complete_effect o) as E.
  destruct (reanneal_complete o) as [o'|what o'|]; [| |destruct E].
  - exists o'. destruct E as (_ & E1 & E2 & (E3 & E4 & _ & _ & E5 & E6) & (E7 & _ & E8 & E9) & _).
    split; [reflexivity|]. split; [exact E1|]. split; [exact E2|].
    split; [repeat split; assumption|repeat split; assumption].
  - destruct E as (_ & N' & _). rewrite N in N'. discriminate N'.
Qed.

(** X21.  The points [AdaptiveAnneal] asks the client to evaluate
    are within the bounds.  After a call of [step] that returns and has not
    stopped, [x_cand] is within the bounds; and when the state is
    [NeedToComputeSet], [x_set] has [partials_samples] parameter sets, each
    within the bounds, and [f_x_set] has room for their objectives. *)
Theorem adaptive_points_within_bounds (ent : Entropy T) (fuel : nat) (o o' : t T) :
  step ent fuel o = Returned o' ->
  state o' <> Anneal.ReadyToStop ->
  within_bounds o' (x_cand o') = true /\
  (state o' = Anneal.NeedToComputeSet ->
   length (x_set o') = Z.to_nat (partials_samples o') /\
   length (f_x_set o') = Z.to_nat (partials_samples o') /\
   Forall (fun p => within_bounds o' p = true) (x_set o')).
Proof.
  intros St NS.
  destruct (adaptive_step_continued ent fuel o) as [(o1 & E & _)|(_ & _ & E)];
    [|rewrite E in St; discriminate St].
  rewrite E in St. destruct (stop_check o1).
  - injection St as <-. destruct NS; reflexivity.
  - destruct (adaptive_advance_inv _ _ _ _ St) as (_ & _ & _ & B & P). split; [exact B|exact P].
Qed.

(** X22.  In [AdaptiveAnneal::acceptance_check], [downhill] decides
    how the candidate is counted (improved or worse) and nothing else.  With
    [downhill] set either way the candidate is accepted or rejected alike
    and [x], [f_x], [x_best], [f_x_best], [f_x_best_repeats],
    [num_accepted] and the histories come out the same; the best is
    replaced when an accepted candidate has a lower objective than
    [f_x_best], ascending or descending. *)
Theorem adaptive_acceptance_ignores_downhill (ent : Entropy T) (o : t T) (dh : bool) :
  let a := acceptance_check ent o in
  let b := acceptance_check ent (o <| downhill := dh |>) in
  fst b = fst a /\
  (x (snd b) = x (snd a) /\ f_x (snd b) = f_x (snd a)) /\
  (x_best (snd b) = x_best (snd a) /\ f_x_best (snd b) = f_x_best (snd a)
   /\ f_x_best_repeats (snd b) = f_x_best_repeats (snd a)) /\
  (num_accepted (snd b) = num_accepted (snd a) /\ param_hist (snd b) = param_hist (snd a)
   /\ f_param_hist (snd b) = f_param_hist (snd a)) /\
  (x_best (snd a)
   = if fst a && (f_x_cand o <? f_x_best o) then x_cand o else x_best o).
Proof.
  cbv zeta. unfold acceptance_check.
  change (rng_u (o <| downhill := dh |>)) with (rng_u o).
  pose proof (adaptive_acceptance_effect (rng_u_get ent (rng_u o)) (members o)) as Ea.
  pose proof (adaptive_acceptance_effect (rng_u_get ent (rng_u o))
                (members (o <| downhill := dh |>))) as Eb.
  cbv zeta in Ea, Eb.
  destruct (AdaptiveAnneal.acceptance_check _ (members o)) as [acc_a a'].
  destruct (AdaptiveAnneal.acceptance_check _ (members (o <| downhill := dh |>)))
    as [acc_b b'].
  cbn [fst snd] in *.
  destruct Ea as (A0 & A1 & A2 & A3 & A4 & A5 & A6 & A7 & A8 & _).
  destruct Eb as (B0 & B1 & B2 & B3 & B4 & B5 & B6 & B7 & B8 & _).
  change (x (put ?v _)) with (AdaptiveAnneal.x v).
  change (f_x (put ?v _)) with (AdaptiveAnneal.f_x v).
  change (x_best (put ?v _)) with (AdaptiveAnneal.x_best v).
  change (f_x_best (put ?v _)) with (AdaptiveAnneal.f_x_best v).
  change (f_x_best_repeats (put ?v _)) with (AdaptiveAnneal.f_x_best_repeats v).
  change (num_accepted (put ?v _)) with (AdaptiveAnneal.num_accepted v).
  change (param_hist (put ?v _)) with (AdaptiveAnneal.param_hist v).
  change (f_param_hist (put ?v _)) with (AdaptiveAnneal.f_param_hist v).
  rewrite A0, A1, A2, A3, A4, A5, A6, A7, A8, B0, B1, B2, B3, B4, B5, B6, B7, B8.
  repeat split.
Qed.

End AdaptiveSteps.

Section AdaptiveRecords.
Import Adaptive.
Import Anneal (Anneal_State(..), Entropy, rng_u_get, randomize).
Context {T : Type} `{Scalar T}.
Local Open Scope scalar_scope.
Local Open Scope adaptive_scope.
Import vVector.

(** What [advance] does to the accepted point, the best and the history:
    what the acceptance check did. *)
Lemma adaptive_advance_records (ent : Entropy T) (fuel : nat) (o o' : t T) :
  advance ent fuel o = Returned o' ->
  ((x o' = x o /\ f_x o' = f_x o /\
    param_hist o' = param_hist o /\ f_param_hist o' = f_param_hist o) \/
   (x o' = x_cand o /\ f_x o' = f_x_cand o /\
    param_hist o' = param_hist o ++ [x_cand o] /\
    f_param_hist o' = f_param_hist o ++ [f_x_cand o])) /\
  ((x_best o' = x_best o /\ f_x_best o' = f_x_best o) \/
   ((f_x_cand o <? f_x_best o) = true /\ x o' = x_cand o /\
    x_best o' = x_cand o /\ f_x_best o' = f_x_cand o)).
Proof.
  unfold advance. cbv zeta.
  pose proof (adaptive_acceptance_effect
                (rng_u_get ent (rng_u (cooling_schedule o))) (members (cooling_schedule o)))
    as E.
  cbv zeta in E. unfold acceptance_check.
  destruct (AdaptiveAnneal.acceptance_check _ _) as [accepted a]. cbn [fst snd] in E.
  destruct E as (_ & E1 & E2 & E3 & E4 & _ & _ & E5 & E6 & _).
  destruct (generate_next _ _ _) as [o3|] eqn:G; [|discriminate].
  destruct (adaptive_generate_next_inv _ _ _ _ G) as (j & p & _ & ->).
  destruct (reanneal_test _ _ _) as [[again o5]|] eqn:R; [|discriminate].
  intros [= <-].
  destruct (reanneal_test_inv _ _ _ _ _ R) as (_ & _ & j' & sets & values & ->).
  cbn [x f_x x_best f_x_best param_hist f_param_hist put set
       set_x set_f_x set_x_best set_f_x_best set_f_x_best_repeats set_num_improved
       set_num_worse set_num_worse_accepted set_num_accepted set_param_hist
       set_f_param_hist set_rng_u
       set_randomized set_x_cand set_k set_k_r set_x_set set_f_x_set set_state].
  rewrite E1, E2, E3, E4, E5, E6.
  cbn [members AdaptiveAnneal.x AdaptiveAnneal.f_x AdaptiveAnneal.x_cand
       AdaptiveAnneal.f_x_cand AdaptiveAnneal.x_best AdaptiveAnneal.f_x_best
       AdaptiveAnneal.param_hist AdaptiveAnneal.f_param_hist].
  change (x_cand (cooling_schedule o)) with (x_cand o).
  change (f_x_cand (cooling_schedule o)) with (f_x_cand o).
  change (x (cooling_schedule o)) with (x o).
  change (f_x (cooling_schedule o)) with (f_x o).
  change (x_best (cooling_schedule o)) with (x_best o).
  change (f_x_best (cooling_schedule o)) with (f_x_best o).
  change (param_hist (cooling_schedule o)) with (param_hist o).
  change (f_param_hist (cooling_schedule o)) with (f_param_hist o).
  destruct (AdaptiveAnneal.acceptance_probability _ >? _).
  - cbn [andb]. split; [right; repeat split|].
    destruct (f_x_cand o <? f_x_best o); [right; repeat split|left; split; reflexivity].
  - cbn [andb]. split; left; repeat split.
Qed.

(** X23.  What a call of [AdaptiveAnneal::step] that returns
    records.  Either [x], [f_x] and the history are as before, or the
    candidate of before the call was accepted: it is [x], its objective is
    [f_x], and the pair is the one new entry of [param_hist] and
    [f_param_hist].  And either the best is as before, or the candidate was
    accepted with [f_x_cand < f_x_best] and is the best now: [f_x_best]
    never goes up, with [downhill] set either way. *)
Theorem adaptive_step_records (ent : Entropy T) (fuel : nat) (o o' : t T) :
  step ent fuel o = Returned o' ->
  ((x o' = x o /\ f_x o' = f_x o /\
    param_hist o' = param_hist o /\ f_param_hist o' = f_param_hist o) \/
   (x o' = x_cand o /\ f_x o' = f_x_cand o /\
    param_hist o' = param_hist o ++ [x_cand o] /\
    f_param_hist o' = f_param_hist o ++ [f_x_cand o])) /\
  ((x_best o' = x_best o /\ f_x_best o' = f_x_best o) \/
   ((f_x_cand o <? f_x_best o) = true /\ x o' = x_cand o /\
    x_best o' = x_cand o /\ f_x_best o' = f_x_cand o)).
Proof.
  intros St. unfold step in St. cbv zeta in St.
  change (state (o <| steps := uincr (steps o) |>)) with (state o) in St.
  assert (After : forall o1,
            (x o1 = x o /\ f_x o1 = f_x o /\ x_cand o1 = x_cand o /\ f_x_cand o1 = f_x_cand o
             /\ x_best o1 = x_best o /\ f_x_best o1 = f_x_best o
             /\ param_hist o1 = param_hist o /\ f_param_hist o1 = f_param_hist o) ->
            (if stop_check o1 then Returned (o1 <| state := Anneal.ReadyToStop |>)
             else advance ent fuel o1) = Returned o' ->
            ((x o' = x o /\ f_x o' = f_x o /\
              param_hist o' = param_hist o /\ f_param_hist o' = f_param_hist o) \/
             (x o' = x_cand o /\ f_x o' = f_x_cand o /\
              param_hist o' = param_hist o ++ [x_cand o] /\
              f_param_hist o' = f_param_hist o ++ [f_x_cand o])) /\
            ((x_best o' = x_best o /\ f_x_best o' = f_x_best o) \/
             ((f_x_cand o <? f_x_best o) = true /\ x o' = x_cand o /\
              x_best o' = x_cand o /\ f_x_best o' = f_x_cand o))).
  { intros o1 (P1 & P2 & P3 & P4 & P5 & P6 & P7 & P8) R.
    destruct (stop_check o1).
    - injection R as <-. cbn. rewrite P1, P2, P5, P6, P7, P8.
      split; left; repeat split.
    - pose proof (adaptive_advance_records _ _ _ _ R) as Q.
      rewrite P1, P2, P3, P4, P5, P6, P7, P8 in Q. exact Q. }
  destruct (state o);
    try (apply (After (o <| steps := uincr (steps o) |>)); [repeat split|exact St]).
  pose proof (reanneal_complete_effect (o <| steps := uincr (steps o) |>)) as E.
  destruct (reanneal_complete _) as [o1|what o1|]; [|discriminate St|destruct E].
  destruct E as (_ & _ & _ & (E1 & E2 & E3 & E4 & E5 & E6) & (_ & _ & E7 & E8) & _).
  apply (After (o1 <| state := Anneal.NeedToStep |>)); [|exact St].
  cbn. rewrite E1, E2, E3, E4, E5, E6, E7, E8. repeat split.
Qed.

End AdaptiveRecords.

Module AdaptiveExamples.
Import Adaptive Double AdaptiveScenario.
Import Scenario (steady, downward, quadratic).
Local Open Scope float_scope.
Local Open Scope adaptive_scope.

Lemma adaptive_step_asks_or_stops_witness :
  step steady 100 second = Returned asking /\
  steps asking = uincr (steps second).
Proof.
  assert (St : step steady 100 second = Returned asking) by (vm_compute; reflexivity).
  split; [exact St|].
  destruct (adaptive_step_asks_or_stops steady 100 second asking St) as (P & _). exact P.
Defined.

Lemma adaptive_ready_to_stop_is_final_witness :
  state done = Anneal.ReadyToStop /\
  step downward 7 done = Returned (done <| steps := uincr (steps done) |>).
Proof.
  assert (Stop : state done = Anneal.ReadyToStop) by (vm_compute; reflexivity).
  split; [exact Stop|].
  apply (adaptive_ready_to_stop_is_final steady downward 100 7
           (init (construct [5] [(0, 10)] <| f_x_best_repeat_max := 0%Z |>)) done);
    [vm_compute; reflexivity|exact Stop].
Defined.

Lemma adaptive_step_throws_only_in_reanneal_witness :
  step steady 100 poisoned
  = Threw "NaN or inf in partials"
          (poisoned <| steps := uincr (steps poisoned) |>
                    <| partials := partials_estimate poisoned |>) /\
  state poisoned = Anneal.NeedToComputeSet.
Proof.
  assert (St : step steady 100 poisoned
               = Threw "NaN or inf in partials"
                       (poisoned <| steps := uincr (steps poisoned) |>
                                 <| partials := partials_estimate poisoned |>))
    by (vm_compute; reflexivity).
  split; [exact St|].
  destruct (adaptive_step_throws_only_in_reanneal steady 100 poisoned _ _ St) as (P & _).
  exact P.
Defined.

Lemma reanneal_complete_resets_statistics_witness :
  vVector.has_nan_or_inf (partials_estimate answered) = false /\
  exists o' : t float,
    reanneal_complete answered = Returned o' /\
    (num_improved o' = 0%Z /\ num_worse o' = 0%Z /\ num_worse_accepted o' = 0%Z
     /\ num_accepted o' = 0%Z /\ k_r o' = 0%Z).
Proof.
  assert (N : vVector.has_nan_or_inf (partials_estimate answered) = false)
    by (vm_compute; reflexivity).
  split; [exact N|].
  destruct (reanneal_complete_resets_statistics answered N) as (o' & R & Z & _).
  exists o'. split; [exact R|exact Z].
Defined.

Lemma adaptive_points_within_bounds_witness :
  within_bounds asking (x_cand asking) = true /\
  (state asking = Anneal.NeedToComputeSet ->
   length (x_set asking) = Z.to_nat (partials_samples asking) /\
   length (f_x_set asking) = Z.to_nat (partials_samples asking) /\
   Forall (fun p => within_bounds asking p = true) (x_set asking)).
Proof.
  apply (adaptive_points_within_bounds steady 100 second asking).
  - vm_compute; reflexivity.
  - intros E. vm_compute in E. discriminate E.
Defined.

Lemma adaptive_step_records_witness :
  step steady 100 second = Returned asking /\
  ((x asking = x second /\ f_x asking = f_x second /\
    param_hist asking = param_hist second /\ f_param_hist asking = f_param_hist second) \/
   (x asking = x_cand second /\ f_x asking = f_x_cand second /\
    param_hist asking = param_hist second ++ [x_cand second] /\
    f_param_hist asking = f_param_hist second ++ [f_x_cand second])).
Proof.
  assert (St : step steady 100 second = Returned asking) by (vm_compute; reflexivity).
  split; [exact St|].
  destruct (adaptive_step_records steady 100 second asking St) as (P & _). exact P.
Defined.

End AdaptiveExamples.
